(** * The export pipeline of spotify_exporter.py

    A shallow embedding of [ExportWorker] (src/spotify_exporter.py) and of
    the data it works on, followed by the properties of the export pipeline.

    The class body of [ExportWorker] defines [get_playlist_tracks],
    [sanitize_filename] and the five [export_to_*] methods twice (lines
    576-772 and again lines 774-955).  In Python the later binding of a
    name in a class body replaces the earlier one, so the methods that run
    are the ones of lines 774-955; they are embedded under the source's
    names.  The replaced [get_playlist_tracks] of lines 576-651 is embedded
    as well, under the name [get_playlist_tracks_replaced].

    The parts of [MainWindow] that compute (loading the playlists,
    filtering the list and starting an export) are embedded after the
    worker, with the widgets as the values the code reads and writes. *)

From Stdlib Require Import ZArith NArith Ascii String.
From Stdlib Require Import DecimalFacts DecimalNat DecimalN DecimalZ.
From stdpp Require Import base list gmap.

Local Open Scope N_scope.

(** ** Python strings

    A Python [str] is a sequence of Unicode code points and [len] counts
    code points; the header of a webhook message holds U+2500 and U+2022,
    and [sanitize_filename] removes U+0080..U+009F, so a string is a list
    of code points here and not a list of bytes. *)

Definition char := N.
Definition str := list char.

(** An ASCII literal of the source. *)
Definition lit (s : string) : str := map N_of_ascii (list_ascii_of_string s).
Arguments lit : simpl never.

(** Characters that cannot be typed in a literal of this file. *)
Definition ch_newline : char := 10.
Definition ch_quote : char := 34.
Definition ch_backslash : char := 92.

(** [c in s] for a character [c]. *)
Definition char_in (c : char) (s : str) : bool := existsb (N.eqb c) s.

(** ** [sanitize_filename] (lines 836-841) *)

(** The character class of the first [re.sub]: the nine characters
    less-than, greater-than, colon, double quote, slash, backslash, bar,
    question mark and star. *)
Definition forbidden_chars : str := [60; 62; 58; ch_quote; 47; ch_backslash; 124; 63; 42].
Definition forbidden_char (c : char) : bool := char_in c forbidden_chars.

(** The class [[\x00-\x1f\x7f-\x9f]] of the second [re.sub]. *)
Definition control_char (c : char) : bool :=
  (c <=? 31) || ((127 <=? c) && (c <=? 159)).

(** [re.sub(cls, '', s)] for a one-character class: every match is deleted. *)
Definition re_sub_class (cls : char -> bool) (s : str) : str :=
  List.filter (fun c => negb (cls c)) s.

(** [str.lstrip(chars)], [str.rstrip(chars)], [str.strip(chars)]. *)
Fixpoint lstrip (chars s : str) : str :=
  match s with
  | [] => []
  | c :: s' => if char_in c chars then lstrip chars s' else s
  end.

Definition rstrip (chars s : str) : str := rev (lstrip chars (rev s)).

Definition strip (chars s : str) : str := rstrip chars (lstrip chars s).

(** The value of [filename] after the two substitutions and the strip,
    that is, just before the [return] of line 841. *)
Definition sanitize_stripped (filename : str) : str :=
  strip (lit ". ") (re_sub_class control_char (re_sub_class forbidden_char filename)).

Definition sanitize_filename (filename : str) : str :=
  let filename := sanitize_stripped filename in
  match filename with
  | [] => lit "playlist"
  | _ :: _ => take 200 filename
  end.

(** ** Decimal text of integers: [str(n)], [{n}] in an f-string *)

Fixpoint uint_str (d : Decimal.uint) : str :=
  match d with
  | Decimal.Nil => []
  | Decimal.D0 d => 48 :: uint_str d
  | Decimal.D1 d => 49 :: uint_str d
  | Decimal.D2 d => 50 :: uint_str d
  | Decimal.D3 d => 51 :: uint_str d
  | Decimal.D4 d => 52 :: uint_str d
  | Decimal.D5 d => 53 :: uint_str d
  | Decimal.D6 d => 54 :: uint_str d
  | Decimal.D7 d => 55 :: uint_str d
  | Decimal.D8 d => 56 :: uint_str d
  | Decimal.D9 d => 57 :: uint_str d
  end.

Definition nat_str (n : nat) : str := uint_str (Nat.to_uint n).

Definition int_str (z : Z) : str :=
  match Z.to_int z with
  | Decimal.Pos d => uint_str d
  | Decimal.Neg d => 45 :: uint_str d
  end.

(** [%02d], [%04d], [%06d]: decimal text padded with zeros on the left to
    at least [width] characters. *)
Definition zpad (width n : nat) : str :=
  let s := nat_str n in replicate (width - length s) 48 ++ s.

(** ** Python values

    The records the remote source returns are parsed JSON: [None], booleans,
    integers, strings, lists, and dicts with string keys.  A dict keeps the
    order in which its keys were inserted, so it is an association list;
    [dict_get] reads the first binding of a key.  JSON numbers with a
    fraction are not part of the model. *)

#[warnings="-register-all"]
Inductive pyval :=
| PNone
| PBool (b : bool)
| PInt (z : Z)
| PStr (s : str)
| PList (l : list pyval)
| PDict (d : list (str * pyval)).

Fixpoint dict_get (key : str) (d : list (str * pyval)) : option pyval :=
  match d with
  | [] => None
  | (k, v) :: d' => if bool_decide (k = key) then Some v else dict_get key d'
  end.

(** Truth value of a Python object ([if x:], [not x], [while x:]). *)
Definition truthy (v : pyval) : bool :=
  match v with
  | PNone => false
  | PBool b => b
  | PInt z => negb (Z.eqb z 0)
  | PStr s => match s with [] => false | _ :: _ => true end
  | PList l => match l with [] => false | _ :: _ => true end
  | PDict d => match d with [] => false | _ :: _ => true end
  end.

(** [type(v).__name__] *)
Definition type_name (v : pyval) : str :=
  match v with
  | PNone => lit "NoneType"
  | PBool _ => lit "bool"
  | PInt _ => lit "int"
  | PStr _ => lit "str"
  | PList _ => lit "list"
  | PDict _ => lit "dict"
  end.

(** ** Exceptions

    Every exception of the model is an instance of [Exception]; the class
    decides which [except] clause takes it and [exn_str] is [str(e)].
    [ExternalError] stands for what a collaborator raises (spotipy,
    requests, the file system), with the text the collaborator gave it.
    The texts of the exceptions the interpreter raises follow CPython 3.12. *)

Inductive exn :=
| AttributeError (msg : str)
| TypeError (msg : str)
| KeyError (msg : str)
| ValueError (msg : str)
| Exception (msg : str)
| ExternalError (msg : str)
| UnicodeEncodeError (msg : str).

Definition exn_str (e : exn) : str :=
  match e with
  | AttributeError m | TypeError m | KeyError m | ValueError m
  | Exception m | ExternalError m | UnicodeEncodeError m => m
  end.

Definition is_KeyError (e : exn) : bool :=
  match e with KeyError _ => true | _ => false end.

Inductive result (A : Type) :=
| Ok (a : A)
| Raise (e : exn).
Arguments Ok {A} a.
Arguments Raise {A} e.

Definition quoted (s : str) : str := lit "'" ++ s ++ lit "'".

Definition no_attribute (v : pyval) (attr : str) : exn :=
  AttributeError (quoted (type_name v) ++ lit " object has no attribute " ++ quoted attr).

(** [d.get(key, default)] on a dict. *)
Definition field (key : str) (default : pyval) (d : list (str * pyval)) : pyval :=
  match dict_get key d with
  | Some v => v
  | None => default
  end.

(** [o.get(key, default)]: a method of dicts only. *)
Definition py_get (o : pyval) (key : str) (default : pyval) : result pyval :=
  match o with
  | PDict d => Ok (field key default d)
  | _ => Raise (no_attribute o (lit "get"))
  end.

(** The elements [for x in o] runs through. *)
Definition py_iter (o : pyval) : result (list pyval) :=
  match o with
  | PList l => Ok l
  | PDict d => Ok (map (fun kv => PStr (fst kv)) d)
  | PStr s => Ok (map (fun c => PStr [c]) s)
  | _ => Raise (TypeError (quoted (type_name o) ++ lit " object is not iterable"))
  end.

Fixpoint is_prefix (p s : str) : bool :=
  match p, s with
  | [], _ => true
  | _ :: _, [] => false
  | a :: p', b :: s' => N.eqb a b && is_prefix p' s'
  end.

Fixpoint is_substring (p s : str) : bool :=
  is_prefix p s || match s with [] => false | _ :: s' => is_substring p s' end.

Definition is_str (s : str) (v : pyval) : bool :=
  match v with PStr s' => bool_decide (s' = s) | _ => false end.

(** [key in o] for a string [key]. *)
Definition py_contains (key : str) (o : pyval) : result bool :=
  match o with
  | PDict d => Ok (match dict_get key d with Some _ => true | None => false end)
  | PList l => Ok (existsb (is_str key) l)
  | PStr s => Ok (is_substring key s)
  | _ => Raise (TypeError (lit "argument of type " ++ quoted (type_name o)
                           ++ lit " is not iterable"))
  end.

(** [o[key]] for a string [key]. *)
Definition py_getitem (o : pyval) (key : str) : result pyval :=
  match o with
  | PDict d => match dict_get key d with
               | Some v => Ok v
               | None => Raise (KeyError (quoted key))
               end
  | PList _ => Raise (TypeError (lit "list indices must be integers or slices, not str"))
  | PStr _ => Raise (TypeError (lit "string indices must be integers, not 'str'"))
  | _ => Raise (TypeError (quoted (type_name o) ++ lit " object is not subscriptable"))
  end.

(** [sep.join(l)]: every element has to be a string. *)
Fixpoint join_from (i : nat) (sep : str) (l : list pyval) : result str :=
  match l with
  | [] => Ok []
  | v :: l' =>
      match v with
      | PStr s =>
          match l' with
          | [] => Ok s
          | _ :: _ => match join_from (S i) sep l' with
                      | Ok r => Ok (s ++ sep ++ r)
                      | Raise e => Raise e
                      end
          end
      | _ => Raise (TypeError (lit "sequence item " ++ nat_str i
                               ++ lit ": expected str instance, "
                               ++ type_name v ++ lit " found"))
      end
  end.

Definition py_join (sep : str) (l : list pyval) : result str := join_from 0 sep l.

(** ** The data classes (lines 73-114) *)

Inductive ExportFormat := DISCORD | CSV | JSON | TXT | MARKDOWN.

(** [ExportFormat.value], which is also the extension of the file formats. *)
Definition format_value (f : ExportFormat) : str :=
  match f with
  | DISCORD => lit "discord"
  | CSV => lit "csv"
  | JSON => lit "json"
  | TXT => lit "txt"
  | MARKDOWN => lit "md"
  end.

(** [Track]: a dataclass checks no types, so a field holds whatever
    normalization read from the record.  [artist] is the result of a
    [join] or a literal, hence always a string. *)
Record Track := {
  name : pyval;
  artist : str;
  album : pyval;
  duration_ms : pyval;
  url : pyval }.

(** [Track.to_dict] *)
Definition to_dict (t : Track) : pyval :=
  PDict [ (lit "name", name t);
          (lit "artist", PStr (artist t));
          (lit "album", album t);
          (lit "duration_ms", duration_ms t);
          (lit "url", url t) ].

(** [Playlist]: built by the window from the playlist listing, and an input
    of the worker; the fields have the declared types.  [pl_name] is the
    field [name], a name that [Track] has taken. *)
Record Playlist := {
  id : str;
  pl_name : str;
  track_count : Z;
  owner : str;
  description : str }.

(** ** The collaborators of the worker *)

(** What a page request of the remote source does: it raises, or it
    returns no page object ([None], which spotipy gives for a response
    without JSON, or an empty mapping), or it returns a page, that is the
    [items] of the page and, when the [next] cursor of the page is set,
    what [sp.next] does with that page. *)
#[warnings="-register-all"]
Inductive fetch :=
| Fetch_raises (e : exn)
| Fetch_none
| Fetch_page (items : list pyval) (next : option fetch).

(** A value of [datetime.now()]. *)
Record datetime := {
  year : nat; month : nat; day : nat;
  hour : nat; minute : nat; second : nat; microsecond : nat }.

(** [strftime("%Y%m%d_%H%M%S")].  [%Y] is the C library's: the year is
    written without padding, so that a year before 1000 has fewer than
    four digits. *)
Definition strftime_compact (d : datetime) : str :=
  nat_str (year d) ++ zpad 2 (month d) ++ zpad 2 (day d) ++ lit "_"
  ++ zpad 2 (hour d) ++ zpad 2 (minute d) ++ zpad 2 (second d).

(** [strftime('%Y-%m-%d %H:%M:%S')] *)
Definition strftime_readable (d : datetime) : str :=
  nat_str (year d) ++ lit "-" ++ zpad 2 (month d) ++ lit "-" ++ zpad 2 (day d)
  ++ lit " " ++ zpad 2 (hour d) ++ lit ":" ++ zpad 2 (minute d) ++ lit ":"
  ++ zpad 2 (second d).

(** [isoformat()]: the microseconds are left out when they are zero. *)
Definition isoformat (d : datetime) : str :=
  zpad 4 (year d) ++ lit "-" ++ zpad 2 (month d) ++ lit "-" ++ zpad 2 (day d)
  ++ lit "T" ++ zpad 2 (hour d) ++ lit ":" ++ zpad 2 (minute d) ++ lit ":"
  ++ zpad 2 (second d)
  ++ match microsecond d with
     | O => []
     | S _ => lit "." ++ zpad 6 (microsecond d)
     end.

(** The ranges of the fields of a [datetime]. *)
Definition valid_datetime (d : datetime) : bool :=
  ((1 <=? year d) && (year d <? 100 * 100) && (1 <=? month d) && (month d <=? 12)
   && (1 <=? day d) && (day d <=? 31) && (hour d <? 24) && (minute d <? 60)
   && (second d <? 60) && (microsecond d <? 1000 * 1000))%nat.

(** A path [self.output_dir / name]: the directory and the file name.
    [str(path)] is [pathlib]'s text of the pair. *)
Definition Path : Type := str * str.

(** What is written to a file: text, or for the delimited format the
    field names and the rows handed to [csv.DictWriter], whose text is
    the [csv] module's.  Text is kept as code points; of its encoding to
    bytes the model keeps whether it succeeds ([encodable]).
    [Truncated c] is the file that a [with] block leaves when an
    exception ends it while it writes [c]: the file is there, with a part
    of the text of [c]. *)
Inductive content :=
| Text (text : str)
| Csv (fieldnames : list str) (rows : list pyval)
| Truncated (c : content).

(** The code points U+D800 to U+DFFF.  A Python [str] may hold them (the
    [json] module decodes a lone escaped surrogate to one); the codecs
    [utf-8] and [utf-8-sig] raise [UnicodeEncodeError] on them. *)
Definition is_surrogate (c : char) : bool :=
  ((55296 <=? c) && (c <=? 57343))%N.

Definition has_surrogate (s : str) : bool := existsb is_surrogate s.

(** A cell of a row of [csv.DictWriter]: a [str] is written as it is,
    [None] as the empty text, and any other value as its [str()], which
    for a number or a bool has digits and letters and for a list or a
    dict is its [repr], where surrogates are escaped. *)
Definition cell_encodable (v : pyval) : bool :=
  match v with
  | PStr s => negb (has_surrogate s)
  | _ => true
  end.

Definition row_encodable (fieldnames : list str) (row : pyval) : bool :=
  match row with
  | PDict d =>
      forallb (fun k => match dict_get k d with
                        | Some v => cell_encodable v
                        | None => true
                        end) fieldnames
  | _ => true
  end.

(** Whether the text of [c] can be encoded for the file. *)
Fixpoint encodable (c : content) : bool :=
  match c with
  | Text text => negb (has_surrogate text)
  | Csv fieldnames rows =>
      forallb (fun k => negb (has_surrogate k)) fieldnames
      && forallb (row_encodable fieldnames) rows
  | Truncated c => encodable c
  end.

Arguments encodable : simpl never.

(** The constructor arguments of [ExportWorker] (lines 520-527); the run
    does not assign them. *)
Record ExportWorker := {
  export_format : ExportFormat;
  playlists : list Playlist;
  sp : str -> fetch;               (* sp.playlist_tracks(playlist_id) *)
  output_dir : str;
  webhook_url : str }.

(** What the run meets outside the worker.
    - [cancel_at = Some k]: the window calls [cancel()] after the worker
      has read [_is_cancelled] [k] times, so the reads numbered [k] and
      later (from 0) see [True]; the flag is never reset.
    - [now k]: the value of the [k]-th call of [datetime.now()].
    - [open_fails file]: what [open(file, 'w')] raises, if it raises.
    - [write_fails file c]: what the operating system makes the writes
      of [c] to the open [file], or closing it, raise, if anything (a
      full disk, a device that went away).
    - [encode_error_text c]: the text of the [UnicodeEncodeError] that
      encoding [c] raises; it names the codec, the surrogate and its
      position in the piece of text that [write] was given.
    - [post k content]: what the [k]-th [requests.post] does, the status
      code of the response or an exception. *)
Record world := {
  cancel_at : option nat;
  now : nat -> datetime;
  open_fails : Path -> option exn;
  write_fails : Path -> content -> option exn;
  encode_error_text : content -> str;
  post : nat -> str -> result Z }.

(** ** The state of a run *)

Inductive level := DEBUG | INFO | WARNING | ERROR.

(** The calls of [logger], one constructor per call site, with the values
    the message is formatted from. *)
Inductive log_msg :=
| Export_cancelled_by_user
| No_tracks_found_in_playlist (playlist_name : str)
| Export_error (e : exn)
| Skipping_item_with_no_track_data
| No_Spotify_URL_found_for_track (track_name : pyval)
| Missing_key_for_track (e : exn)
| Failed_to_process_track (e : exn)
| Exported_to_file (f : ExportFormat) (filename : Path)
| Exported_to_Discord (playlist_name : str)
| Failed_to_fetch_playlist_tracks (e : exn)
| Failed_to_get_next_page (e : exn)
| Skipped_tracks (skipped_count : nat).

(** The three signals of the worker (lines 516-518).  The percentage of
    [progress] is [int((i / total) * 100)], a floating-point computation;
    the signal keeps [i] and [total]. *)
Inductive signal :=
| progress_of (i total : nat) (label : str)
| progress (percent : nat) (label : str)
| finished (files : list Path)
| error (msg : str).

(** What changes during a run: the attribute [exported_files], the
    signals and log records emitted (oldest first), the files under
    [output_dir] (path to content), the bodies handed to
    [requests.post] (oldest first), and how often the cancellation flag and
    the clock were read. *)
Record state := {
  exported_files : list Path;
  signals : list signal;
  log : list (level * log_msg);
  files : gmap Path content;
  posted : list str;
  polls : nat;
  clock_reads : nat }.

Definition initial : state :=
  {| exported_files := []; signals := []; log := []; files := ∅;
     posted := []; polls := 0; clock_reads := 0 |}.

(** ** Computations of the worker: state and exceptions *)

Definition M (A : Type) : Type := state -> result A * state.

Definition ret {A} (a : A) : M A := fun s => (Ok a, s).

Definition raise {A} (e : exn) : M A := fun s => (Raise e, s).

Definition bind {A B} (m : M A) (k : A -> M B) : M B :=
  fun s => match m s with
           | (Ok a, s') => k a s'
           | (Raise e, s') => (Raise e, s')
           end.

(** [try: m except Exception as e: h e] *)
Definition try_except {A} (m : M A) (h : exn -> M A) : M A :=
  fun s => match m s with
           | (Ok a, s') => (Ok a, s')
           | (Raise e, s') => h e s'
           end.

(** A value or exception of a pure operation, inside a computation. *)
Definition lift {A} (r : result A) : M A := fun s => (r, s).

Notation "x <- m ;; k" := (bind m (fun x => k))
  (at level 100, m at next level, right associativity).
Notation "m ;;; k" := (bind m (fun _ => k))
  (at level 100, right associativity).

Definition logger (l : level) (m : log_msg) : M unit :=
  fun s => (Ok tt,
            {| exported_files := exported_files s; signals := signals s;
               log := log s ++ [(l, m)]; files := files s; posted := posted s;
               polls := polls s; clock_reads := clock_reads s |}).

Definition emit (sg : signal) : M unit :=
  fun s => (Ok tt,
            {| exported_files := exported_files s; signals := signals s ++ [sg];
               log := log s; files := files s; posted := posted s;
               polls := polls s; clock_reads := clock_reads s |}).

(** Reading [self._is_cancelled]. *)
Definition is_cancelled (w : world) : M bool :=
  fun s => (Ok (match cancel_at w with
                | Some k => bool_decide (k <= polls s)%nat
                | None => false
                end),
            {| exported_files := exported_files s; signals := signals s;
               log := log s; files := files s; posted := posted s;
               polls := S (polls s); clock_reads := clock_reads s |}).

(** [datetime.now()] *)
Definition datetime_now (w : world) : M datetime :=
  fun s => (Ok (now w (clock_reads s)),
            {| exported_files := exported_files s; signals := signals s;
               log := log s; files := files s; posted := posted s;
               polls := polls s; clock_reads := S (clock_reads s) |}).

(** [open(file, 'w', ...)]: raises, or creates the file or empties it. *)
Definition open_w (w : world) (file : Path) : M unit :=
  fun s => match open_fails w file with
           | Some e => (Raise e, s)
           | None =>
               (Ok tt,
                {| exported_files := exported_files s; signals := signals s;
                   log := log s; files := <[file := Text []]> (files s);
                   posted := posted s; polls := polls s;
                   clock_reads := clock_reads s |})
           end.

(** The writes of the body of a [with] block to the open file, from the
    first one on: when they all return the file holds [c].  A write
    raises when the operating system refuses it, and when the text has a
    surrogate, which the codec of the file does not encode; the exception
    leaves the [with] block, which closes the file with what was written
    before. *)
Definition file_write (w : world) (file : Path) (c : content) : M unit :=
  fun s =>
    let holding c' :=
      {| exported_files := exported_files s; signals := signals s;
         log := log s; files := <[file := c']> (files s);
         posted := posted s; polls := polls s;
         clock_reads := clock_reads s |} in
    match write_fails w file c with
    | Some e => (Raise e, holding (Truncated c))
    | None =>
        if encodable c then (Ok tt, holding c)
        else (Raise (UnicodeEncodeError (encode_error_text w c)),
              holding (Truncated c))
    end.

(** [self.exported_files.append(filepath)] *)
Definition exported_files_append (file : Path) : M unit :=
  fun s => (Ok tt,
            {| exported_files := exported_files s ++ [file]; signals := signals s;
               log := log s; files := files s; posted := posted s;
               polls := polls s; clock_reads := clock_reads s |}).

(** [requests.post(self.webhook_url, json={'content': msg})]: the status
    code of the response. *)
Definition requests_post (w : world) (msg : str) : M Z :=
  fun s => (post w (length (posted s)) msg,
            {| exported_files := exported_files s; signals := signals s;
               log := log s; files := files s; posted := posted s ++ [msg];
               polls := polls s; clock_reads := clock_reads s |}).

(** A list comprehension whose element expression can raise: the elements
    are evaluated in order and the first exception ends the evaluation. *)
Fixpoint comprehension {A B} (f : A -> result B) (l : list A) : result (list B) :=
  match l with
  | [] => Ok []
  | a :: l' =>
      match f a with
      | Raise e => Raise e
      | Ok b => match comprehension f l' with
                | Raise e => Raise e
                | Ok bs => Ok (b :: bs)
                end
      end
  end.

(** ** [json.dump(data, f, indent=2, ensure_ascii=False)]

    The text Python's [json] encoder writes for a value, at nesting depth
    [depth]: an empty list or dict on one line, otherwise one item per
    line, indented by two spaces per level, items separated by a comma and
    keys followed by a colon and a space.  With [ensure_ascii=False] only
    the double quote, the backslash and the characters below U+0020 are
    escaped in a string. *)

Definition hex_digit (n : N) : char := if n <? 10 then 48 + n else 87 + n.

Definition json_escape (c : char) : str :=
  if c =? ch_quote then [ch_backslash; ch_quote]
  else if c =? ch_backslash then [ch_backslash; ch_backslash]
  else if c =? ch_newline then [ch_backslash; 110]
  else if c =? 13 then [ch_backslash; 114]
  else if c =? 9 then [ch_backslash; 116]
  else if c =? 8 then [ch_backslash; 98]
  else if c =? 12 then [ch_backslash; 102]
  else if c <? 32 then
    [ch_backslash; 117; 48; 48; hex_digit (c / 16); hex_digit (c mod 16)]
  else [c].

Definition json_string (s : str) : str :=
  [ch_quote] ++ flat_map json_escape s ++ [ch_quote].

Definition newline_indent (depth : nat) : str :=
  ch_newline :: replicate (2 * depth) 32.

(** The items of a non-empty list or dict, each written by [item]. *)
Fixpoint json_items {A} (item : A -> str) (depth : nat) (l : list A) : str :=
  match l with
  | [] => []
  | [a] => item a
  | a :: l' => item a ++ lit "," ++ newline_indent depth ++ json_items item depth l'
  end.

Fixpoint json_dumps (depth : nat) (v : pyval) : str :=
  match v with
  | PNone => lit "null"
  | PBool true => lit "true"
  | PBool false => lit "false"
  | PInt z => int_str z
  | PStr s => json_string s
  | PList [] => lit "[]"
  | PList l =>
      lit "[" ++ newline_indent (S depth)
      ++ json_items (json_dumps (S depth)) (S depth) l
      ++ newline_indent depth ++ lit "]"
  | PDict [] => lit "{}"
  | PDict d =>
      lit "{" ++ newline_indent (S depth)
      ++ json_items (fun kv : str * pyval => let (k, v) := kv in
                               json_string k ++ lit ": " ++ json_dumps (S depth) v)
           (S depth) d
      ++ newline_indent depth ++ lit "}"
  end.

(** ** [json.loads]

    Python's [json] decoder on the values of the model.  The result is
    [None] where the decoder raises, and also where the text holds a
    number with a fraction or an exponent, [NaN] or [Infinity], which
    decode to floats. *)

Definition is_ws (c : char) : bool :=
  (c =? 32) || (c =? 9) || (c =? ch_newline) || (c =? 13).

Fixpoint skip_ws (s : str) : str :=
  match s with
  | [] => []
  | c :: s' => if is_ws c then skip_ws s' else s
  end.

Definition hex_value (c : char) : option N :=
  if (48 <=? c) && (c <=? 57) then Some (c - 48)
  else if (97 <=? c) && (c <=? 102) then Some (c - 87)
  else if (65 <=? c) && (c <=? 70) then Some (c - 55)
  else None.

(** The code unit of the four hexadecimal digits of a [\uXXXX] escape. *)
Definition hex4 (a b c d : char) : option N :=
  match hex_value a, hex_value b, hex_value c, hex_value d with
  | Some a, Some b, Some c, Some d => Some (((a * 16 + b) * 16 + c) * 16 + d)
  | _, _, _, _ => None
  end.

(** The character of a one-letter escape. *)
Definition unescape (c : char) : option char :=
  if c =? ch_quote then Some ch_quote
  else if c =? ch_backslash then Some ch_backslash
  else if c =? 47 then Some 47
  else if c =? 98 then Some 8
  else if c =? 102 then Some 12
  else if c =? 110 then Some ch_newline
  else if c =? 114 then Some 13
  else if c =? 116 then Some 9
  else None.

Definition is_high_surrogate (u : N) : bool := (55296 <=? u) && (u <=? 56319).
Definition is_low_surrogate (u : N) : bool := (56320 <=? u) && (u <=? 57343).

Definition cons_char (c : char) (r : option (str * str)) : option (str * str) :=
  match r with
  | Some (x, rest) => Some (c :: x, rest)
  | None => None
  end.

(** The string that starts after an opening quote: its characters and the
    text after the closing quote (strict mode: no raw control character). *)
Fixpoint scan_string (s : str) : option (str * str) :=
  match s with
  | [] => None
  | c :: s1 =>
      if c =? ch_quote then Some ([], s1)
      else if c =? ch_backslash then
        match s1 with
        | [] => None
        | e :: s2 =>
            if e =? 117 then
              match s2 with
              | h1 :: h2 :: h3 :: h4 :: s3 =>
                  match hex4 h1 h2 h3 h4 with
                  | None => None
                  | Some u =>
                      match s3 with
                      | b :: u' :: s4 =>
                          if is_high_surrogate u && (b =? ch_backslash) && (u' =? 117)
                          then
                            match s4 with
                            | g1 :: g2 :: g3 :: g4 :: s5 =>
                                match hex4 g1 g2 g3 g4 with
                                | None => None
                                | Some u2 =>
                                    if is_low_surrogate u2 then
                                      cons_char
                                        (65536 + ((u - 55296) * 1024 + (u2 - 56320)))
                                        (scan_string s5)
                                    else cons_char u (scan_string s3)
                                end
                            | _ => None
                            end
                          else cons_char u (scan_string s3)
                      | _ => cons_char u (scan_string s3)
                      end
                  end
              | _ => None
              end
            else
              match unescape e with
              | Some c' => cons_char c' (scan_string s2)
              | None => None
              end
        end
      else if c <? 32 then None
      else cons_char c (scan_string s1)
  end.

Definition digit_value (c : char) : option N :=
  if (48 <=? c) && (c <=? 57) then Some (c - 48) else None.

Definition push_digit (n : N) (d : Decimal.uint) : Decimal.uint :=
  match n with
  | 0 => Decimal.D0 d | 1 => Decimal.D1 d | 2 => Decimal.D2 d
  | 3 => Decimal.D3 d | 4 => Decimal.D4 d | 5 => Decimal.D5 d
  | 6 => Decimal.D6 d | 7 => Decimal.D7 d | 8 => Decimal.D8 d
  | _ => Decimal.D9 d
  end.

(** The longest run of digits at the start of [s]. *)
Fixpoint scan_digits (s : str) : Decimal.uint * str :=
  match s with
  | [] => (Decimal.Nil, [])
  | c :: s' =>
      match digit_value c with
      | Some n => let (d, rest) := scan_digits s' in (push_digit n d, rest)
      | None => (Decimal.Nil, s)
      end
  end.

(** The integer part of a number, [0] or a digit from 1 to 9 followed by
    digits; a fraction or an exponent after it makes a float. *)
Definition scan_natural (s : str) : option (Decimal.uint * str) :=
  match s with
  | [] => None
  | c :: s' =>
      match digit_value c with
      | None => None
      | Some n =>
          let (d, rest) :=
            if n =? 0 then (Decimal.D0 Decimal.Nil, s') else scan_digits s in
          match rest with
          | c' :: _ =>
              if (c' =? 46) || (c' =? 101) || (c' =? 69) then None
              else Some (d, rest)
          | [] => Some (d, rest)
          end
      end
  end.

Definition scan_number (s : str) : option (pyval * str) :=
  match s with
  | [] => None
  | c :: s' =>
      if c =? 45 then
        match scan_natural s' with
        | Some (d, rest) => Some (PInt (Z.of_int (Decimal.Neg d)), rest)
        | None => None
        end
      else
        match scan_natural s with
        | Some (d, rest) => Some (PInt (Z.of_int (Decimal.Pos d)), rest)
        | None => None
        end
  end.

(** [d[key] = value] on a dict: the value of an existing key is replaced
    in place, a new key goes to the end. *)
Fixpoint dict_set (key : str) (value : pyval) (d : list (str * pyval))
  : list (str * pyval) :=
  match d with
  | [] => [(key, value)]
  | (k, v) :: d' =>
      if bool_decide (k = key) then (k, value) :: d'
      else (k, v) :: dict_set key value d'
  end.

(** The value at the start of [s] and the text after it.  [fuel] bounds
    the number of nested calls. *)
Fixpoint scan_once (fuel : nat) (s : str) : option (pyval * str) :=
  match fuel with
  | O => None
  | S fuel =>
      match s with
      | [] => None
      | c :: s1 =>
          if c =? ch_quote then
            match scan_string s1 with
            | Some (x, rest) => Some (PStr x, rest)
            | None => None
            end
          else if c =? 123 then
            match skip_ws s1 with
            | [] => None
            | c1 :: s2 =>
                if c1 =? 125 then Some (PDict [], s2)
                else JSONObject fuel (c1 :: s2) []
            end
          else if c =? 91 then
            match skip_ws s1 with
            | [] => None
            | c1 :: s2 =>
                if c1 =? 93 then Some (PList [], s2)
                else JSONArray fuel (c1 :: s2) []
            end
          else if is_prefix (lit "null") s then Some (PNone, drop 4 s)
          else if is_prefix (lit "true") s then Some (PBool true, drop 4 s)
          else if is_prefix (lit "false") s then Some (PBool false, drop 5 s)
          else scan_number s
      end
  end
with JSONArray (fuel : nat) (s : str) (values : list pyval)
  : option (pyval * str) :=
  match fuel with
  | O => None
  | S fuel =>
      match scan_once fuel s with
      | None => None
      | Some (value, rest) =>
          match skip_ws rest with
          | [] => None
          | c :: rest' =>
              if c =? 93 then Some (PList (values ++ [value]), rest')
              else if c =? 44 then JSONArray fuel (skip_ws rest') (values ++ [value])
              else None
          end
      end
  end
with JSONObject (fuel : nat) (s : str) (pairs : list (str * pyval))
  : option (pyval * str) :=
  match fuel with
  | O => None
  | S fuel =>
      match s with
      | [] => None
      | q :: s1 =>
          if q =? ch_quote then
            match scan_string s1 with
            | None => None
            | Some (key, rest) =>
                match skip_ws rest with
                | [] => None
                | c :: rest1 =>
                    if c =? 58 then
                      match scan_once fuel (skip_ws rest1) with
                      | None => None
                      | Some (value, rest2) =>
                          match skip_ws rest2 with
                          | [] => None
                          | c' :: rest3 =>
                              if c' =? 125 then
                                Some (PDict (dict_set key value pairs), rest3)
                              else if c' =? 44 then
                                JSONObject fuel (skip_ws rest3)
                                  (dict_set key value pairs)
                              else None
                          end
                      end
                    else None
                end
            end
          else None
      end
  end.

(** [json.loads(s)]: one value, with white space around it and nothing
    else. *)
Definition json_loads (s : str) : option pyval :=
  match scan_once (2 * length s + 2) (skip_ws s) with
  | Some (v, rest) =>
      match skip_ws rest with
      | [] => Some v
      | _ :: _ => None
      end
  | None => None
  end.

Section Worker.

(** [repr] of a list or of a dict is the interpreter's: it is a parameter
    of the development.  It is needed only where the source formats a
    value that is a list or a dict. *)
Variable py_repr : pyval -> str.

(** [str(v)], and [{v}] in an f-string. *)
Definition py_str (v : pyval) : str :=
  match v with
  | PNone => lit "None"
  | PBool true => lit "True"
  | PBool false => lit "False"
  | PInt z => int_str z
  | PStr s => s
  | PList _ | PDict _ => py_repr v
  end.

(** ** [get_playlist_tracks] (lines 774-834) *)

(** The body of the [try] of lines 789-820 for one record: the new value
    of [tracks].  The two definitions of [get_playlist_tracks] differ here
    only in the level of the record logged when no URL is found. *)
Definition normalize (lvl : level) (track : pyval) (tracks : list Track)
  : M (list Track) :=
  track_name <- lift (py_get track (lit "name") (PStr (lit "Unknown Track"))) ;;
  artists <- lift (py_get track (lit "artists") (PList [])) ;;
  artist_names <-
    (if truthy artists then
       l <- lift (py_iter artists) ;;
       names <- lift (comprehension
                  (fun artist => py_get artist (lit "name") (PStr (lit "Unknown Artist")))
                  l) ;;
       lift (py_join (lit ", ") names)
     else ret (lit "Unknown Artist")) ;;
  album <- lift (py_get track (lit "album") (PDict [])) ;;
  album_name <-
    (if truthy album then lift (py_get album (lit "name") (PStr (lit "Unknown Album")))
     else ret (PStr (lit "Unknown Album"))) ;;
  duration_ms <- lift (py_get track (lit "duration_ms") (PInt 0)) ;;
  external_urls <- lift (py_get track (lit "external_urls") (PDict [])) ;;
  has_url <-
    (if truthy external_urls then lift (py_contains (lit "spotify") external_urls)
     else ret false) ;;
  track_url <-
    (if has_url then lift (py_getitem external_urls (lit "spotify"))
     else
       track_id <- lift (py_get track (lit "id") (PStr [])) ;;
       if truthy track_id then
         ret (PStr (lit "https://open.spotify.com/track/" ++ py_str track_id))
       else
         logger lvl (No_Spotify_URL_found_for_track track_name) ;;;
         ret (PStr (lit "https://open.spotify.com"))) ;;
  ret (tracks ++ [ {| name := track_name; artist := artist_names;
                      album := album_name; duration_ms := duration_ms;
                      url := track_url |} ]).

(** Lines 784-827: what the loop does with one item once the
    cancellation flag has been read; the new value of [tracks]. *)
Definition process_item (item : pyval) (tracks : list Track) : M (list Track) :=
  track <- lift (py_get item (lit "track") PNone) ;;
  if negb (truthy track) then
    logger WARNING Skipping_item_with_no_track_data ;;; ret tracks
  else
    try_except (normalize WARNING track tracks)
      (fun e =>
         if is_KeyError e then
           logger WARNING (Missing_key_for_track e) ;;; ret tracks
         else
           logger WARNING (Failed_to_process_track e) ;;; ret tracks).

(** The [for item in results['items']] loop of lines 780-827.  The result
    is the list [tracks] and whether the loop was left by the [return] of
    line 782. *)
Fixpoint for_items (w : world) (items : list pyval) (tracks : list Track)
  : M (bool * list Track) :=
  match items with
  | [] => ret (false, tracks)
  | item :: rest =>
      c <- is_cancelled w ;;
      if c then ret (true, tracks)
      else
        tracks <- process_item item tracks ;;
        for_items w rest tracks
  end.

(** The [while results:] loop of lines 779-832, entered with the outcome
    of the page request that produced [results]. *)
Fixpoint walk_pages (w : world) (results : fetch) (tracks : list Track)
  : M (list Track) :=
  match results with
  | Fetch_raises e => raise e
  | Fetch_none => ret tracks
  | Fetch_page items next =>
      r <- for_items w items tracks ;;
      if fst r then ret (snd r)
      else match next with
           | Some results => walk_pages w results (snd r)
           | None => ret (snd r)
           end
  end.

Definition get_playlist_tracks (w : world) (self : ExportWorker)
  (playlist_id : str) : M (list Track) :=
  walk_pages w (sp self playlist_id) [].

(** ** The replaced [get_playlist_tracks] (lines 576-651) *)

Fixpoint for_items_replaced (w : world) (items : list pyval)
  (tracks : list Track) (skipped_count : nat) : M (bool * list Track * nat) :=
  match items with
  | [] => ret (false, tracks, skipped_count)
  | item :: rest =>
      c <- is_cancelled w ;;
      if c then ret (true, tracks, skipped_count)
      else
        track <- lift (py_get item (lit "track") PNone) ;;
        if negb (truthy track) then
          for_items_replaced w rest tracks (S skipped_count)
        else
          r <- try_except
                 (tracks <- normalize DEBUG track tracks ;; ret (tracks, skipped_count))
                 (fun e =>
                    if is_KeyError e then
                      logger DEBUG (Missing_key_for_track e) ;;;
                      ret (tracks, S skipped_count)
                    else
                      logger DEBUG (Failed_to_process_track e) ;;;
                      ret (tracks, S skipped_count)) ;;
          for_items_replaced w rest (fst r) (snd r)
  end.

(** Lines 581-646: the page requests and the [while] loop.  The argument
    [results] is the outcome of the request that was just made and
    [on_raise] the record its [except] clause logs: line 584 for
    [sp.playlist_tracks], line 643 for [sp.next].  The result is [tracks],
    [skipped_count] and whether line 590 returned. *)
Fixpoint walk_pages_replaced (w : world) (results : fetch)
  (on_raise : exn -> log_msg) (tracks : list Track) (skipped_count : nat)
  : M (bool * list Track * nat) :=
  match results with
  | Fetch_raises e =>
      logger ERROR (on_raise e) ;;; ret (false, tracks, skipped_count)
  | Fetch_none => ret (false, tracks, skipped_count)
  | Fetch_page items next =>
      r <- for_items_replaced w items tracks skipped_count ;;
      let '(returned, tracks, skipped_count) := r in
      if returned then ret (true, tracks, skipped_count)
      else match next with
           | Some results =>
               walk_pages_replaced w results Failed_to_get_next_page
                 tracks skipped_count
           | None => ret (false, tracks, skipped_count)
           end
  end.

(** When [sp.playlist_tracks] raises, line 585 returns the empty [tracks]
    at once; [skipped_count] is 0 then, so that going through line 648
    logs nothing and returns the same. *)
Definition get_playlist_tracks_replaced (w : world) (self : ExportWorker)
  (playlist_id : str) : M (list Track) :=
  r <- walk_pages_replaced w (sp self playlist_id)
         Failed_to_fetch_playlist_tracks [] 0 ;;
  let '(returned, tracks, skipped_count) := r in
  if returned then ret tracks
  else
    (if bool_decide (0 < skipped_count)%nat
     then logger INFO (Skipped_tracks skipped_count) else ret tt) ;;;
    ret tracks.

(** ** The serializers (lines 843-922) *)

Definition nl : str := [ch_newline].

(** [self.output_dir / f"{safe_name}_{timestamp}.{ext}"] *)
Definition export_filename (playlist : Playlist) (timestamp ext : str) : str :=
  sanitize_filename (pl_name playlist) ++ lit "_" ++ timestamp ++ lit "." ++ ext.

Definition export_path (self : ExportWorker) (playlist : Playlist)
  (timestamp ext : str) : Path :=
  (output_dir self, export_filename playlist timestamp ext).

Definition csv_fieldnames : list str :=
  [lit "name"; lit "artist"; lit "album"; lit "duration_ms"; lit "url"].

Definition export_to_csv (w : world) (self : ExportWorker)
  (playlist : Playlist) (tracks : list Track) : M Path :=
  d <- datetime_now w ;;
  let timestamp := strftime_compact d in
  let filename := export_path self playlist timestamp (lit "csv") in
  open_w w filename ;;;
  file_write w filename (Csv csv_fieldnames (map to_dict tracks)) ;;;
  logger INFO (Exported_to_file CSV filename) ;;;
  ret filename.

(** The dict [data] of lines 861-870. *)
Definition json_data (playlist : Playlist) (tracks : list Track)
  (exported_at : datetime) : pyval :=
  PDict [ (lit "playlist",
           PDict [ (lit "name", PStr (pl_name playlist));
                   (lit "owner", PStr (owner playlist));
                   (lit "description", PStr (description playlist));
                   (lit "track_count", PInt (Z.of_nat (length tracks))) ]);
          (lit "tracks", PList (map to_dict tracks));
          (lit "exported_at", PStr (isoformat exported_at)) ].

(** The text of the structured document. *)
Definition json_document (playlist : Playlist) (tracks : list Track)
  (exported_at : datetime) : str :=
  json_dumps 0 (json_data playlist tracks exported_at).

Definition export_to_json (w : world) (self : ExportWorker)
  (playlist : Playlist) (tracks : list Track) : M Path :=
  d <- datetime_now w ;;
  let timestamp := strftime_compact d in
  let filename := export_path self playlist timestamp (lit "json") in
  exported_at <- datetime_now w ;;
  open_w w filename ;;;
  file_write w filename (Text (json_document playlist tracks exported_at)) ;;;
  logger INFO (Exported_to_file JSON filename) ;;;
  ret filename.

(** The entries of lines 890-894, numbered from [i]. *)
Fixpoint txt_entries (i : nat) (tracks : list Track) : str :=
  match tracks with
  | [] => []
  | track :: rest =>
      nat_str i ++ lit ". " ++ py_str (name track) ++ nl
      ++ lit "   Artist: " ++ artist track ++ nl
      ++ lit "   Album: " ++ py_str (album track) ++ nl
      ++ lit "   URL: " ++ py_str (url track) ++ nl ++ nl
      ++ txt_entries (S i) rest
  end.

(** The lines written before the clock is read (lines 884-886). *)
Definition txt_head (playlist : Playlist) (tracks : list Track) : str :=
  lit "Playlist: " ++ pl_name playlist ++ nl
  ++ lit "Owner: " ++ owner playlist ++ nl
  ++ lit "Tracks: " ++ nat_str (length tracks) ++ nl.

Definition txt_document (playlist : Playlist) (tracks : list Track)
  (exported : datetime) : str :=
  txt_head playlist tracks
  ++ lit "Exported: " ++ strftime_readable exported ++ nl
  ++ replicate 80 61 ++ nl ++ nl
  ++ txt_entries 1 tracks.

Definition export_to_txt (w : world) (self : ExportWorker)
  (playlist : Playlist) (tracks : list Track) : M Path :=
  d <- datetime_now w ;;
  let timestamp := strftime_compact d in
  let filename := export_path self playlist timestamp (lit "txt") in
  open_w w filename ;;;
  file_write w filename (Text (txt_head playlist tracks)) ;;;
  exported <- datetime_now w ;;
  file_write w filename (Text (txt_document playlist tracks exported)) ;;;
  logger INFO (Exported_to_file TXT filename) ;;;
  ret filename.

(** The entries of lines 916-919, numbered from [i]. *)
Fixpoint markdown_entries (i : nat) (tracks : list Track) : str :=
  match tracks with
  | [] => []
  | track :: rest =>
      nat_str i ++ lit ". **" ++ py_str (name track) ++ lit "** - "
      ++ artist track ++ lit "  " ++ nl
      ++ lit "   *" ++ py_str (album track) ++ lit "*  " ++ nl
      ++ lit "   [Listen on Spotify](" ++ py_str (url track) ++ lit ")" ++ nl ++ nl
      ++ markdown_entries (S i) rest
  end.

(** The lines written before the clock is read (lines 905-907). *)
Definition markdown_head (playlist : Playlist) (tracks : list Track) : str :=
  lit "# " ++ pl_name playlist ++ nl ++ nl
  ++ lit "**Owner:** " ++ owner playlist ++ lit "  " ++ nl
  ++ lit "**Tracks:** " ++ nat_str (length tracks) ++ lit "  " ++ nl.

Definition markdown_document (playlist : Playlist) (tracks : list Track)
  (exported : datetime) : str :=
  markdown_head playlist tracks
  ++ lit "**Exported:** " ++ strftime_readable exported ++ lit "  " ++ nl ++ nl
  ++ match description playlist with
     | [] => []
     | _ :: _ => lit "*" ++ description playlist ++ lit "*" ++ nl ++ nl
     end
  ++ lit "---" ++ nl ++ nl
  ++ lit "## Tracks" ++ nl ++ nl
  ++ markdown_entries 1 tracks.

Definition export_to_markdown (w : world) (self : ExportWorker)
  (playlist : Playlist) (tracks : list Track) : M Path :=
  d <- datetime_now w ;;
  let timestamp := strftime_compact d in
  let filename := export_path self playlist timestamp (lit "md") in
  open_w w filename ;;;
  file_write w filename (Text (markdown_head playlist tracks)) ;;;
  exported <- datetime_now w ;;
  file_write w filename (Text (markdown_document playlist tracks exported)) ;;;
  logger INFO (Exported_to_file MARKDOWN filename) ;;;
  ret filename.

(** ** [export_to_discord] (lines 924-955) *)

Definition discord_header (playlist : Playlist) (tracks : list Track) : str :=
  replicate 40 9472 ++ nl ++ nl
  ++ lit "##" ++ pl_name playlist ++ nl
  ++ lit "*By " ++ owner playlist ++ lit " " ++ [8226] ++ lit " "
  ++ nat_str (length tracks) ++ lit " tracks*" ++ nl
  ++ replicate 40 9472 ++ nl ++ nl.

Definition track_line (i : nat) (track : Track) : str :=
  nat_str i ++ lit ". **" ++ py_str (name track) ++ lit "** - "
  ++ artist track ++ nl.

(** The loop of lines 936-943 from the track numbered [i] on: the final
    values of [messages] and [current_message]. *)
Fixpoint chunk_lines (i : nat) (tracks : list Track)
  (messages : list str) (current_message : str) : list str * str :=
  match tracks with
  | [] => (messages, current_message)
  | track :: rest =>
      let line := track_line i track in
      if (1800 <? length current_message + length line)%nat
      then chunk_lines (S i) rest (messages ++ [current_message]) line
      else chunk_lines (S i) rest messages (current_message ++ line)
  end.

(** The list [messages] when the posting starts (line 948). *)
Definition discord_messages (playlist : Playlist) (tracks : list Track)
  : list str :=
  let (messages, current_message) :=
    chunk_lines 1 tracks [discord_header playlist tracks] [] in
  match current_message with
  | [] => messages
  | _ :: _ => messages ++ [current_message]
  end.

(** The lines of the loop in order, numbered from [i]: the numbered track
    list the messages carry. *)
Fixpoint numbered_lines (i : nat) (tracks : list Track) : list str :=
  match tracks with
  | [] => []
  | track :: rest => track_line i track :: numbered_lines (S i) rest
  end.

(** The loop of lines 948-953; the result tells whether line 950 returned. *)
Fixpoint send_messages (w : world) (messages : list str) : M bool :=
  match messages with
  | [] => ret false
  | msg :: rest =>
      c <- is_cancelled w ;;
      if c then ret true
      else
        status_code <- requests_post w msg ;;
        if negb (Z.eqb status_code 200 || Z.eqb status_code 204) then
          raise (Exception (lit "Failed to send to Discord: " ++ int_str status_code))
        else send_messages w rest
  end.

Definition export_to_discord (w : world) (self : ExportWorker)
  (playlist : Playlist) (tracks : list Track) : M unit :=
  match webhook_url self with
  | [] => raise (ValueError (lit "Discord webhook URL is required"))
  | _ :: _ =>
      returned <- send_messages w (discord_messages playlist tracks) ;;
      if returned then ret tt
      else logger INFO (Exported_to_Discord (pl_name playlist))
  end.

(** ** [run] (lines 534-574) *)

(** The three ways [run] ends: after line 570, by the [return] of line
    541, or in the [except] clause of lines 572-574. *)
Inductive exit := Completed | Cancelled | Failed.

(** Lines 543-567: what the loop does with one playlist once the
    cancellation flag has been read. *)
Definition export_playlist (w : world) (self : ExportWorker) (total i : nat)
  (playlist : Playlist) : M unit :=
  emit (progress_of i total (lit "Exporting: " ++ pl_name playlist)) ;;;
  tracks <- get_playlist_tracks w self (id playlist) ;;
  match tracks with
  | [] => logger WARNING (No_tracks_found_in_playlist (pl_name playlist))
  | _ :: _ =>
      match export_format self with
      | DISCORD => export_to_discord w self playlist tracks
      | CSV => filepath <- export_to_csv w self playlist tracks ;;
               exported_files_append filepath
      | JSON => filepath <- export_to_json w self playlist tracks ;;
                exported_files_append filepath
      | TXT => filepath <- export_to_txt w self playlist tracks ;;
               exported_files_append filepath
      | MARKDOWN => filepath <- export_to_markdown w self playlist tracks ;;
                    exported_files_append filepath
      end
  end.

(** The loop of lines 538-567 from the playlist with index [i] on; the
    result tells whether line 541 returned. *)
Fixpoint for_playlists (w : world) (self : ExportWorker) (total i : nat)
  (todo : list Playlist) : M bool :=
  match todo with
  | [] => ret false
  | playlist :: rest =>
      c <- is_cancelled w ;;
      if c then logger INFO Export_cancelled_by_user ;;; ret true
      else
        export_playlist w self total i playlist ;;;
        for_playlists w self total (S i) rest
  end.

Definition run (w : world) (self : ExportWorker) : M exit :=
  try_except
    (returned <- for_playlists w self (length (playlists self)) 0 (playlists self) ;;
     if returned then ret Cancelled
     else
       emit (progress 100 (lit "Export completed")) ;;;
       (fun s => emit (finished (exported_files s)) s) ;;;
       ret Completed)
    (fun e =>
       logger ERROR (Export_error e) ;;;
       emit (error (exn_str e)) ;;;
       ret Failed).

End Worker.

(** ** The window: [MainWindow] (lines 1267-1845)

    The parts of [MainWindow] that compute: loading the playlists of the
    user, filtering the list and starting an export.  The widgets are
    kept as the values the code reads from them and writes to them; what
    a method only shows or hides is not part of the state. *)

(** *** Python operations of the window *)

(** [c.isspace()]: the white space that [str.strip()] removes. *)
Definition py_isspace (c : char) : bool :=
  ((9 <=? c) && (c <=? 13)) || ((28 <=? c) && (c <=? 32))
  || (c =? 133) || (c =? 160) || (c =? 5760)
  || ((8192 <=? c) && (c <=? 8202)) || (c =? 8232) || (c =? 8233)
  || (c =? 8239) || (c =? 8287) || (c =? 12288).

Fixpoint lstrip_space (s : str) : str :=
  match s with
  | [] => []
  | c :: s' => if py_isspace c then lstrip_space s' else s
  end.

(** [s.strip()] *)
Definition py_strip (s : str) : str :=
  rev (lstrip_space (rev (lstrip_space s))).

(** [acc + v] for an integer [acc]; a [bool] is an [int]. *)
Definition py_add (acc : Z) (v : pyval) : result Z :=
  match v with
  | PInt z => Ok (acc + z)%Z
  | PBool b => Ok (acc + if b then 1 else 0)%Z
  | _ => Raise (TypeError (lit "unsupported operand type(s) for +: 'int' and "
                           ++ quoted (type_name v)))
  end.

(** [sum(l)], from the accumulator [acc]. *)
Fixpoint py_sum (acc : Z) (l : list pyval) : result Z :=
  match l with
  | [] => Ok acc
  | v :: l' => match py_add acc v with
               | Ok acc' => py_sum acc' l'
               | Raise e => Raise e
               end
  end.

(** [x or y] *)
Definition py_or (x y : pyval) : pyval := if truthy x then x else y.

(** What the window can raise: an exception of the worker's kinds, or
    the [IndexError] of a list index out of range. *)
Inductive window_exn :=
| Python_exn (e : exn)
| IndexError (msg : str).

Definition window_exn_str (e : window_exn) : str :=
  match e with
  | Python_exn e => exn_str e
  | IndexError msg => msg
  end.

(** [ExportFormat.display_name] (lines 75-79) *)
Definition display_name (f : ExportFormat) : str :=
  match f with
  | DISCORD => lit "Discord"
  | CSV => lit "CSV"
  | JSON => lit "JSON"
  | TXT => lit "TXT"
  | MARKDOWN => lit "Markdown"
  end.

(** *** The state of the window *)

(** A [Playlist] object as line 1615 builds it: the dataclass checks no
    types, so each field holds the value the listing has for it.  (The
    [Playlist] of the worker is the same class with the fields at their
    declared types.) *)
Record LoadedPlaylist := {
  loaded_id : pyval;
  loaded_name : pyval;
  loaded_track_count : pyval;
  loaded_owner : pyval;
  loaded_description : pyval }.

(** An item of the list widget: its text, its tool tip and whether it is
    hidden. *)
Record list_item := {
  item_text : str;
  item_tool_tip : str;
  item_hidden : bool }.

Inductive dialog :=
| warning_box (title text : str)
| critical_box (title text : str)
| question_box (title text : str).

Inductive window_msg :=
| Loaded_playlists (n : nat)
| Failed_to_load_playlists (e : exn).

(** [self.playlists], the items of [self.playlist_list], the text of the
    count label, and the messages of the status bar, the dialogs and the
    log records, oldest first. *)
Record MainWindow := {
  window_playlists : list LoadedPlaylist;
  playlist_list : list list_item;
  playlist_count_label : str;
  status_bar : list str;
  dialogs : list dialog;
  window_log : list (level * window_msg) }.

Definition showMessage (msg : str) (win : MainWindow) : MainWindow :=
  {| window_playlists := window_playlists win; playlist_list := playlist_list win;
     playlist_count_label := playlist_count_label win;
     status_bar := status_bar win ++ [msg]; dialogs := dialogs win;
     window_log := window_log win |}.

(** [f'{n} playlist{"s" if n != 1 else ""}'], the text of lines 1701 and
    1706 and a part of line 1748. *)
Definition n_playlists (n : nat) : str :=
  nat_str n ++ lit " playlist" ++ (if Nat.eqb n 1 then [] else lit "s").

(** [update_playlist_count] (lines 1699-1701) *)
Definition update_playlist_count (win : MainWindow) : MainWindow :=
  {| window_playlists := window_playlists win; playlist_list := playlist_list win;
     playlist_count_label := n_playlists (length (window_playlists win));
     status_bar := status_bar win; dialogs := dialogs win;
     window_log := window_log win |}.

(** The arguments of the [Playlist] of lines 1615-1621, evaluated in
    order; the first that raises ends the evaluation. *)
Definition playlist_of_item (item : pyval) : result LoadedPlaylist :=
  match py_getitem item (lit "id") with
  | Raise e => Raise e
  | Ok i =>
  match py_getitem item (lit "name") with
  | Raise e => Raise e
  | Ok n =>
  match py_getitem item (lit "tracks") with
  | Raise e => Raise e
  | Ok tracks =>
  match py_getitem tracks (lit "total") with
  | Raise e => Raise e
  | Ok total =>
  match py_getitem item (lit "owner") with
  | Raise e => Raise e
  | Ok o =>
  match py_getitem o (lit "display_name") with
  | Raise e => Raise e
  | Ok display =>
  match py_get item (lit "description") (PStr []) with
  | Raise e => Raise e
  | Ok d =>
      Ok {| loaded_id := i; loaded_name := n; loaded_track_count := total;
            loaded_owner := display; loaded_description := d |}
  end end end end end end end.

Section Window.

Variable py_repr : pyval -> str.

(** [s.lower()] is the interpreter's, for every character of Unicode: it
    is a parameter of the development. *)
Variable py_lower : str -> str.

(** *** [load_playlists] (lines 1606-1644) *)

(** The list item of lines 1624-1629 for a playlist. *)
Definition list_item_of (playlist : LoadedPlaylist) : list_item :=
  {| item_text :=
       py_str py_repr (loaded_name playlist) ++ lit " " ++ [8226] ++ lit " "
       ++ py_str py_repr (loaded_track_count playlist) ++ lit " tracks";
     item_tool_tip :=
       lit "Owner: " ++ py_str py_repr (loaded_owner playlist) ++ [ch_newline]
       ++ lit "Tracks: " ++ py_str py_repr (loaded_track_count playlist)
       ++ [ch_newline]
       ++ lit "Description: "
       ++ py_str py_repr (py_or (loaded_description playlist)
                            (PStr (lit "No description")));
     item_hidden := false |}.

(** Lines 1622 and 1630: the playlist and its item are appended. *)
Definition add_playlist (playlist : LoadedPlaylist) (win : MainWindow) : MainWindow :=
  {| window_playlists := window_playlists win ++ [playlist];
     playlist_list := playlist_list win ++ [list_item_of playlist];
     playlist_count_label := playlist_count_label win;
     status_bar := status_bar win; dialogs := dialogs win;
     window_log := window_log win |}.

(** The [for] loop of lines 1614-1630. *)
Fixpoint load_items (items : list pyval) (win : MainWindow)
  : result unit * MainWindow :=
  match items with
  | [] => (Ok tt, win)
  | item :: rest =>
      match playlist_of_item item with
      | Raise e => (Raise e, win)
      | Ok playlist => load_items rest (add_playlist playlist win)
      end
  end.

(** The [while] loop of lines 1613-1635, entered with the outcome of the
    page request that produced [results]. *)
Fixpoint load_pages (results : fetch) (win : MainWindow)
  : result unit * MainWindow :=
  match results with
  | Fetch_raises e => (Raise e, win)
  | Fetch_none => (Ok tt, win)
  | Fetch_page items next =>
      match load_items items win with
      | (Raise e, win') => (Raise e, win')
      | (Ok _, win') =>
          match next with
          | Some results => load_pages results win'
          | None => (Ok tt, win')
          end
      end
  end.

(** [load_playlists] (lines 1606-1644); [current_user_playlists] is what
    [self.sp.current_user_playlists()] does. *)
Definition load_playlists (current_user_playlists : fetch) (win : MainWindow)
  : MainWindow :=
  let win := showMessage (lit "Loading playlists...") win in
  let win :=
    {| window_playlists := []; playlist_list := [];
       playlist_count_label := playlist_count_label win;
       status_bar := status_bar win; dialogs := dialogs win;
       window_log := window_log win |} in
  match load_pages current_user_playlists win with
  | (Ok _, win) =>
      let win := update_playlist_count win in
      let n := length (window_playlists win) in
      let win := showMessage (lit "Loaded " ++ nat_str n ++ lit " playlists") win in
      {| window_playlists := window_playlists win; playlist_list := playlist_list win;
         playlist_count_label := playlist_count_label win;
         status_bar := status_bar win; dialogs := dialogs win;
         window_log := window_log win ++ [(INFO, Loaded_playlists n)] |}
  | (Raise e, win) =>
      let win :=
        {| window_playlists := window_playlists win;
           playlist_list := playlist_list win;
           playlist_count_label := playlist_count_label win;
           status_bar := status_bar win;
           dialogs := dialogs win
                      ++ [critical_box (lit "Error")
                            (lit "Failed to load playlists:" ++ [ch_newline; ch_newline]
                             ++ exn_str e)];
           window_log := window_log win ++ [(ERROR, Failed_to_load_playlists e)] |} in
      showMessage (lit "Failed to load playlists") win
  end.

(** *** [filter_playlists] (lines 1646-1659) *)

(** [v.lower()]: a method of strings only. *)
Definition lower_of (v : pyval) : result str :=
  match v with
  | PStr s => Ok (py_lower s)
  | _ => Raise (no_attribute v (lit "lower"))
  end.

(** The value of [visible] of lines 1653-1657; [or] evaluates its right
    operand only when the left one is false. *)
Definition visible (search_text : str) (playlist : LoadedPlaylist) : result bool :=
  match lower_of (loaded_name playlist) with
  | Raise e => Raise e
  | Ok n =>
      if is_substring search_text n then Ok true
      else
        match lower_of (loaded_owner playlist) with
        | Raise e => Raise e
        | Ok o =>
            if is_substring search_text o then Ok true
            else
              match lower_of (loaded_description playlist) with
              | Raise e => Raise e
              | Ok d => Ok (is_substring search_text d)
              end
        end
  end.

Definition setHidden (b : bool) (item : list_item) : list_item :=
  {| item_text := item_text item; item_tool_tip := item_tool_tip item;
     item_hidden := b |}.

(** The loop of lines 1649-1659 over the items from one index on, with
    the playlists from the same index on: the items as the loop leaves
    them, and the exception that ended it, if one did. *)
Fixpoint filter_items (search_text : str) (items : list list_item)
  (playlists : list LoadedPlaylist) : option window_exn * list list_item :=
  match items with
  | [] => (None, [])
  | item :: items' =>
      match playlists with
      | [] => (Some (IndexError (lit "list index out of range")), items)
      | playlist :: playlists' =>
          match visible search_text playlist with
          | Raise e => (Some (Python_exn e), items)
          | Ok v =>
              let (r, rest) := filter_items search_text items' playlists' in
              (r, setHidden (negb v) item :: rest)
          end
      end
  end.

(** [filter_playlists] (lines 1646-1659); [search_input] is the text of
    the search field. *)
Definition filter_playlists (search_input : str) (win : MainWindow)
  : option window_exn * MainWindow :=
  let search_text := py_lower search_input in
  let (r, items) :=
    filter_items search_text (playlist_list win) (window_playlists win) in
  (r, {| window_playlists := window_playlists win; playlist_list := items;
         playlist_count_label := playlist_count_label win;
         status_bar := status_bar win; dialogs := dialogs win;
         window_log := window_log win |}).

(** *** [start_export] (lines 1720-1772) *)

(** The arguments [start_export] gives to [ExportWorker] (lines
    1759-1765). *)
Record worker_arguments := {
  arg_export_format : ExportFormat;
  arg_playlists : list LoadedPlaylist;
  arg_output_dir : str;
  arg_webhook_url : str }.

(** How [start_export] ends: after a warning, by an exception, after the
    user declined the question, or with a worker started. *)
Inductive start_outcome :=
| Start_warned (title text : str)
| Start_raised (e : window_exn)
| Start_declined (question : str)
| Start_started (question : str) (arguments : worker_arguments).

(** Lines 1739-1742: the playlists at the rows of the selected items. *)
Fixpoint playlists_at (playlists : list LoadedPlaylist) (rows : list nat)
  : option (list LoadedPlaylist) :=
  match rows with
  | [] => Some []
  | row :: rows' =>
      match playlists !! row with
      | None => None
      | Some playlist =>
          match playlists_at playlists rows' with
          | None => None
          | Some l => Some (playlist :: l)
          end
      end
  end.

(** [selected_rows] are the rows of [selectedItems()], in the order the
    widget gives the items; [location_input] and [webhook_input] are the
    texts of the two fields, [location_exists] is
    [Path(export_location).exists()] and [yes] tells whether the question
    was answered with Yes.  What follows the construction of the worker
    (the progress widgets, the connections of the signals, the start of
    the thread and the log record) is in [Start_started]. *)
Definition start_export (win : MainWindow) (export_format : ExportFormat)
  (selected_rows : list nat) (location_input : str) (location_exists : bool)
  (webhook_input : str) (yes : bool) : start_outcome :=
  match selected_rows with
  | [] => Start_warned (lit "No Selection")
            (lit "Please select at least one playlist to export.")
  | _ :: _ =>
      if match location_input with [] => true | _ :: _ => negb location_exists end
      then Start_warned (lit "Invalid Location")
             (lit "Please select a valid export location.")
      else
        let webhook_url :=
          match export_format with
          | DISCORD => py_strip webhook_input
          | _ => []
          end in
        if match export_format, webhook_url with
           | DISCORD, [] => true
           | _, _ => false
           end
        then Start_warned (lit "Missing Webhook")
               (lit "Please enter a Discord webhook URL.")
        else
          match playlists_at (window_playlists win) selected_rows with
          | None => Start_raised (IndexError (lit "list index out of range"))
          | Some selected_playlists =>
              match py_sum 0 (map loaded_track_count selected_playlists) with
              | Raise e => Start_raised (Python_exn e)
              | Ok total_tracks =>
                  let question :=
                    lit "Export " ++ n_playlists (length selected_playlists)
                    ++ lit " (" ++ int_str total_tracks ++ lit " total tracks) to "
                    ++ display_name export_format ++ lit "?" in
                  if yes then
                    Start_started question
                      {| arg_export_format := export_format;
                         arg_playlists := selected_playlists;
                         arg_output_dir := location_input;
                         arg_webhook_url := webhook_url |}
                  else Start_declined question
              end
          end
  end.

End Window.

(** The window after the playlists [l] and their items were appended. *)
Definition add_playlists (py_repr : pyval -> str) (l : list LoadedPlaylist)
  (win : MainWindow) : MainWindow :=
  {| window_playlists := window_playlists win ++ l;
     playlist_list := playlist_list win ++ map (list_item_of py_repr) l;
     playlist_count_label := playlist_count_label win;
     status_bar := status_bar win; dialogs := dialogs win;
     window_log := window_log win |}.

(** ** Records as the remote source documents them *)

(** [sep.join(l)] on strings. *)
Fixpoint str_join (sep : str) (l : list str) : str :=
  match l with
  | [] => []
  | [x] => x
  | x :: l' => x ++ sep ++ str_join sep l'
  end.

Definition is_string (v : pyval) : bool :=
  match v with PStr _ => true | _ => false end.

Definition is_int (v : pyval) : bool :=
  match v with PInt _ => true | _ => false end.

(** A field that is missing, or present with a value accepted by [p]. *)
Definition missing_or (p : pyval -> bool) (field : option pyval) : bool :=
  match field with
  | None => true
  | Some v => p v
  end.

(** A dict whose field [key] is missing or a string. *)
Definition dict_with_string (key : str) (v : pyval) : bool :=
  match v with
  | PDict d => missing_or is_string (dict_get key d)
  | _ => false
  end.

(** A track record in which each of the six fields normalization reads
    is either missing or of the type the remote source gives it: [name]
    and [id] strings, [duration_ms] an integer, [artists] a list of
    objects, [album] and [external_urls] objects; inside them [name] and
    [spotify] are missing or strings.  Other fields are not constrained. *)
Definition well_formed_record (d : list (str * pyval)) : bool :=
  missing_or is_string (dict_get (lit "name") d)
  && missing_or (fun v => match v with
                          | PList l => forallb (dict_with_string (lit "name")) l
                          | _ => false
                          end) (dict_get (lit "artists") d)
  && missing_or (dict_with_string (lit "name")) (dict_get (lit "album") d)
  && missing_or is_int (dict_get (lit "duration_ms") d)
  && missing_or (dict_with_string (lit "spotify")) (dict_get (lit "external_urls") d)
  && missing_or is_string (dict_get (lit "id") d).

(** The name of one artist of a well-formed record. *)
Definition artist_name (a : pyval) : str :=
  match a with
  | PDict d => match dict_get (lit "name") d with
               | Some (PStr n) => n
               | _ => lit "Unknown Artist"
               end
  | _ => lit "Unknown Artist"
  end.

(** The Track the specification documents for a well-formed record
    (section 4.1, steps 2 to 6): each field is the value of the record or
    its placeholder. *)
Definition documented_track (d : list (str * pyval)) : Track :=
  {| name := field (lit "name") (PStr (lit "Unknown Track")) d;
     artist := match dict_get (lit "artists") d with
               | Some (PList (a :: l)) =>
                   str_join (lit ", ") (map artist_name (a :: l))
               | _ => lit "Unknown Artist"
               end;
     album := match dict_get (lit "album") d with
              | Some (PDict a) => match dict_get (lit "name") a with
                                  | Some v => v
                                  | None => PStr (lit "Unknown Album")
                                  end
              | _ => PStr (lit "Unknown Album")
              end;
     duration_ms := field (lit "duration_ms") (PInt 0) d;
     url := match dict_get (lit "external_urls") d with
            | Some (PDict u) =>
                match dict_get (lit "spotify") u with
                | Some v => v
                | None =>
                    match dict_get (lit "id") d with
                    | Some (PStr (c :: i)) =>
                        PStr (lit "https://open.spotify.com/track/" ++ c :: i)
                    | _ => PStr (lit "https://open.spotify.com")
                    end
                end
            | _ =>
                match dict_get (lit "id") d with
                | Some (PStr (c :: i)) =>
                    PStr (lit "https://open.spotify.com/track/" ++ c :: i)
                | _ => PStr (lit "https://open.spotify.com")
                end
            end |}.

(** The five fields of a Track hold text, and the duration an integer. *)
Definition populated (t : Track) : bool :=
  is_string (name t) && is_string (album t) && is_int (duration_ms t)
  && is_string (url t).

(** No dict inside [v] has two bindings of one key, as in every Python
    value. *)
Fixpoint keys_unique (v : pyval) : bool :=
  match v with
  | PList l => forallb keys_unique l
  | PDict d =>
      bool_decide (NoDup (map fst d))
      && forallb (fun kv : str * pyval => let (_, x) := kv in keys_unique x) d
  | _ => true
  end.

(** A bound on the nested calls the decoder makes to read [v] back. *)
Fixpoint weight (v : pyval) : nat :=
  match v with
  | PList l => S (list_sum (map (fun x => S (weight x)) l))
  | PDict d =>
      S (list_sum (map (fun kv : str * pyval => let (_, x) := kv in S (weight x)) d))
  | _ => 1
  end.

(** ** Texts of the structured document *)

(** The text after a value: nothing, or a comma or a newline first. *)
Definition delimited (rest : str) : Prop :=
  match rest with
  | [] => True
  | c :: _ => c = 44 \/ c = ch_newline
  end.

(** A text that starts with a character that is not white space and
    closes neither a list nor a dict. *)
Definition starts_value (s : str) : Prop :=
  match s with
  | [] => False
  | c :: _ => is_ws c = false /\ (c =? 93) = false /\ (c =? 125) = false
  end.

(** One key of a dict and its value, as [json_dumps] writes them. *)
Definition member (depth : nat) (kv : str * pyval) : str :=
  let (k, v) := kv in json_string k ++ lit ": " ++ json_dumps depth v.

(** The decoder reads the text of [v] back, at any depth and before any
    delimited text, with enough fuel. *)
Definition reads_back (v : pyval) : Prop :=
  forall depth fuel rest,
    keys_unique v = true -> (weight v <= fuel)%nat -> delimited rest ->
    scan_once fuel (json_dumps depth v ++ rest) = Some (v, rest).

(** The tuple (name, artist, album, duration_ms, url) of a Track, and of
    an object of the [tracks] array of the structured document. *)
Definition track_tuple (t : Track) : pyval * pyval * pyval * pyval * pyval :=
  (name t, PStr (artist t), album t, duration_ms t, url t).

Definition object_tuple (v : pyval)
  : option (pyval * pyval * pyval * pyval * pyval) :=
  match v with
  | PDict d =>
      match dict_get (lit "name") d, dict_get (lit "artist") d,
            dict_get (lit "album") d, dict_get (lit "duration_ms") d,
            dict_get (lit "url") d with
      | Some n, Some a, Some al, Some du, Some u => Some (n, a, al, du, u)
      | _, _, _, _, _ => None
      end
  | _ => None
  end.

(** The fields of a Track are Python values. *)
Definition track_keys_unique (t : Track) : bool :=
  keys_unique (name t) && keys_unique (album t)
  && keys_unique (duration_ms t) && keys_unique (url t).

(** ** What a computation changes *)

(** Every run of [m] relates the state before to the state after by [R],
    whether [m] returns or raises. *)
Definition preserves {A} (R : state -> state -> Prop) (m : M A) : Prop :=
  forall s r s', m s = (r, s') -> R s s'.

(** Nothing that leaves the worker changes: the exported files, the
    signals, the file system and the webhook are as before (the log and
    the counters of the flag and of the clock may differ). *)
Definition same_outputs (s s' : state) : Prop :=
  exported_files s' = exported_files s /\ signals s' = signals s
  /\ files s' = files s /\ posted s' = posted s.

(** As [same_outputs], but messages may have been posted. *)
Definition same_files (s s' : state) : Prop :=
  exported_files s' = exported_files s /\ signals s' = signals s
  /\ files s' = files s.

Definition is_progress_of (sg : signal) : bool :=
  match sg with progress_of _ _ _ => true | _ => false end.

(** The files of the file system are the exported files. *)
Definition files_listed (s : state) : Prop :=
  forall f, f ∈ exported_files s <-> is_Some (files s !! f).

(** The exported files are files of the file system. *)
Definition files_on_disk (s : state) : Prop :=
  forall f, f ∈ exported_files s -> is_Some (files s !! f).

(** What the playlist loop does to the state, whether it returns or
    raises: it emits [progress] signals of a playlist only, keeps
    [files_on_disk], and with the webhook format it leaves the exported
    files and the file system as they are. *)
Definition loop_step (self : ExportWorker) (s s' : state) : Prop :=
  (exists sigs, signals s' = signals s ++ sigs
                /\ forallb is_progress_of sigs = true)
  /\ (files_on_disk s -> files_on_disk s')
  /\ (export_format self = DISCORD ->
      exported_files s' = exported_files s /\ files s' = files s).

(** Every run of [m] that returns relates the state before to the state
    after by [R]. *)
Definition returns {A} (R : state -> state -> Prop) (m : M A) : Prop :=
  forall s a s', m s = (Ok a, s') -> R s s'.

(** What the playlist loop does when it returns: it keeps
    [files_listed]. *)
Definition keeps_listed (s s' : state) : Prop :=
  files_listed s -> files_listed s'.

Definition is_dict (v : pyval) : bool :=
  match v with PDict _ => true | _ => false end.

(** The items of all the pages of a listing, in order. *)
Fixpoint pages_items (f : fetch) : list pyval :=
  match f with
  | Fetch_raises _ => []
  | Fetch_none => []
  | Fetch_page items None => items
  | Fetch_page items (Some f') => items ++ pages_items f'
  end.

(** The request of the first page returns and the request of a later
    page raises [e]. *)
Inductive later_page_fails (e : exn) : fetch -> Prop :=
| fails_next items :
    later_page_fails e (Fetch_page items (Some (Fetch_raises e)))
| fails_later items f :
    later_page_fails e f -> later_page_fails e (Fetch_page items (Some f)).

(** ** Listings, paths and records of the log *)

(** No page request of the listing raises. *)
Fixpoint fetch_ok (f : fetch) : bool :=
  match f with
  | Fetch_raises _ => false
  | Fetch_none => true
  | Fetch_page _ next =>
      match next with
      | Some f' => fetch_ok f'
      | None => true
      end
  end.

(** The records the walker of lines 774-834 writes to the log, and among
    them the ones that tell that an item gave no Track. *)
Definition walker_record (m : log_msg) : bool :=
  match m with
  | Skipping_item_with_no_track_data | No_Spotify_URL_found_for_track _
  | Missing_key_for_track _ | Failed_to_process_track _ => true
  | _ => false
  end.

Definition skip_record (m : log_msg) : bool :=
  match m with
  | Skipping_item_with_no_track_data
  | Missing_key_for_track _ | Failed_to_process_track _ => true
  | _ => false
  end.

Definition no_tracks_record (m : log_msg) : bool :=
  match m with No_tracks_found_in_playlist _ => true | _ => false end.

(** The log grows by records accepted by [allowed]. *)
Definition logs_only (allowed : log_msg -> bool) (s s' : state) : Prop :=
  exists l, log s' = log s ++ l
            /\ forallb (fun r : level * log_msg => allowed (snd r)) l = true.

(** The flag has been read as often, and the clock. *)
Definition same_polls (s s' : state) : Prop := polls s' = polls s.

Definition same_clock (s s' : state) : Prop := clock_reads s' = clock_reads s.

(** A character that stays in a file name: neither forbidden nor a
    control character. *)
Definition clean_char (c : char) : bool := negb (forbidden_char c || control_char c).

(** A path directly in the output directory of the worker, under a name
    of such characters. *)
Definition clean_path (self : ExportWorker) (path : Path) : Prop :=
  fst path = output_dir self /\ forallb clean_char (snd path) = true.

(** The files that are new are at such paths. *)
Definition writes_clean_paths (self : ExportWorker) (s s' : state) : Prop :=
  forall path, is_Some (files s' !! path) ->
               is_Some (files s !! path) \/ clean_path self path.

(** The [progress] signals of the playlists [todo], the first of which
    has index [i] among the [total] playlists of the run. *)
Fixpoint progress_signals (total i : nat) (todo : list Playlist) : list signal :=
  match todo with
  | [] => []
  | playlist :: rest =>
      progress_of i total (lit "Exporting: " ++ pl_name playlist)
      :: progress_signals total (S i) rest
  end.

(** How many records of the log [p] accepts. *)
Definition count_records (p : log_msg -> bool) (l : list (level * log_msg)) : nat :=
  length (List.filter (fun r : level * log_msg => p (snd r)) l).

(** Two computations end alike: both return, with results that [proj]
    maps to one another, or both raise the same exception; and the flag
    has been read as often. *)
Definition end_alike {A B} (proj : A -> B)
  (a : result A * state) (b : result B * state) : Prop :=
  match fst a, fst b with
  | Ok x, Ok y => proj x = y
  | Raise e, Raise e' => e = e'
  | _, _ => False
  end
  /\ polls (snd a) = polls (snd b).

(** What an export to a file leaves when it returns: the file [path]
    holds [c], the export is logged and the clock has been read [reads]
    times. *)
Definition exported_to (f : ExportFormat) (path : Path) (c : content)
  (reads : nat) (s : state) : state :=
  {| exported_files := exported_files s; signals := signals s;
     log := log s ++ [(INFO, Exported_to_file f path)];
     files := <[path := c]> (files s);
     posted := posted s; polls := polls s;
     clock_reads := reads + clock_reads s |}.

(** What the export of a file format writes to its file, with the clock
    at [d] when the body of the export reads it. *)
Definition export_document (py_repr : pyval -> str) (f : ExportFormat)
  (playlist : Playlist) (tracks : list Track) (d : datetime) : content :=
  match f with
  | CSV => Csv csv_fieldnames (map to_dict tracks)
  | JSON => Text (json_document playlist tracks d)
  | TXT => Text (txt_document py_repr playlist tracks d)
  | MARKDOWN => Text (markdown_document py_repr playlist tracks d)
  | DISCORD => Text []
  end.

(** ** Inputs of the examples *)

(** No run of an example formats a list or a dict. *)
Definition repr_unused : pyval -> str := fun _ => [].

(** A name of 201 characters whose 200th character is a space. *)
Definition long_name : str := replicate 199 97 ++ lit " b".

Definition road_trip : Playlist :=
  {| id := lit "37i9dQZF1DX0"; pl_name := lit "Road Trip"; track_count := 5;
     owner := lit "ana"; description := [] |}.

(** A track whose name has 1800 characters. *)
Definition long_track : Track :=
  {| name := PStr (replicate 1800 97); artist := lit "b";
     album := PStr (lit "c"); duration_ms := PInt 1000;
     url := PStr (lit "https://open.spotify.com/track/4uLU6hMCjMI75M1A2tKUQC") |}.

Definition chill : Playlist :=
  {| id := lit "5FJXhjdILmRA"; pl_name := lit "Chill"; track_count := 2;
     owner := lit "ana"; description := lit "late" |}.

Definition focus : Playlist :=
  {| id := lit "1h0CEZCm6IbF"; pl_name := lit "Focus"; track_count := 1;
     owner := lit "ben"; description := [] |}.

(** Two playlists whose names differ and sanitize to the same text. *)
Definition mix_question : Playlist :=
  {| id := lit "0vvXsWCC9xrX"; pl_name := lit "Mix?"; track_count := 1;
     owner := lit "ana"; description := [] |}.

Definition mix_star : Playlist :=
  {| id := lit "6Qf2sXTjlH3H"; pl_name := lit "Mix*"; track_count := 1;
     owner := lit "ben"; description := [] |}.

(** An item of a page with a full track record. *)
Definition song (title track_id : string) : pyval :=
  PDict [ (lit "added_at", PStr (lit "2024-05-17T10:00:00Z"));
          (lit "track",
           PDict [ (lit "name", PStr (lit title));
                   (lit "artists",
                    PList [ PDict [ (lit "name", PStr (lit "Ana")) ];
                            PDict [ (lit "name", PStr (lit "Ben")) ] ]);
                   (lit "album", PDict [ (lit "name", PStr (lit "Roads")) ]);
                   (lit "duration_ms", PInt 215000);
                   (lit "external_urls",
                    PDict [ (lit "spotify",
                             PStr (lit "https://open.spotify.com/track/"
                                   ++ lit track_id)) ]);
                   (lit "id", PStr (lit track_id)) ]) ].




(** A record with a name and nothing else, and the item that holds it. *)
Definition nameless_record : list (str * pyval) :=
  [ (lit "name", PStr (lit "Intro")) ].

Definition nameless_item : list (str * pyval) :=
  [ (lit "track", PDict nameless_record) ].

(** An item whose track record is the empty mapping. *)
Definition empty_record_item : list (str * pyval) :=
  [ (lit "track", PDict []) ].

(** The Track of [song title track_id]. *)
Definition song_track (title track_id : string) : Track :=
  {| name := PStr (lit title); artist := lit "Ana, Ben";
     album := PStr (lit "Roads"); duration_ms := PInt 215000;
     url := PStr (lit "https://open.spotify.com/track/" ++ lit track_id) |}.

(** Sixty tracks: their lines have 1910 characters together. *)
Definition sixty_tracks : list Track :=
  replicate 60 (song_track "Open Road Again" "4uLU6hMCjMI7").

Definition noon : datetime :=
  {| year := 2024; month := 5; day := 17;
     hour := 12; minute := 0; second := 9; microsecond := 250 |}.

(** The same time of the day in the year 999. *)
Definition noon_999 : datetime :=
  {| year := 999; month := 5; day := 17;
     hour := 12; minute := 0; second := 9; microsecond := 250 |}.

Definition bad_gateway : exn := ExternalError (lit "http status: 502").

(** One page for every playlist, except that the listing of [chill] has
    a second page whose request raises. *)
Definition remote (playlist_id : str) : fetch :=
  if bool_decide (playlist_id = id chill) then
    Fetch_page [song "Slow" "2takcwOaAZWi"] (Some (Fetch_raises bad_gateway))
  else
    Fetch_page [song "Open Road" "4uLU6hMCjMI7"] None.

(** One page of one track for every playlist. *)
Definition remote_one_page (playlist_id : str) : fetch :=
  Fetch_page [song "Open Road" "4uLU6hMCjMI7"] None.

(** The text of the [UnicodeEncodeError] for a JSON string that begins
    with U+D800: the piece handed to [write] is the string in its
    quotes. *)
Definition surrogates_not_allowed : str :=
  lit "'utf-8' codec can't encode character '\ud800' in position 1: surrogates not allowed".

(** The clock stands at [noon], files open and take what is written, the
    webhook accepts. *)
Definition calm : world :=
  {| cancel_at := None; now := fun _ => noon;
     open_fails := fun _ => None; write_fails := fun _ _ => None;
     encode_error_text := fun _ => surrogates_not_allowed; post := fun _ _ => Ok 204%Z |}.

(** As [calm], with [cancel()] after the flag has been read twice, that
    is after the first playlist of a run of one-track playlists. *)
Definition cancelled_after_first : world :=
  {| cancel_at := Some 2%nat; now := fun _ => noon;
     open_fails := fun _ => None; write_fails := fun _ _ => None;
     encode_error_text := fun _ => surrogates_not_allowed; post := fun _ _ => Ok 204%Z |}.

(** As [calm], with a webhook that answers 500. *)
Definition refusing : world :=
  {| cancel_at := None; now := fun _ => noon;
     open_fails := fun _ => None; write_fails := fun _ _ => None;
     encode_error_text := fun _ => surrogates_not_allowed; post := fun _ _ => Ok 500%Z |}.

Definition worker (f : ExportFormat) (sp : str -> fetch)
  (playlists : list Playlist) : ExportWorker :=
  {| export_format := f; playlists := playlists; sp := sp;
     output_dir := lit "/home/ana/Downloads";
     webhook_url := lit "https://discord.com/api/webhooks/1/abc" |}.

(** Two songs on two pages, and the same two songs on one page. *)
Definition remote_two_pages (playlist_id : str) : fetch :=
  Fetch_page [song "Open Road" "4uLU6hMCjMI7"]
    (Some (Fetch_page [song "Slow" "2takcwOaAZWi"] None)).

Definition remote_same_page (playlist_id : str) : fetch :=
  Fetch_page [song "Open Road" "4uLU6hMCjMI7"; song "Slow" "2takcwOaAZWi"] None.

(** A page of three items: a song, an item whose track record is empty
    and an item whose record has a name only. *)
Definition remote_mixed (playlist_id : str) : fetch :=
  Fetch_page [song "Open Road" "4uLU6hMCjMI7"; PDict empty_record_item;
              PDict nameless_item] None.

(** One song for every playlist, except that [focus] has none. *)
Definition remote_focus_empty (playlist_id : str) : fetch :=
  if bool_decide (playlist_id = id focus) then Fetch_page [] None
  else Fetch_page [song "Open Road" "4uLU6hMCjMI7"] None.

(** A page whose second item is [null]. *)
Definition remote_null_item (playlist_id : str) : fetch :=
  Fetch_page [song "Open Road" "4uLU6hMCjMI7"; PNone] None.

(** As [calm], with [cancel()] after the flag has been read once, and
    after it has been read three times. *)
Definition cancelled_after_one_read : world :=
  {| cancel_at := Some 1%nat; now := fun _ => noon;
     open_fails := fun _ => None; write_fails := fun _ _ => None;
     encode_error_text := fun _ => surrogates_not_allowed; post := fun _ _ => Ok 204%Z |}.

Definition cancelled_after_three_reads : world :=
  {| cancel_at := Some 3%nat; now := fun _ => noon;
     open_fails := fun _ => None; write_fails := fun _ _ => None;
     encode_error_text := fun _ => surrogates_not_allowed; post := fun _ _ => Ok 204%Z |}.

Definition permission_denied : exn :=
  ExternalError (lit "[Errno 13] Permission denied").

(** As [calm], in a directory where no file can be created. *)
Definition read_only : world :=
  {| cancel_at := None; now := fun _ => noon;
     open_fails := fun _ => Some permission_denied;
     write_fails := fun _ _ => None;
     encode_error_text := fun _ => surrogates_not_allowed;
     post := fun _ _ => Ok 204%Z |}.

(** A worker of the webhook format without a webhook URL. *)
Definition worker_without_webhook (sp : str -> fetch) (playlists : list Playlist)
  : ExportWorker :=
  {| export_format := DISCORD; playlists := playlists; sp := sp;
     output_dir := lit "/home/ana/Downloads"; webhook_url := [] |}.

(** An item of the playlist listing. *)
Definition listed (playlist_id title owner_name : string) (total : Z)
  (description : pyval) : pyval :=
  PDict [ (lit "id", PStr (lit playlist_id));
          (lit "name", PStr (lit title));
          (lit "tracks", PDict [ (lit "total", PInt total) ]);
          (lit "owner", PDict [ (lit "display_name", PStr (lit owner_name)) ]);
          (lit "description", description) ].

(** Two playlists on two pages; the description of the second is [null]. *)
Definition user_playlists : fetch :=
  Fetch_page [listed "37i9dQZF1DX0" "Road Trip" "ana" 5 (PStr [])]
    (Some (Fetch_page [listed "5FJXhjdILmRA" "Chill" "ben" 2 PNone] None)).

(** A page whose second item has a name and nothing else. *)
Definition user_playlists_untitled : fetch :=
  Fetch_page [ listed "37i9dQZF1DX0" "Road Trip" "ana" 5 (PStr []);
               PDict [ (lit "name", PStr (lit "Untitled")) ];
               listed "5FJXhjdILmRA" "Chill" "ben" 2 PNone ] None.

Definition loaded_road_trip : LoadedPlaylist :=
  {| loaded_id := PStr (lit "37i9dQZF1DX0"); loaded_name := PStr (lit "Road Trip");
     loaded_track_count := PInt 5; loaded_owner := PStr (lit "ana");
     loaded_description := PStr [] |}.

Definition loaded_chill : LoadedPlaylist :=
  {| loaded_id := PStr (lit "5FJXhjdILmRA"); loaded_name := PStr (lit "Chill");
     loaded_track_count := PInt 2; loaded_owner := PStr (lit "ben");
     loaded_description := PNone |}.

(** The window before the first call of [load_playlists], with seven
    playlists on its count label. *)
Definition stale_window : MainWindow :=
  {| window_playlists := []; playlist_list := [];
     playlist_count_label := lit "7 playlists";
     status_bar := []; dialogs := []; window_log := [] |}.

(** [lower] on the letters of ASCII. *)
Definition ascii_lower (s : str) : str :=
  map (fun c => if (65 <=? c) && (c <=? 90) then c + 32 else c)%N s.

(** * Properties *)

Local Open Scope nat_scope.

(** ** The filename sanitizer *)

Lemma char_in_spec (c : char) (s : str) : char_in c s = true <-> In c s.
Proof.
  unfold char_in. rewrite existsb_exists. split.
  - intros (x & Hx & Heq). apply N.eqb_eq in Heq. now subst.
  - intros H. exists c. split; [assumption | apply N.eqb_refl].
Qed.

Lemma re_sub_class_In cls s c :
  In c (re_sub_class cls s) <-> In c s /\ cls c = false.
Proof.
  unfold re_sub_class. rewrite filter_In, negb_true_iff. reflexivity.
Qed.

Lemma re_sub_class_twice cls1 cls2 s :
  re_sub_class cls2 (re_sub_class cls1 s)
  = List.filter (fun c => negb (cls1 c || cls2 c)) s.
Proof.
  unfold re_sub_class. induction s as [|c s IH]; simpl; [reflexivity|].
  destruct (cls1 c); simpl; [assumption|].
  destruct (cls2 c); simpl; [assumption|]. now rewrite IH.
Qed.

(** [lstrip] removes a prefix made of characters of [chars], and what is
    left does not start with one. *)
Lemma lstrip_spec chars s :
  exists pre, s = pre ++ lstrip chars s
    /\ Forall (fun c => char_in c chars = true) pre
    /\ (forall c, head (lstrip chars s) = Some c -> char_in c chars = false).
Proof.
  induction s as [|c s (pre & Hs & Hpre & Hhd)]; simpl.
  - exists []. repeat split; [constructor | discriminate].
  - destruct (char_in c chars) eqn:E.
    + exists (c :: pre). repeat split; auto. simpl. now f_equal.
    + exists []. repeat split; [constructor|]. simpl. now intros ? [= <-].
Qed.

Lemma last_rev {A} (l : list A) : last (rev l) = head l.
Proof. destruct l as [|a l]; [reflexivity|]. simpl. apply last_snoc. Qed.

Lemma rstrip_spec chars s :
  exists post, s = rstrip chars s ++ post
    /\ Forall (fun c => char_in c chars = true) post
    /\ (forall c, last (rstrip chars s) = Some c -> char_in c chars = false).
Proof.
  unfold rstrip. destruct (lstrip_spec chars (rev s)) as (pre & Hs & Hpre & Hhd).
  exists (rev pre). split; [|split].
  - rewrite <- rev_app_distr, <- Hs. symmetry. apply rev_involutive.
  - apply List.Forall_forall. intros c Hc. rewrite <- in_rev in Hc.
    rewrite List.Forall_forall in Hpre. now apply Hpre.
  - intros c Hc. apply Hhd. rewrite <- Hc. symmetry. apply last_rev.
Qed.

Lemma head_app_r {A} (l1 l2 : list A) (x : A) :
  head l1 = Some x -> head (l1 ++ l2) = Some x.
Proof. destruct l1; [discriminate | trivial]. Qed.

Lemma strip_spec chars s :
  exists pre post, s = pre ++ strip chars s ++ post
    /\ Forall (fun c => char_in c chars = true) pre
    /\ Forall (fun c => char_in c chars = true) post
    /\ (forall c, head (strip chars s) = Some c -> char_in c chars = false)
    /\ (forall c, last (strip chars s) = Some c -> char_in c chars = false).
Proof.
  unfold strip.
  destruct (lstrip_spec chars s) as (pre & Hs & Hpre & Hhd).
  destruct (rstrip_spec chars (lstrip chars s)) as (post & Hl & Hpost & Hlast).
  exists pre, post. repeat split; auto.
  - now rewrite <- Hl.
  - intros c Hc. apply Hhd. rewrite Hl. now apply head_app_r.
Qed.

Lemma sanitize_stripped_spec filename :
  exists pre post,
    List.filter (fun c => negb (forbidden_char c || control_char c)) filename
    = pre ++ sanitize_stripped filename ++ post
    /\ Forall (fun c => char_in c (lit ". ") = true) pre
    /\ Forall (fun c => char_in c (lit ". ") = true) post
    /\ (forall c, head (sanitize_stripped filename) = Some c ->
                  char_in c (lit ". ") = false)
    /\ (forall c, last (sanitize_stripped filename) = Some c ->
                  char_in c (lit ". ") = false).
Proof.
  unfold sanitize_stripped. rewrite <- re_sub_class_twice. apply strip_spec.
Qed.

Lemma sanitize_stripped_chars filename c :
  In c (sanitize_stripped filename) ->
  In c filename /\ forbidden_char c = false /\ control_char c = false.
Proof.
  intros Hc. destruct (sanitize_stripped_spec filename) as (pre & post & E & _).
  assert (Hin : In c (List.filter
            (fun c => negb (forbidden_char c || control_char c)) filename)).
  { rewrite E. apply in_or_app. right. apply in_or_app. now left. }
  apply filter_In in Hin. destruct Hin as [Hin Hb].
  apply negb_true_iff, orb_false_iff in Hb. tauto.
Qed.

Lemma In_take {A} (n : nat) (l : list A) (x : A) : In x (take n l) -> In x l.
Proof.
  intros H. rewrite <- (firstn_skipn n l). apply in_or_app. now left.
Qed.

(** C5, as the code has it: the sanitizer deletes exactly the nine
    forbidden characters and the control characters, strips periods and
    spaces from both ends of what remains and nothing else, and returns
    the literal "playlist" when nothing is left, otherwise the first 200
    characters of the stripped text.  The result is never empty, is at
    most 200 characters long, holds no forbidden and no control character
    and does not start with a period or a space; it does not end with one
    either unless the stripped text was longer than 200 characters and
    was cut. *)
Theorem sanitize_filename_spec (filename : str) :
  (exists pre post,
      List.filter (fun c => negb (forbidden_char c || control_char c)) filename
      = pre ++ sanitize_stripped filename ++ post
      /\ Forall (fun c => char_in c (lit ". ") = true) pre
      /\ Forall (fun c => char_in c (lit ". ") = true) post
      /\ (forall c, head (sanitize_stripped filename) = Some c ->
                    char_in c (lit ". ") = false)
      /\ (forall c, last (sanitize_stripped filename) = Some c ->
                    char_in c (lit ". ") = false))
  /\ (sanitize_stripped filename = [] ->
      sanitize_filename filename = lit "playlist")
  /\ (sanitize_stripped filename <> [] ->
      sanitize_filename filename = take 200 (sanitize_stripped filename))
  /\ sanitize_filename filename <> []
  /\ length (sanitize_filename filename) <= 200
  /\ (forall c, In c (sanitize_filename filename) ->
                forbidden_char c = false /\ control_char c = false)
  /\ (forall c, head (sanitize_filename filename) = Some c ->
                char_in c (lit ". ") = false)
  /\ (length (sanitize_stripped filename) <= 200 ->
      forall c, last (sanitize_filename filename) = Some c ->
                char_in c (lit ". ") = false).
Proof.
  pose proof (sanitize_stripped_spec filename) as Hspec.
  split; [exact Hspec|].
  destruct Hspec as (pre & post & _ & _ & _ & Hhd & Hlast).
  pose proof (sanitize_stripped_chars filename) as Hchars.
  unfold sanitize_filename.
  destruct (sanitize_stripped filename) as [|c0 t] eqn:E.
  - split; [reflexivity|]. split; [congruence|].
    split; [discriminate|]. split; [vm_compute; lia|].
    split; [|split].
    + intros c Hc. vm_compute in Hc.
      repeat (destruct Hc as [<-|Hc]; [split; reflexivity|]). destruct Hc.
    + intros c [= <-]. reflexivity.
    + intros _ c [= <-]. reflexivity.
  - split; [discriminate|]. split; [reflexivity|].
    split; [discriminate|]. split; [|split; [|split]].
    + rewrite length_take. lia.
    + intros c Hc. apply In_take in Hc. apply Hchars in Hc. tauto.
    + intros c Hc. apply Hhd. exact Hc.
    + intros Hlen c Hc. apply Hlast. now rewrite take_ge in Hc.
Qed.

(** C5, as stated, fails on a name that is cut: the 200 characters kept
    of [long_name] end with a space. *)
Lemma sanitize_filename_trailing_space :
  ~ ((forall c, In c (sanitize_filename long_name) ->
                forbidden_char c = false /\ control_char c = false)
     /\ strip (lit ". ") (sanitize_filename long_name)
        = sanitize_filename long_name
     /\ length (sanitize_filename long_name) <= 200
     /\ (sanitize_filename long_name = lit "playlist"
         <-> sanitize_stripped long_name = [])).
Proof.
  intros (_ & H & _). vm_compute in H. discriminate H.
Qed.


(** ** The webhook relay: chunking *)

Section Chunking.

Variable py_repr : pyval -> str.

Lemma track_line_nonempty i t : 0 < length (track_line py_repr i t).
Proof.
  unfold track_line, nl. rewrite !length_app. simpl. lia.
Qed.

(** The loop keeps whole lines together: started with a buffer that is
    the concatenation of the lines [g0], it flushes messages that are
    concatenations of consecutive groups of lines, in order. *)
Lemma chunk_lines_groups tracks : forall i messages g0,
  exists groups g',
    chunk_lines py_repr i tracks messages (concat g0)
    = (messages ++ map (@concat char) groups, concat g')
    /\ concat groups ++ g' = g0 ++ numbered_lines py_repr i tracks
    /\ (Forall (fun l => length l <= 1800) (numbered_lines py_repr i tracks) ->
        Forall (fun g => 0 < length (concat g)) groups)
    /\ (length (concat g0) <= 1800 ->
        Forall (fun l => length l <= 1800) (numbered_lines py_repr i tracks) ->
        Forall (fun g => length (concat g) <= 1800) groups
        /\ length (concat g') <= 1800)
    /\ (groups = [] -> length (concat g0) <= 1800 -> length (concat g') <= 1800)
    /\ (tracks <> [] -> 0 < length (concat g')).
Proof.
  induction tracks as [|t rest IH]; intros i messages g0.
  - exists [], g0. simpl. rewrite !app_nil_r.
    split; [reflexivity|]. split; [reflexivity|].
    split; [constructor|]. split; [intros; split; [constructor | assumption]|].
    split; [tauto | congruence].
  - simpl.
    destruct (1800 <? length (concat g0) + length (track_line py_repr i t)) eqn:E.
    + apply Nat.ltb_lt in E.
      destruct (IH (S i) (messages ++ [concat g0]) [track_line py_repr i t])
        as (groups & g' & Hrun & Hcat & Hpos & Hsize & _ & Hlast).
      simpl in Hrun. rewrite app_nil_r in Hrun.
      exists (g0 :: groups), g'. split; [|split; [|split; [|split; [|split]]]].
      * etransitivity; [exact Hrun|]. simpl. now rewrite <- app_assoc.
      * simpl. rewrite <- app_assoc, Hcat. reflexivity.
      * intros Hl. inversion Hl as [|? ? Ht Hrest]; subst.
        constructor; [lia | now apply Hpos].
      * intros Hg0 Hl. inversion Hl as [|? ? Ht Hrest]; subst.
        destruct Hsize as [Hgs Hg']; [simpl; rewrite app_nil_r; lia | assumption |].
        split; [constructor; assumption | assumption].
      * discriminate.
      * intros _. destruct rest as [|t' rest'].
        -- simpl in Hrun. injection Hrun as _ <-. apply track_line_nonempty.
        -- apply Hlast. discriminate.
    + apply Nat.ltb_ge in E.
      destruct (IH (S i) messages (g0 ++ [track_line py_repr i t]))
        as (groups & g' & Hrun & Hcat & Hpos & Hsize & Hnone & Hlast).
      assert (Hcc : concat (g0 ++ [track_line py_repr i t])
                    = concat g0 ++ track_line py_repr i t).
      { rewrite concat_app. simpl. now rewrite app_nil_r. }
      rewrite Hcc in *.
      exists groups, g'. split; [|split; [|split; [|split; [|split]]]].
      * exact Hrun.
      * rewrite Hcat, <- app_assoc. reflexivity.
      * intros Hl. inversion Hl; subst. now apply Hpos.
      * intros Hg0 Hl. inversion Hl; subst. apply Hsize; [|assumption].
        rewrite length_app. lia.
      * intros Hg Hg0. apply Hnone; [assumption|]. rewrite length_app. lia.
      * intros _. destruct rest as [|t' rest'].
        -- simpl in Hrun. injection Hrun as _ <-.
           rewrite length_app. pose proof (track_line_nonempty i t). lia.
        -- apply Hlast. discriminate.
Qed.

End Chunking.

(** Whatever the lengths of the lines, the messages after the header are
    groups of whole lines in the original order, so that their
    concatenation is the concatenation of the numbered lines. *)
Lemma discord_messages_reconstruct py_repr playlist tracks :
  exists groups : list (list str),
    discord_messages py_repr playlist tracks
    = discord_header playlist tracks :: map (@concat char) groups
    /\ concat groups = numbered_lines py_repr 1 tracks.
Proof.
  destruct tracks as [|t rest]; [exists []; split; reflexivity|].
  unfold discord_messages.
  destruct (chunk_lines_groups py_repr (t :: rest) 1
              [discord_header playlist (t :: rest)] [])
    as (groups & g' & Hrun & Hcat & _ & _ & _ & Hlast).
  simpl concat in Hrun. simpl app in Hcat. rewrite Hrun.
  specialize (Hlast ltac:(discriminate)).
  destruct (concat g') as [|c m] eqn:Eg; [simpl in Hlast; lia|].
  exists (groups ++ [g']). split.
  - rewrite map_app. simpl. now rewrite Eg.
  - rewrite concat_app. simpl. now rewrite app_nil_r.
Qed.

(** C3, as the code has it: when no single line is longer than 1800
    characters and the lines together are, the messages after the header
    are at least two, each of them is a group of whole consecutive lines,
    is not empty and has at most 1800 characters, and the groups in order
    are the numbered track list. *)
Theorem discord_messages_chunks py_repr playlist tracks :
  Forall (fun l => length l <= 1800) (numbered_lines py_repr 1 tracks) ->
  1800 < length (concat (numbered_lines py_repr 1 tracks)) ->
  exists groups : list (list str),
    discord_messages py_repr playlist tracks
    = discord_header playlist tracks :: map (@concat char) groups
    /\ concat groups = numbered_lines py_repr 1 tracks
    /\ 1 < length groups
    /\ Forall (fun g => 0 < length (concat g) <= 1800) groups.
Proof.
  intros Hlines Htotal. unfold discord_messages.
  destruct (chunk_lines_groups py_repr tracks 1 [discord_header playlist tracks] [])
    as (groups & g' & Hrun & Hcat & Hpos & Hsize & Hnone & Hlast).
  simpl in Hrun, Hcat, Hsize, Hnone. rewrite Hrun.
  assert (Htracks : tracks <> []).
  { intros ->. simpl in Htotal. lia. }
  specialize (Hlast Htracks). specialize (Hpos Hlines).
  destruct (Hsize ltac:(lia) Hlines) as [Hgs Hg'].
  destruct (concat g') as [|c m] eqn:Eg; [simpl in Hlast; lia|].
  exists (groups ++ [g']). split; [|split; [|split]].
  - rewrite map_app. simpl. now rewrite Eg.
  - rewrite concat_app. simpl. now rewrite app_nil_r.
  - rewrite length_app. simpl. destruct groups as [|g groups]; [|simpl; lia].
    exfalso. simpl in Hcat. subst g'. specialize (Hnone eq_refl ltac:(lia)).
    rewrite Eg in Htotal. lia.
  - apply Forall_app. split.
    + rewrite List.Forall_forall in *. intros g Hg.
      specialize (Hpos g Hg). specialize (Hgs g Hg). simpl in *. lia.
    + constructor; [|constructor]. rewrite Eg. lia.
Qed.

(** C3, as stated, fails when one line alone is over the budget: the
    line of [long_track] has 1812 characters and is posted as one
    message, after an empty one. *)
Lemma discord_messages_long_line :
  ~ (1800 < length (concat (numbered_lines repr_unused 1 [long_track])) ->
     1 < length (discord_messages repr_unused road_trip [long_track])
     /\ Forall (fun m => length m <= 1800)
          (discord_messages repr_unused road_trip [long_track])
     /\ concat (tail (discord_messages repr_unused road_trip [long_track]))
        = concat (numbered_lines repr_unused 1 [long_track])).
Proof.
  intros H. destruct H as (_ & Hall & _); [vm_compute; lia|].
  rewrite Forall_lookup in Hall.
  specialize (Hall 2 (track_line repr_unused 1 long_track) eq_refl).
  vm_compute in Hall. lia.
Qed.

Example discord_messages_long_track :
  discord_messages repr_unused road_trip [long_track]
  = [discord_header road_trip [long_track]; [];
     track_line repr_unused 1 long_track]
  /\ length (track_line repr_unused 1 long_track) = 1812.
Proof. split; vm_compute; reflexivity. Qed.

(** ** Normalization of one record *)

Section Normalization.

Variable py_repr : pyval -> str.

Local Opaque lit.

Lemma bind_ok {A B} (m : M A) (k : A -> M B) s a s' :
  m s = (Ok a, s') -> bind m k s = k a s'.
Proof. unfold bind. now intros ->. Qed.

Lemma bind_raise {A B} (m : M A) (k : A -> M B) s e s' :
  m s = (Raise e, s') -> bind m k s = (Raise e, s').
Proof. unfold bind. now intros ->. Qed.

Lemma bind_assoc {A B C} (m : M A) (k1 : A -> M B) (k2 : B -> M C) s :
  bind (bind m k1) k2 s = bind m (fun x => bind (k1 x) k2) s.
Proof. unfold bind. destruct (m s) as [[a|e] s']; reflexivity. Qed.

Lemma comprehension_artists l :
  forallb (dict_with_string (lit "name")) l = true ->
  comprehension (fun artist => py_get artist (lit "name") (PStr (lit "Unknown Artist"))) l
  = Ok (map (fun a => PStr (artist_name a)) l).
Proof.
  induction l as [|a l IH]; simpl; [reflexivity|].
  intros H. apply andb_true_iff in H. destruct H as [Ha Hl].
  rewrite (IH Hl). destruct a as [| | | | |da]; try discriminate Ha.
  simpl in *. unfold field.
  destruct (dict_get (lit "name") da) as [[]|]; try discriminate Ha; reflexivity.
Qed.

Lemma join_from_cons i sep s v l :
  join_from i sep (PStr s :: v :: l)
  = match join_from (S i) sep (v :: l) with
    | Ok r => Ok (s ++ sep ++ r)
    | Raise e => Raise e
    end.
Proof. reflexivity. Qed.

Lemma join_from_strings sep names : forall i,
  join_from i sep (map PStr names) = Ok (str_join sep names).
Proof.
  induction names as [|n names IH]; intros i; [reflexivity|].
  destruct names as [|n' names]; [reflexivity|].
  change (map PStr (n :: n' :: names))
    with (PStr n :: PStr n' :: map PStr names).
  rewrite join_from_cons.
  change (PStr n' :: map PStr names) with (map PStr (n' :: names)).
  now rewrite IH.
Qed.

Lemma artists_stage d s :
  missing_or (fun v => match v with
                       | PList l => forallb (dict_with_string (lit "name")) l
                       | _ => false
                       end) (dict_get (lit "artists") d) = true ->
  (if truthy (field (lit "artists") (PList []) d) then
     l <- lift (py_iter (field (lit "artists") (PList []) d)) ;;
     names <- lift (comprehension
                (fun artist => py_get artist (lit "name") (PStr (lit "Unknown Artist")))
                l) ;;
     lift (py_join (lit ", ") names)
   else ret (lit "Unknown Artist")) s
  = (Ok (artist (documented_track d)), s).
Proof.
  unfold field, documented_track. simpl artist.
  destruct (dict_get (lit "artists") d) as [[| | | | l |]|]; try discriminate; simpl.
  - destruct l as [|a l]; [reflexivity|]. intros Hl.
    erewrite bind_ok by reflexivity.
    erewrite bind_ok by (unfold lift; rewrite (comprehension_artists _ Hl); reflexivity).
    unfold lift, py_join. rewrite <- map_map, join_from_strings. reflexivity.
  - reflexivity.
Qed.

Lemma album_stage d s :
  missing_or (dict_with_string (lit "name")) (dict_get (lit "album") d) = true ->
  (if truthy (field (lit "album") (PDict []) d) then
     lift (py_get (field (lit "album") (PDict []) d) (lit "name")
             (PStr (lit "Unknown Album")))
   else ret (PStr (lit "Unknown Album"))) s
  = (Ok (album (documented_track d)), s).
Proof.
  unfold field, documented_track. simpl album.
  destruct (dict_get (lit "album") d) as [[| | | | |a]|]; try discriminate; simpl.
  - intros _. destruct a as [|kv a]; [|reflexivity]. reflexivity.
  - reflexivity.
Qed.

Lemma url_stage lvl d s :
  missing_or (dict_with_string (lit "spotify"))
    (dict_get (lit "external_urls") d) = true ->
  missing_or is_string (dict_get (lit "id") d) = true ->
  exists s',
    (has_url <-
       (if truthy (field (lit "external_urls") (PDict []) d)
        then lift (py_contains (lit "spotify") (field (lit "external_urls") (PDict []) d))
        else ret false) ;;
     (if has_url
      then lift (py_getitem (field (lit "external_urls") (PDict []) d) (lit "spotify"))
      else
        track_id <- lift (py_get (PDict d) (lit "id") (PStr [])) ;;
        if truthy track_id then
          ret (PStr (lit "https://open.spotify.com/track/" ++ py_str py_repr track_id))
        else
          logger lvl (No_Spotify_URL_found_for_track (field (lit "name") (PStr (lit "Unknown Track")) d)) ;;;
          ret (PStr (lit "https://open.spotify.com")))) s
    = (Ok (url (documented_track d)), s')
    /\ (s' = s
        \/ url (documented_track d) = PStr (lit "https://open.spotify.com")
           /\ s' = snd (logger lvl (No_Spotify_URL_found_for_track
                          (name (documented_track d))) s)).
Proof.
  intros Hurls Hid.
  assert (Hno : exists s',
    (track_id <- lift (py_get (PDict d) (lit "id") (PStr [])) ;;
        if truthy track_id then
          ret (PStr (lit "https://open.spotify.com/track/" ++ py_str py_repr track_id))
        else
          logger lvl (No_Spotify_URL_found_for_track (field (lit "name") (PStr (lit "Unknown Track")) d)) ;;;
          ret (PStr (lit "https://open.spotify.com"))) s
    = (Ok match dict_get (lit "id") d with
          | Some (PStr (c :: i)) =>
              PStr (lit "https://open.spotify.com/track/" ++ c :: i)
          | _ => PStr (lit "https://open.spotify.com")
          end, s')
    /\ (s' = s
        \/ match dict_get (lit "id") d with
           | Some (PStr (c :: i)) =>
              PStr (lit "https://open.spotify.com/track/" ++ c :: i)
           | _ => PStr (lit "https://open.spotify.com")
           end = PStr (lit "https://open.spotify.com")
           /\ s' = snd (logger lvl (No_Spotify_URL_found_for_track
                          (name (documented_track d))) s))).
  { unfold py_get, field.
    destruct (dict_get (lit "id") d) as [[| | |i| |]|]; try discriminate.
    - destruct i as [|c i]; eexists; (split; [reflexivity|]); auto.
    - eexists; (split; [reflexivity|]); auto. }
  unfold field in *. unfold documented_track. simpl url.
  destruct (dict_get (lit "external_urls") d) as [[| | | | |u]|];
    try discriminate; simpl in Hurls |- *.
  - destruct u as [|kv u].
    + exact Hno.
    + cbn [truthy]. erewrite bind_ok by reflexivity.
      unfold dict_with_string in Hurls.
      cbn [py_contains py_getitem].
      destruct (dict_get (lit "spotify") (kv :: u)) as [v|].
      * exists s. split; [reflexivity | now left].
      * exact Hno.
  - exact Hno.
Qed.

Lemma normalize_documented lvl d tracks s :
  well_formed_record d = true ->
  exists s',
    normalize py_repr lvl (PDict d) tracks s
    = (Ok (tracks ++ [documented_track d]), s')
    /\ (s' = s
        \/ url (documented_track d) = PStr (lit "https://open.spotify.com")
           /\ s' = snd (logger lvl (No_Spotify_URL_found_for_track
                          (name (documented_track d))) s)).
Proof.
  unfold well_formed_record. rewrite !andb_true_iff.
  intros (((((Hname & Hartists) & Halbum) & Hdur) & Hurls) & Hid).
  destruct (url_stage lvl d s Hurls Hid) as (s' & Hurl & Hs').
  exists s'. split; [|exact Hs'].
  unfold normalize.
  erewrite bind_ok by reflexivity.
  erewrite bind_ok by reflexivity.
  erewrite bind_ok by (apply artists_stage; assumption).
  erewrite bind_ok by reflexivity.
  erewrite bind_ok by (apply album_stage; assumption).
  erewrite bind_ok by reflexivity.
  erewrite bind_ok by reflexivity.
  rewrite <- bind_assoc.
  erewrite bind_ok by exact Hurl.
  reflexivity.
Qed.

(** The body of the [try] appends one Track or raises. *)
Lemma normalize_result lvl track tracks s :
  (exists t s', normalize py_repr lvl track tracks s = (Ok (tracks ++ [t]), s'))
  \/ (exists e s', normalize py_repr lvl track tracks s = (Raise e, s')).
Proof.
  unfold normalize.
  repeat match goal with
         | |- context [bind ?m ?k ?s0] =>
             let E := fresh "E" in
             destruct (m s0) as [[?|?] ?] eqn:E;
             [ rewrite (bind_ok m k s0 _ _ E)
             | rewrite (bind_raise m k s0 _ _ E); right; eauto ]
         end.
  left. unfold ret. eauto.
Qed.

Lemma app_singleton_neq {A} (l : list A) (x : A) : l ++ [x] <> l.
Proof.
  intros H. apply (f_equal (@length A)) in H. rewrite length_app in H.
  simpl in H. lia.
Qed.

Lemma well_formed_populated d :
  well_formed_record d = true -> populated (documented_track d) = true.
Proof.
  unfold well_formed_record, populated, documented_track, field.
  rewrite !andb_true_iff.
  intros (((((Hname & _) & Halbum) & Hdur) & Hurls) & Hid). simpl.
  repeat split.
  - destruct (dict_get (lit "name") d) as [[]|]; trivial.
  - destruct (dict_get (lit "album") d) as [[| | | | |a]|]; trivial.
    simpl in Halbum. destruct (dict_get (lit "name") a) as [[]|]; trivial.
  - destruct (dict_get (lit "duration_ms") d) as [[]|]; trivial.
  - destruct (dict_get (lit "id") d) as [[| | |[|c i]| |]|];
      destruct (dict_get (lit "external_urls") d) as [[| | | | |u]|]; trivial;
      simpl in Hurls; destruct (dict_get (lit "spotify") u) as [[]|]; trivial.
Qed.

(** C2, as the code has it: for a record that is a non-empty mapping in
    which each of the six fields is missing or well-formed, processing
    the item does not raise and appends exactly one Track, the documented
    one, whose name, album and url are strings and whose duration is an
    integer.  The url is the external spotify URL if the record has one,
    else the canonical URL of a non-empty id, else the service root, and
    only in this last case a record is logged. *)
Theorem process_item_defaults fields d tracks s :
  dict_get (lit "track") fields = Some (PDict d) ->
  d <> [] ->
  well_formed_record d = true ->
  exists s',
    process_item py_repr (PDict fields) tracks s
    = (Ok (tracks ++ [documented_track d]), s')
    /\ populated (documented_track d) = true
    /\ (s' = s
        \/ url (documented_track d) = PStr (lit "https://open.spotify.com")
           /\ s' = snd (logger WARNING (No_Spotify_URL_found_for_track
                          (name (documented_track d))) s)).
Proof.
  intros Htrack Hd Hwf.
  destruct (normalize_documented WARNING d tracks s Hwf) as (s' & Hn & Hs').
  exists s'. split; [|split; [now apply well_formed_populated | exact Hs']].
  unfold process_item, py_get, field. rewrite Htrack.
  erewrite bind_ok by reflexivity.
  destruct d as [|kv d]; [congruence|]. cbn [truthy negb].
  unfold try_except. now rewrite Hn.
Qed.

(** C9, as the code has it: processing an item that is a mapping does
    not raise and leaves [tracks] as it was or appends exactly one Track;
    it appends none exactly when the track record of the item is missing,
    null or empty (or another false value), or reading the record raises.
    A well-formed record without id and without external URLs is not
    skipped: its Track has the service root as url. *)
Theorem process_item_track_or_skip fields tracks s :
  exists tracks' s',
    process_item py_repr (PDict fields) tracks s = (Ok tracks', s')
    /\ (tracks' = tracks \/ exists t, tracks' = tracks ++ [t])
    /\ (tracks' = tracks <->
        truthy (field (lit "track") PNone fields) = false
        \/ exists e s1,
             normalize py_repr WARNING (field (lit "track") PNone fields) tracks s
             = (Raise e, s1))
    /\ (forall d,
          dict_get (lit "track") fields = Some (PDict d) ->
          d <> [] -> well_formed_record d = true ->
          dict_get (lit "id") d = None ->
          dict_get (lit "external_urls") d = None ->
          exists t, tracks' = tracks ++ [t]
                    /\ url t = PStr (lit "https://open.spotify.com")).
Proof.
  unfold process_item. cbn [py_get]. erewrite bind_ok by reflexivity.
  destruct (truthy (field (lit "track") PNone fields)) eqn:Etruthy; cbn [negb].
  - unfold try_except.
    destruct (normalize_result WARNING (field (lit "track") PNone fields) tracks s)
      as [(t & s' & Hn) | (e & s' & Hn)].
    + rewrite Hn. exists (tracks ++ [t]), s'.
      split; [reflexivity|]. split; [right; eauto|]. split.
      * split.
        -- intros H. now apply app_singleton_neq in H.
        -- intros [H | (e & s1 & H)]; congruence.
      * intros d Htrack Hd Hwf Hid Hurls. exists t. split; [reflexivity|].
        unfold field in Hn. rewrite Htrack in Hn.
        destruct (normalize_documented WARNING d tracks s Hwf) as (s2 & Hn2 & _).
        rewrite Hn2 in Hn. injection Hn as Ht _.
        apply app_inj_tail in Ht. destruct Ht as [_ <-].
        unfold documented_track. simpl. now rewrite Hurls, Hid.
    + rewrite Hn.
      assert (Hh : exists s'',
        (if is_KeyError e
         then logger WARNING (Missing_key_for_track e) ;;; ret tracks
         else logger WARNING (Failed_to_process_track e) ;;; ret tracks) s'
        = (Ok tracks, s'')).
      { destruct (is_KeyError e); eexists; reflexivity. }
      destruct Hh as (s'' & Hh). rewrite Hh. exists tracks, s''.
      split; [reflexivity|]. split; [now left|]. split.
      * split; [intros _; right; eauto | reflexivity].
      * intros d Htrack Hd Hwf _ _. exfalso.
        unfold field in Hn. rewrite Htrack in Hn.
        destruct (normalize_documented WARNING d tracks s Hwf) as (s2 & Hn2 & _).
        congruence.
  - eexists tracks, _. split; [reflexivity|]. split; [now left|]. split.
    + split; [intros _; now left | reflexivity].
    + intros d Htrack Hd _ _ _. exfalso. unfold field in Etruthy.
      rewrite Htrack in Etruthy. destruct d; [congruence | discriminate].
Qed.

Lemma bind_inv {A B} (m : M A) (k : A -> M B) s b s' :
  bind m k s = (Ok b, s') ->
  exists a s1, m s = (Ok a, s1) /\ k a s1 = (Ok b, s').
Proof.
  unfold bind. destruct (m s) as [[a|e] s1]; [eauto | discriminate].
Qed.

Lemma lift_inv {A} (r : result A) s a s1 :
  lift r s = (Ok a, s1) -> r = Ok a /\ s1 = s.
Proof. unfold lift. now intros [= -> ->]. Qed.

Lemma keys_unique_dict_get key d v :
  keys_unique (PDict d) = true -> dict_get key d = Some v ->
  keys_unique v = true.
Proof.
  cbn [keys_unique]. intros H. apply andb_true_iff in H. destruct H as [_ H].
  induction d as [|[k x] d IH]; [discriminate|].
  cbn [forallb] in H. apply andb_true_iff in H. destruct H as [Hx Hd].
  cbn [dict_get]. destruct (bool_decide (k = key)); [now intros [= <-] | now apply IH].
Qed.

Lemma keys_unique_py_get o key default v :
  keys_unique o = true -> keys_unique default = true ->
  py_get o key default = Ok v -> keys_unique v = true.
Proof.
  destruct o; try discriminate. intros Ho Hd [= <-]. unfold field.
  destruct (dict_get key d) eqn:E; [now apply (keys_unique_dict_get key d) | exact Hd].
Qed.

Lemma keys_unique_py_getitem o key v :
  keys_unique o = true -> py_getitem o key = Ok v -> keys_unique v = true.
Proof.
  destruct o; try discriminate. intros Ho. cbn [py_getitem].
  destruct (dict_get key d) eqn:E; [|discriminate].
  intros [= <-]. now apply (keys_unique_dict_get key d).
Qed.

Lemma normalize_keys_unique lvl track tracks s tracks' s' :
  keys_unique track = true ->
  forallb track_keys_unique tracks = true ->
  normalize py_repr lvl track tracks s = (Ok tracks', s') ->
  forallb track_keys_unique tracks' = true.
Proof.
  intros Hk Ht Hn. unfold normalize in Hn.
  apply bind_inv in Hn. destruct Hn as (track_name & s1 & H1 & Hn).
  apply lift_inv in H1. destruct H1 as [H1 ->].
  apply bind_inv in Hn. destruct Hn as (artists & s1 & H2 & Hn).
  apply lift_inv in H2. destruct H2 as [H2 ->].
  apply bind_inv in Hn. destruct Hn as (artist_names & s1 & _ & Hn).
  apply bind_inv in Hn. destruct Hn as (album_obj & s2 & H4 & Hn).
  apply lift_inv in H4. destruct H4 as [H4 ->].
  apply bind_inv in Hn. destruct Hn as (album_name & s2 & H5 & Hn).
  apply bind_inv in Hn. destruct Hn as (duration & s3 & H6 & Hn).
  apply lift_inv in H6. destruct H6 as [H6 ->].
  apply bind_inv in Hn. destruct Hn as (external_urls & s3 & H7 & Hn).
  apply lift_inv in H7. destruct H7 as [H7 ->].
  apply bind_inv in Hn. destruct Hn as (has_url & s3 & _ & Hn).
  apply bind_inv in Hn. destruct Hn as (track_url & s4 & H9 & Hn).
  injection Hn as <- _.
  rewrite forallb_app, Ht. cbn [forallb]. rewrite andb_true_r.
  unfold track_keys_unique. cbn [name album duration_ms url].
  assert (Hname : keys_unique track_name = true)
    by (eapply keys_unique_py_get; [| | exact H1]; [exact Hk | reflexivity]).
  assert (Halbum : keys_unique album_obj = true)
    by (eapply keys_unique_py_get; [| | exact H4]; [exact Hk | reflexivity]).
  assert (Hdur : keys_unique duration = true)
    by (eapply keys_unique_py_get; [| | exact H6]; [exact Hk | reflexivity]).
  assert (Hurls : keys_unique external_urls = true)
    by (eapply keys_unique_py_get; [| | exact H7]; [exact Hk | reflexivity]).
  assert (Han : keys_unique album_name = true).
  { destruct (truthy album_obj).
    - apply lift_inv in H5. destruct H5 as [H5 _].
      eapply keys_unique_py_get; [| | exact H5]; [exact Halbum | reflexivity].
    - injection H5 as <- _. reflexivity. }
  assert (Hurl : keys_unique track_url = true).
  { destruct has_url.
    - apply lift_inv in H9. destruct H9 as [H9 _].
      eapply keys_unique_py_getitem; [exact Hurls | exact H9].
    - apply bind_inv in H9. destruct H9 as (track_id & s5 & _ & H9).
      destruct (truthy track_id); [injection H9 as <- _; reflexivity|].
      apply bind_inv in H9. destruct H9 as (u & s6 & _ & H9).
      injection H9 as <- _. reflexivity. }
  now rewrite Hname, Han, Hdur, Hurl.
Qed.
(** The Tracks that processing an item adds to Tracks made of Python
    values are made of Python values. *)
Lemma process_item_keys_unique item tracks s tracks' s' :
  keys_unique item = true ->
  forallb track_keys_unique tracks = true ->
  process_item py_repr item tracks s = (Ok tracks', s') ->
  forallb track_keys_unique tracks' = true.
Proof.
  intros Hk Ht Hp. unfold process_item in Hp.
  apply bind_inv in Hp. destruct Hp as (track & s1 & H1 & Hp).
  apply lift_inv in H1. destruct H1 as [H1 ->].
  assert (Htrack : keys_unique track = true)
    by (eapply keys_unique_py_get; [| | exact H1]; [exact Hk | reflexivity]).
  destruct (truthy track); cbn [negb] in Hp.
  - unfold try_except in Hp.
    destruct (normalize py_repr WARNING track tracks s) as [[t1|e] s1] eqn:En.
    + injection Hp as <- _. eapply normalize_keys_unique; eassumption.
    + destruct (is_KeyError e); injection Hp as <- _; exact Ht.
  - injection Hp as <- _. exact Ht.
Qed.

End Normalization.

(** ** What the loops change *)

Section Frames.

Variable py_repr : pyval -> str.

Section Combinators.

Context (R : state -> state -> Prop) `{!PreOrder R}.

Lemma preserves_ret {A} (a : A) : preserves R (ret a).
Proof. intros s r s' [= _ <-]. reflexivity. Qed.

Lemma preserves_raise {A} (e : exn) : preserves R (@raise A e).
Proof. intros s r s' [= _ <-]. reflexivity. Qed.

Lemma preserves_lift {A} (x : result A) : preserves R (lift x).
Proof. intros s r s' [= _ <-]. reflexivity. Qed.

Lemma preserves_bind {A B} (m : M A) (k : A -> M B) :
  preserves R m -> (forall a, preserves R (k a)) -> preserves R (bind m k).
Proof.
  intros Hm Hk s r s'. unfold bind.
  destruct (m s) as [[a|e] s1] eqn:E; intros H.
  - transitivity s1; [eapply Hm; eassumption | eapply Hk; eassumption].
  - injection H as _ <-. eapply Hm; eassumption.
Qed.

Lemma preserves_try_except {A} (m : M A) (h : exn -> M A) :
  preserves R m -> (forall e, preserves R (h e)) -> preserves R (try_except m h).
Proof.
  intros Hm Hh s r s'. unfold try_except.
  destruct (m s) as [[a|e] s1] eqn:E; intros H.
  - injection H as _ <-. eapply Hm; eassumption.
  - transitivity s1; [eapply Hm; eassumption | eapply Hh; eassumption].
Qed.

Lemma preserves_returns {A} (m : M A) : preserves R m -> returns R m.
Proof. intros Hm s a s' H. eapply Hm, H. Qed.

Lemma returns_bind {A B} (m : M A) (k : A -> M B) :
  returns R m -> (forall a, returns R (k a)) -> returns R (bind m k).
Proof.
  intros Hm Hk s b s'. unfold bind.
  destruct (m s) as [[a|e] s1] eqn:E; intros H.
  - transitivity s1; [eapply Hm; eassumption | eapply Hk; eassumption].
  - discriminate H.
Qed.

End Combinators.

Lemma preserves_weaken {A} (R R' : state -> state -> Prop) (m : M A) :
  (forall s s', R s s' -> R' s s') -> preserves R m -> preserves R' m.
Proof. intros HR Hm s r s' H. eapply HR, Hm, H. Qed.

Global Instance same_outputs_preorder : PreOrder same_outputs.
Proof.
  split.
  - intros s. repeat split.
  - intros s1 s2 s3 (? & ? & ? & ?) (? & ? & ? & ?). repeat split; congruence.
Qed.

Global Instance same_files_preorder : PreOrder same_files.
Proof.
  split.
  - intros s. repeat split.
  - intros s1 s2 s3 (? & ? & ?) (? & ? & ?). repeat split; congruence.
Qed.

Lemma same_outputs_files s s' : same_outputs s s' -> same_files s s'.
Proof. intros (? & ? & ? & ?). repeat split; assumption. Qed.

Lemma preserves_logger l m : preserves same_outputs (logger l m).
Proof. intros s r s' [= _ <-]. repeat split. Qed.

Lemma preserves_is_cancelled w : preserves same_outputs (is_cancelled w).
Proof. intros s r s' [= _ <-]. repeat split. Qed.

Lemma preserves_datetime_now w : preserves same_outputs (datetime_now w).
Proof. intros s r s' [= _ <-]. repeat split. Qed.

Lemma preserves_requests_post w msg : preserves same_files (requests_post w msg).
Proof. intros s r s' [= _ <-]. repeat split. Qed.

Ltac frame :=
  repeat first
    [ apply preserves_ret | apply preserves_raise | apply preserves_lift
    | apply preserves_logger | apply preserves_is_cancelled
    | apply preserves_datetime_now
    | apply preserves_bind; [typeclasses eauto | | intros ?]
    | apply preserves_try_except; [typeclasses eauto | | intros ?]
    | match goal with
      | |- preserves _ (if ?b then _ else _) => destruct b
      | |- preserves _ (match ?x with _ => _ end) => destruct x
      end ]; try typeclasses eauto.

Lemma preserves_normalize lvl track tracks :
  preserves same_outputs (normalize py_repr lvl track tracks).
Proof. unfold normalize. frame. Qed.

Lemma preserves_process_item item tracks :
  preserves same_outputs (process_item py_repr item tracks).
Proof. unfold process_item. frame. Qed.

Lemma preserves_for_items w items : forall tracks,
  preserves same_outputs (for_items py_repr w items tracks).
Proof.
  induction items as [|item rest IH]; intros tracks; simpl.
  - apply preserves_ret; typeclasses eauto.
  - apply preserves_bind; [typeclasses eauto | apply preserves_is_cancelled |].
    intros [|]; [apply preserves_ret; typeclasses eauto|].
    apply preserves_bind;
      [typeclasses eauto | apply preserves_process_item | intros; apply IH].
Qed.

Lemma fetch_induction (P : fetch -> Prop) :
  (forall e, P (Fetch_raises e)) ->
  P Fetch_none ->
  (forall items, P (Fetch_page items None)) ->
  (forall items f, P f -> P (Fetch_page items (Some f))) ->
  forall f, P f.
Proof.
  intros Hr H0 Hn Hs. fix IH 1.
  intros [e | | items [f|]]; [apply Hr | exact H0 | apply Hs, IH | apply Hn].
Qed.

Lemma preserves_walk_pages w results : forall tracks,
  preserves same_outputs (walk_pages py_repr w results tracks).
Proof.
  induction results as [e | | items | items f IH] using fetch_induction;
    intros tracks; simpl.
  - apply preserves_raise; typeclasses eauto.
  - apply preserves_ret; typeclasses eauto.
  - apply preserves_bind; [typeclasses eauto | apply preserves_for_items |].
    intros [[|] ?]; apply preserves_ret; typeclasses eauto.
  - apply preserves_bind; [typeclasses eauto | apply preserves_for_items |].
    intros [[|] ?]; [apply preserves_ret; typeclasses eauto | apply IH].
Qed.

(** The Tracks of a listing whose items are Python values are made of
    Python values: this is all [json_document_roundtrip] asks of them. *)
Lemma for_items_keys_unique w items : forall tracks s r s',
  forallb keys_unique items = true ->
  forallb track_keys_unique tracks = true ->
  for_items py_repr w items tracks s = (Ok r, s') ->
  forallb track_keys_unique (snd r) = true.
Proof.
  induction items as [|item rest IH]; intros tracks s r s' Hk Ht Hf.
  - injection Hf as <- _. exact Ht.
  - cbn [forallb] in Hk. apply andb_true_iff in Hk. destruct Hk as [Hi Hr].
    cbn [for_items] in Hf.
    apply bind_inv in Hf. destruct Hf as (c & s1 & _ & Hf).
    destruct c; [injection Hf as <- _; exact Ht|].
    apply bind_inv in Hf. destruct Hf as (tracks1 & s2 & Hp & Hf).
    eapply IH; [exact Hr | | exact Hf].
    eapply process_item_keys_unique; eassumption.
Qed.

Lemma walk_pages_keys_unique w results : forall tracks s tracks' s',
  forallb keys_unique (pages_items results) = true ->
  forallb track_keys_unique tracks = true ->
  walk_pages py_repr w results tracks s = (Ok tracks', s') ->
  forallb track_keys_unique tracks' = true.
Proof.
  induction results as [e | | items | items f IH] using fetch_induction;
    intros tracks s tracks' s' Hk Ht Hw; cbn [walk_pages] in Hw.
  - discriminate Hw.
  - injection Hw as <- _. exact Ht.
  - apply bind_inv in Hw. destruct Hw as (r & s1 & Hf & Hw).
    pose proof (for_items_keys_unique w items _ _ _ _ Hk Ht Hf) as Hr.
    destruct (fst r); injection Hw as <- _; exact Hr.
  - cbn [pages_items] in Hk. rewrite forallb_app in Hk.
    apply andb_true_iff in Hk. destruct Hk as [Hi Hrest].
    apply bind_inv in Hw. destruct Hw as (r & s1 & Hf & Hw).
    pose proof (for_items_keys_unique w items _ _ _ _ Hi Ht Hf) as Hr.
    destruct (fst r); [injection Hw as <- _; exact Hr|].
    eapply IH; eassumption.
Qed.

Lemma get_playlist_tracks_keys_unique w self playlist_id s tracks s' :
  forallb keys_unique (pages_items (sp self playlist_id)) = true ->
  get_playlist_tracks py_repr w self playlist_id s = (Ok tracks, s') ->
  forallb track_keys_unique tracks = true.
Proof.
  intros Hk Hg.
  apply (walk_pages_keys_unique w (sp self playlist_id) [] s tracks s' Hk eq_refl Hg).
Qed.

Lemma preserves_get_playlist_tracks w self playlist_id :
  preserves same_outputs (get_playlist_tracks py_repr w self playlist_id).
Proof. apply preserves_walk_pages. Qed.

Lemma preserves_send_messages w messages :
  preserves same_files (send_messages w messages).
Proof.
  induction messages as [|msg rest IH]; simpl.
  - apply preserves_ret; typeclasses eauto.
  - apply preserves_bind; [typeclasses eauto | | intros c].
    + eapply preserves_weaken; [apply same_outputs_files | apply preserves_is_cancelled].
    + destruct c; [apply preserves_ret; typeclasses eauto|].
      apply preserves_bind; [typeclasses eauto | apply preserves_requests_post |].
      intros status. destruct (negb _); [apply preserves_raise; typeclasses eauto | apply IH].
Qed.

Lemma preserves_export_to_discord w self playlist tracks :
  preserves same_files (export_to_discord py_repr w self playlist tracks).
Proof.
  unfold export_to_discord. destruct (webhook_url self).
  - apply preserves_raise; typeclasses eauto.
  - apply preserves_bind; [typeclasses eauto | apply preserves_send_messages |].
    intros [|]; [apply preserves_ret; typeclasses eauto|].
    eapply preserves_weaken; [apply same_outputs_files | apply preserves_logger].
Qed.


Global Instance loop_step_preorder self : PreOrder (loop_step self).
Proof.
  split.
  - intros s. split; [|split]; [exists []; split; [now rewrite app_nil_r | reflexivity] | tauto | tauto].
  - intros s1 s2 s3 ((g1 & E1 & P1) & L1 & D1) ((g2 & E2 & P2) & L2 & D2).
    split; [|split].
    + exists (g1 ++ g2). split; [rewrite E2, E1; now rewrite app_assoc|].
      rewrite forallb_app, P1, P2. reflexivity.
    + tauto.
    + intros Hd. destruct (D1 Hd), (D2 Hd). split; congruence.
Qed.

Global Instance keeps_listed_preorder : PreOrder keeps_listed.
Proof. split; unfold keeps_listed; [intros s | intros s1 s2 s3]; tauto. Qed.

Lemma same_files_loop_step self s s' : same_files s s' -> loop_step self s s'.
Proof.
  intros (Hx & Hs & Hf). split; [|split].
  - exists []. split; [now rewrite app_nil_r | reflexivity].
  - unfold files_on_disk. now rewrite Hx, Hf.
  - tauto.
Qed.

Lemma same_files_keeps_listed s s' : same_files s s' -> keeps_listed s s'.
Proof. intros (Hx & Hs & Hf). unfold keeps_listed, files_listed. now rewrite Hx, Hf. Qed.

Lemma same_outputs_keeps_listed s s' : same_outputs s s' -> keeps_listed s s'.
Proof. intros H. now apply same_files_keeps_listed, same_outputs_files. Qed.

Lemma same_outputs_loop_step self s s' : same_outputs s s' -> loop_step self s s'.
Proof. intros H. now apply same_files_loop_step, same_outputs_files. Qed.

(** A file of a file format is written and listed in one step. *)
Lemma written_and_listed self s s' file c :
  export_format self <> DISCORD ->
  signals s' = signals s ->
  exported_files s' = exported_files s ++ [file] ->
  files s' = <[file := c]> (files s) ->
  loop_step self s s'.
Proof.
  intros Hfmt Hs Hx Hf. split; [|split].
  - exists []. split; [now rewrite app_nil_r | reflexivity].
  - unfold files_on_disk. intros Hl f. rewrite Hx, Hf, elem_of_app.
    rewrite list_elem_of_singleton. destruct (decide (f = file)) as [->|Hne].
    + rewrite lookup_insert_eq. eauto.
    + rewrite lookup_insert_ne by congruence. intros [?|?]; [now apply Hl | congruence].
  - congruence.
Qed.

Lemma written_keeps_listed s s' file c :
  exported_files s' = exported_files s ++ [file] ->
  files s' = <[file := c]> (files s) ->
  keeps_listed s s'.
Proof.
  intros Hx Hf. unfold keeps_listed, files_listed.
  intros Hl f. rewrite Hx, Hf, elem_of_app, Hl.
  rewrite list_elem_of_singleton. destruct (decide (f = file)) as [->|Hne].
  - rewrite lookup_insert_eq. split; [eauto | now right].
  - rewrite lookup_insert_ne by congruence.
    split; [intros [?|?]; [assumption | congruence] | now left].
Qed.

(** A write that raises leaves a file that is not listed. *)
Lemma written_unlisted self s s' file c :
  export_format self <> DISCORD ->
  signals s' = signals s ->
  exported_files s' = exported_files s ->
  files s' = <[file := c]> (files s) ->
  loop_step self s s'.
Proof.
  intros Hfmt Hs Hx Hf. split; [|split].
  - exists []. split; [now rewrite app_nil_r | reflexivity].
  - unfold files_on_disk. intros Hl f. rewrite Hx, Hf. intros Hin.
    destruct (decide (f = file)) as [->|Hne].
    + rewrite lookup_insert_eq. eauto.
    + rewrite lookup_insert_ne by congruence. now apply Hl.
  - congruence.
Qed.

(** The ends of the export of one playlist to a file: [open] raises, a
    write raises, or the file is written and listed. *)
Ltac file_export :=
  simpl;
  destruct (open_fails _ _);
    [ intros [= _ <-]; apply same_outputs_loop_step; repeat split |];
  repeat
    (destruct (write_fails _ _ _);
       [ intros [= _ <-]; eapply written_unlisted; simpl;
         rewrite ?insert_insert_eq; try reflexivity; congruence |];
     destruct (encodable _);
       [| intros [= _ <-]; eapply written_unlisted; simpl;
          rewrite ?insert_insert_eq; try reflexivity; congruence ]);
  intros [= _ <-]; eapply written_and_listed; simpl;
  rewrite ?insert_insert_eq; try reflexivity; congruence.

Ltac file_export_returns :=
  simpl;
  destruct (open_fails _ _); [ intros [= ] |];
  repeat
    (destruct (write_fails _ _ _); [ intros [= ] |];
     destruct (encodable _); [| intros [= ] ]);
  intros [= _ <-]; eapply written_keeps_listed; simpl;
  rewrite ?insert_insert_eq; reflexivity.

Lemma preserves_export_playlist w self total i playlist :
  preserves (loop_step self) (export_playlist py_repr w self total i playlist).
Proof.
  unfold export_playlist.
  apply preserves_bind; [typeclasses eauto | | intros _].
  { intros s r s' [= _ <-]. split; [|split]; [|tauto|tauto].
    eexists [_]. split; reflexivity. }
  apply preserves_bind; [typeclasses eauto | | intros tracks].
  { eapply preserves_weaken; [apply same_outputs_loop_step|].
    apply preserves_get_playlist_tracks. }
  destruct tracks as [|t tracks].
  { eapply preserves_weaken; [apply same_outputs_loop_step | apply preserves_logger]. }
  destruct (export_format self) eqn:Efmt.
  - eapply preserves_weaken; [apply same_files_loop_step|].
    apply preserves_export_to_discord.
  - intros s r s'. unfold export_to_csv, bind, datetime_now, open_w, file_write,
      logger, ret, exported_files_append. file_export.
  - intros s r s'. unfold export_to_json, bind, datetime_now, open_w, file_write,
      logger, ret, exported_files_append. file_export.
  - intros s r s'. unfold export_to_txt, bind, datetime_now, open_w, file_write,
      logger, ret, exported_files_append. file_export.
  - intros s r s'. unfold export_to_markdown, bind, datetime_now, open_w, file_write,
      logger, ret, exported_files_append. file_export.
Qed.

Lemma preserves_for_playlists w self total todo : forall i,
  preserves (loop_step self) (for_playlists py_repr w self total i todo).
Proof.
  induction todo as [|playlist rest IH]; intros i; simpl.
  - apply preserves_ret; typeclasses eauto.
  - apply preserves_bind; [typeclasses eauto | | intros c].
    + eapply preserves_weaken; [apply same_outputs_loop_step | apply preserves_is_cancelled].
    + destruct c.
      * apply preserves_bind; [typeclasses eauto | | intros; apply preserves_ret; typeclasses eauto].
        eapply preserves_weaken; [apply same_outputs_loop_step | apply preserves_logger].
      * apply preserves_bind; [typeclasses eauto | apply preserves_export_playlist | intros; apply IH].
Qed.

(** A playlist loop that returns has listed every file it left. *)
Lemma listed_export_playlist w self total i playlist :
  returns keeps_listed (export_playlist py_repr w self total i playlist).
Proof.
  unfold export_playlist.
  apply returns_bind; [typeclasses eauto | | intros _].
  { intros s r s' [= _ <-]. unfold keeps_listed, files_listed. tauto. }
  apply returns_bind; [typeclasses eauto | | intros tracks].
  { apply preserves_returns. eapply preserves_weaken; [apply same_outputs_keeps_listed|].
    apply preserves_get_playlist_tracks. }
  destruct tracks as [|t tracks].
  { apply preserves_returns.
    eapply preserves_weaken; [apply same_outputs_keeps_listed | apply preserves_logger]. }
  destruct (export_format self) eqn:Efmt.
  - apply preserves_returns. eapply preserves_weaken; [apply same_files_keeps_listed|].
    apply preserves_export_to_discord.
  - intros s r s'. unfold export_to_csv, bind, datetime_now, open_w, file_write,
      logger, ret, exported_files_append. file_export_returns.
  - intros s r s'. unfold export_to_json, bind, datetime_now, open_w, file_write,
      logger, ret, exported_files_append. file_export_returns.
  - intros s r s'. unfold export_to_txt, bind, datetime_now, open_w, file_write,
      logger, ret, exported_files_append. file_export_returns.
  - intros s r s'. unfold export_to_markdown, bind, datetime_now, open_w, file_write,
      logger, ret, exported_files_append. file_export_returns.
Qed.

Lemma listed_for_playlists w self total todo : forall i,
  returns keeps_listed (for_playlists py_repr w self total i todo).
Proof.
  induction todo as [|playlist rest IH]; intros i; simpl.
  - apply preserves_returns, preserves_ret; typeclasses eauto.
  - apply returns_bind; [typeclasses eauto | | intros c].
    + apply preserves_returns.
      eapply preserves_weaken; [apply same_outputs_keeps_listed | apply preserves_is_cancelled].
    + destruct c.
      * apply preserves_returns.
        apply preserves_bind; [typeclasses eauto | | intros; apply preserves_ret; typeclasses eauto].
        eapply preserves_weaken; [apply same_outputs_keeps_listed | apply preserves_logger].
      * apply returns_bind; [typeclasses eauto | apply listed_export_playlist | intros; apply IH].
Qed.

Lemma for_playlists_app w self total before todo : forall i s,
  for_playlists py_repr w self total i (before ++ todo) s
  = match for_playlists py_repr w self total i before s with
    | (Ok false, s1) => for_playlists py_repr w self total (i + length before) todo s1
    | other => other
    end.
Proof.
  induction before as [|p before IH]; intros i s.
  - simpl. now rewrite Nat.add_0_r.
  - cbn [for_playlists app length]. unfold bind.
    destruct (is_cancelled w s) as [[[|]|e] s1]; try reflexivity.
    destruct (export_playlist py_repr w self total i p s1) as [[[]|e] s2];
      [|reflexivity].
    rewrite IH. now rewrite Nat.add_succ_r.
Qed.

(** The three ends of [run], from the end of the playlist loop. *)
Lemma run_cancelled w self s s1 :
  for_playlists py_repr w self (length (playlists self)) 0 (playlists self) s
  = (Ok true, s1) ->
  run py_repr w self s = (Ok Cancelled, s1).
Proof. intros H. unfold run, try_except, bind. now rewrite H. Qed.

Lemma run_completed w self s s1 :
  for_playlists py_repr w self (length (playlists self)) 0 (playlists self) s
  = (Ok false, s1) ->
  run py_repr w self s
  = (Ok Completed,
     snd (emit (finished (exported_files s1))
            (snd (emit (progress 100 (lit "Export completed")) s1)))).
Proof. intros H. unfold run, try_except, bind. now rewrite H. Qed.

Lemma run_failed w self s e s1 :
  for_playlists py_repr w self (length (playlists self)) 0 (playlists self) s
  = (Raise e, s1) ->
  run py_repr w self s
  = (Ok Failed,
     snd (emit (error (exn_str e)) (snd (logger ERROR (Export_error e) s1)))).
Proof. intros H. unfold run, try_except, bind. now rewrite H. Qed.


Lemma files_listed_initial : files_listed initial.
Proof.
  intros f. simpl. rewrite lookup_empty. split.
  - intros H. inversion H.
  - intros [? [=]].
Qed.

(** C4: when [cancel()] comes at a playlist boundary, after the playlists
    [before] went through and before the flag is read for the next one,
    the run ends by the [return] of line 541: nothing is exported for the
    remaining playlists, the attribute [exported_files] holds exactly the
    files written so far, and neither [error] nor [finished] is emitted. *)
Theorem run_cancelled_at_boundary w self before p rest s1 k :
  playlists self = before ++ p :: rest ->
  for_playlists py_repr w self (length (playlists self)) 0 before initial
  = (Ok false, s1) ->
  cancel_at w = Some k -> k <= polls s1 ->
  exists s',
    run py_repr w self initial = (Ok Cancelled, s')
    /\ exported_files s' = exported_files s1
    /\ files s' = files s1
    /\ posted s' = posted s1
    /\ signals s' = signals s1
    /\ forallb is_progress_of (signals s') = true
    /\ files_listed s'
    /\ log s' = log s1 ++ [(INFO, Export_cancelled_by_user)].
Proof.
  intros Hpl Hbefore Hcancel Hk.
  pose proof (preserves_for_playlists _ _ _ _ _ _ _ _ Hbefore)
    as ((sigs & Hsigs & Hprog) & _ & _).
  pose proof (listed_for_playlists _ _ _ _ _ _ _ _ Hbefore) as Hlisted.
  eexists. split.
  - apply run_cancelled. rewrite Hpl at 2. rewrite for_playlists_app, Hbefore.
    cbn [for_playlists]. unfold bind, is_cancelled. rewrite Hcancel.
    rewrite bool_decide_eq_true_2 by exact Hk. reflexivity.
  - simpl. repeat split; try reflexivity.
    + rewrite Hsigs. exact Hprog.
    + intros H. apply (proj1 (Hlisted files_listed_initial f)), H.
    + intros H. apply (proj2 (Hlisted files_listed_initial f)), H.
Qed.

(** C10: a run with the webhook format that ends after line 570 emits
    [finished] with the empty list; it has appended nothing to
    [exported_files] and written no file. *)
Theorem run_discord_finished_empty w self s' :
  export_format self = DISCORD ->
  run py_repr w self initial = (Ok Completed, s') ->
  exported_files s' = [] /\ files s' = ∅
  /\ exists sigs,
       signals s' = sigs ++ [progress 100 (lit "Export completed"); finished []]
       /\ forallb is_progress_of sigs = true.
Proof.
  intros Hfmt Hrun.
  destruct (for_playlists py_repr w self (length (playlists self)) 0
              (playlists self) initial) as [[[|]|e] s1] eqn:Eloop.
  - rewrite (run_cancelled _ _ _ _ Eloop) in Hrun. discriminate Hrun.
  - rewrite (run_completed _ _ _ _ Eloop) in Hrun. injection Hrun as <-.
    pose proof (preserves_for_playlists _ _ _ _ _ _ _ _ Eloop)
      as ((sigs & Hsigs & Hprog) & _ & Hsame).
    destruct (Hsame Hfmt) as [Hx Hf]. simpl.
    split; [exact Hx|]. split; [exact Hf|].
    exists sigs. split; [|exact Hprog].
    rewrite Hsigs, Hx. simpl. now rewrite <- app_assoc.
  - rewrite (run_failed _ _ _ _ _ Eloop) in Hrun. discriminate Hrun.
Qed.

(** ** A page request that raises *)

Lemma is_cancelled_never w s :
  cancel_at w = None ->
  is_cancelled w s
  = (Ok false,
     {| exported_files := exported_files s; signals := signals s;
        log := log s; files := files s; posted := posted s;
        polls := S (polls s); clock_reads := clock_reads s |}).
Proof. intros H. unfold is_cancelled. now rewrite H. Qed.

(** Processing an item that is a mapping returns. *)
Lemma process_item_returns fields tracks s :
  exists tracks' s',
    process_item py_repr (PDict fields) tracks s = (Ok tracks', s').
Proof.
  unfold process_item. cbn [py_get]. erewrite bind_ok by reflexivity.
  destruct (truthy (field (lit "track") PNone fields)); cbn [negb].
  - unfold try_except.
    destruct (normalize_result py_repr WARNING
                (field (lit "track") PNone fields) tracks s)
      as [(t & s' & Hn) | (e & s' & Hn)]; rewrite Hn; [eauto|].
    destruct (is_KeyError e); eexists _, _; reflexivity.
  - eexists _, _. reflexivity.
Qed.

Lemma for_items_returns w items : forall tracks s,
  cancel_at w = None ->
  forallb is_dict items = true ->
  exists tracks' s',
    for_items py_repr w items tracks s = (Ok (false, tracks'), s').
Proof.
  induction items as [|item rest IH]; intros tracks s Hc Hd.
  - eexists _, _. reflexivity.
  - simpl in Hd. apply andb_true_iff in Hd. destruct Hd as [Hitem Hrest].
    destruct item as [| | | | |fields]; try discriminate Hitem.
    cbn [for_items]. erewrite bind_ok by (apply is_cancelled_never, Hc).
    destruct (process_item_returns fields tracks
                {| exported_files := exported_files s; signals := signals s;
                   log := log s; files := files s; posted := posted s;
                   polls := S (polls s); clock_reads := clock_reads s |})
      as (tracks1 & s1 & Hp).
    erewrite bind_ok by exact Hp. now apply IH.
Qed.

(** The walker of lines 774-834 has no handler around [sp.next]: when
    the request of a later page raises, the walker raises. *)
Lemma walk_pages_later_page_fails w e results :
  later_page_fails e results ->
  forall tracks s,
    cancel_at w = None ->
    forallb is_dict (pages_items results) = true ->
    exists s', walk_pages py_repr w results tracks s = (Raise e, s').
Proof.
  induction 1 as [items | items f Hf IH]; intros tracks s Hc Hd.
  - simpl in Hd. rewrite app_nil_r in Hd.
    destruct (for_items_returns w items tracks s Hc Hd) as (tracks1 & s1 & Hi).
    cbn [walk_pages]. erewrite bind_ok by exact Hi. eexists. reflexivity.
  - simpl in Hd. rewrite forallb_app in Hd. apply andb_true_iff in Hd.
    destruct Hd as [Hitems Hrest].
    destruct (for_items_returns w items tracks s Hc Hitems) as (tracks1 & s1 & Hi).
    cbn [walk_pages]. erewrite bind_ok by exact Hi. cbn [fst snd].
    now apply IH.
Qed.

(** Lines 596-637: the handlers around the normalization of one record
    catch every exception. *)
Lemma normalize_handled track tracks skipped s :
  exists r s',
    try_except
      (tracks0 <- normalize py_repr DEBUG track tracks ;; ret (tracks0, skipped))
      (fun e =>
         if is_KeyError e then
           logger DEBUG (Missing_key_for_track e) ;;;
           ret (tracks, S skipped)
         else
           logger DEBUG (Failed_to_process_track e) ;;;
           ret (tracks, S skipped)) s
    = (Ok r, s').
Proof.
  unfold try_except.
  destruct (normalize_result py_repr DEBUG track tracks s)
    as [(t1 & s1 & Hn) | (e & s1 & Hn)].
  - erewrite bind_ok by exact Hn. eexists _, _. reflexivity.
  - erewrite bind_raise by exact Hn.
    destruct (is_KeyError e); eexists _, _; reflexivity.
Qed.

Lemma for_items_replaced_returns w items : forall tracks skipped s,
  cancel_at w = None ->
  forallb is_dict items = true ->
  exists tracks' skipped' s',
    for_items_replaced py_repr w items tracks skipped s
    = (Ok (false, tracks', skipped'), s').
Proof.
  induction items as [|item rest IH]; intros tracks skipped s Hc Hd.
  - eexists _, _, _. reflexivity.
  - simpl in Hd. apply andb_true_iff in Hd. destruct Hd as [Hitem Hrest].
    destruct item as [| | | | |fields]; try discriminate Hitem.
    cbn [for_items_replaced]. erewrite bind_ok by (apply is_cancelled_never, Hc).
    cbn [py_get]. erewrite bind_ok by reflexivity.
    destruct (truthy (field (lit "track") PNone fields)); cbn [negb];
      [|now apply IH].
    edestruct normalize_handled as (r & s1 & Ht).
    erewrite bind_ok by exact Ht. now apply IH.
Qed.

(** The replaced walker of lines 576-651 has the handler: when the
    request of a later page raises, it logs the failure and returns the
    tracks it has. *)
Lemma walk_pages_replaced_later_page_fails w e results :
  later_page_fails e results ->
  forall on_raise tracks skipped s,
    cancel_at w = None ->
    forallb is_dict (pages_items results) = true ->
    exists tracks' skipped' s',
      walk_pages_replaced py_repr w results on_raise tracks skipped s
      = (Ok (false, tracks', skipped'), s')
      /\ last (log s') = Some (ERROR, Failed_to_get_next_page e).
Proof.
  induction 1 as [items | items f Hf IH]; intros on_raise tracks skipped s Hc Hd.
  - simpl in Hd. rewrite app_nil_r in Hd.
    destruct (for_items_replaced_returns w items tracks skipped s Hc Hd)
      as (tracks1 & skipped1 & s1 & Hi).
    cbn [walk_pages_replaced]. erewrite bind_ok by exact Hi.
    eexists _, _, _. split; [reflexivity|]. simpl. apply last_snoc.
  - simpl in Hd. rewrite forallb_app in Hd. apply andb_true_iff in Hd.
    destruct Hd as [Hitems Hrest].
    destruct (for_items_replaced_returns w items tracks skipped s Hc Hitems)
      as (tracks1 & skipped1 & s1 & Hi).
    cbn [walk_pages_replaced]. erewrite bind_ok by exact Hi.
    now apply IH.
Qed.

(** C1 fails on the code: with the [get_playlist_tracks] that runs
    (lines 774-834), a page request that raises after the first page ends
    the whole run in the [except] clause of [run].  The [error] signal
    carries the text of the exception, [finished] is not emitted, and
    nothing is exported for this playlist or for the ones after it. *)
Theorem run_page_fetch_failure w self before p rest e s1 :
  playlists self = before ++ p :: rest ->
  for_playlists py_repr w self (length (playlists self)) 0 before initial
  = (Ok false, s1) ->
  cancel_at w = None ->
  later_page_fails e (sp self (id p)) ->
  forallb is_dict (pages_items (sp self (id p))) = true ->
  exists s',
    run py_repr w self initial = (Ok Failed, s')
    /\ signals s'
       = signals s1
         ++ [progress_of (length before) (length (playlists self))
               (lit "Exporting: " ++ pl_name p);
             error (exn_str e)]
    /\ exported_files s' = exported_files s1
    /\ files s' = files s1
    /\ posted s' = posted s1.
Proof.
  intros Hpl Hbefore Hc Hfail Hd.
  set (s2 := snd (emit (progress_of (length before) (length (playlists self))
                          (lit "Exporting: " ++ pl_name p))
                    (snd (is_cancelled w s1)))).
  destruct (walk_pages_later_page_fails w e _ Hfail [] s2 Hc Hd) as (s3 & Hw).
  pose proof (preserves_get_playlist_tracks w self (id p) _ _ _ Hw)
    as (Hx & Hs & Hf & Hp).
  eexists. split.
  - apply run_failed. rewrite Hpl at 2. rewrite for_playlists_app, Hbefore.
    cbn [for_playlists]. erewrite bind_ok by (apply is_cancelled_never, Hc).
    apply bind_raise. unfold export_playlist.
    erewrite bind_ok by reflexivity. apply bind_raise.
    unfold get_playlist_tracks. rewrite Nat.add_0_l.
    unfold s2 in Hw. rewrite (is_cancelled_never _ _ Hc) in Hw. exact Hw.
  - simpl. rewrite Hx, Hs, Hf, Hp. unfold s2.
    rewrite (is_cancelled_never _ _ Hc). simpl.
    rewrite <- app_assoc. repeat split; reflexivity.
Qed.

(** ** A webhook post that is refused *)

(** When the post of the message with index [j] gets a status other than
    200 and 204, and the posts before it were accepted, the posting loop
    raises with the status in the text, after [j + 1] posts. *)
Lemma send_messages_fails w messages : forall j m c s,
  cancel_at w = None ->
  messages !! j = Some m ->
  (forall i m', i < j -> messages !! i = Some m' ->
     post w (length (posted s) + i) m' = Ok 200%Z
     \/ post w (length (posted s) + i) m' = Ok 204%Z) ->
  post w (length (posted s) + j) m = Ok c ->
  c <> 200%Z -> c <> 204%Z ->
  exists s',
    send_messages w messages s
    = (Raise (Exception (lit "Failed to send to Discord: " ++ int_str c)), s')
    /\ posted s' = posted s ++ take (S j) messages
    /\ same_files s s'.
Proof.
  induction messages as [|msg rest IH]; intros j m c s Hc Hj Hbefore Hpost H200 H204.
  - discriminate Hj.
  - cbn [send_messages]. erewrite bind_ok by (apply is_cancelled_never, Hc).
    unfold bind at 1. unfold requests_post at 1. cbn [posted].
    destruct j as [|j].
    + injection Hj as <-. rewrite Nat.add_0_r in Hpost. rewrite Hpost.
      assert (Hneg : negb (Z.eqb c 200 || Z.eqb c 204) = true).
      { apply negb_true_iff, orb_false_iff. split; now apply Z.eqb_neq. }
      rewrite Hneg. eexists. split; [reflexivity|]. simpl. repeat split.
    + assert (Hfirst : post w (length (posted s)) msg = Ok 200%Z
                       \/ post w (length (posted s)) msg = Ok 204%Z).
      { rewrite <- (Nat.add_0_r (length (posted s))).
        apply Hbefore; [lia | reflexivity]. }
      set (s2 := {| exported_files := exported_files s; signals := signals s;
                    log := log s; files := files s;
                    posted := posted s ++ [msg]; polls := S (polls s);
                    clock_reads := clock_reads s |}).
      assert (Hlen : forall i, length (posted s2) + i = length (posted s) + S i).
      { intros i. unfold s2. cbn [posted]. rewrite length_app. simpl. lia. }
      destruct (IH j m c s2 Hc Hj) as (s' & Hrun & Hposted & Hx & Hs & Hf);
        [ | now rewrite Hlen | assumption | assumption | ].
      { intros i m' Hi Hm'. rewrite Hlen. apply Hbefore; [lia | exact Hm']. }
      exists s'. split; [|split].
      * destruct Hfirst as [-> | ->]; exact Hrun.
      * rewrite Hposted. unfold s2. cbn [posted take].
        now rewrite <- app_assoc.
      * repeat split; assumption.
Qed.

(** C8, as the code has it: a status other than 200 and 204 on a post
    raises, and the exception, which [run] catches only around its whole
    loop, ends the run.  The [error] signal carries the text with the
    status code, no message is posted after the refused one, the
    playlists after this one are not exported and [finished] is not
    emitted. *)
Theorem run_webhook_post_refused w self before p rest tracks s1 j m c :
  export_format self = DISCORD ->
  webhook_url self <> [] ->
  cancel_at w = None ->
  playlists self = before ++ p :: rest ->
  for_playlists py_repr w self (length (playlists self)) 0 before initial
  = (Ok false, s1) ->
  (forall s, fst (get_playlist_tracks py_repr w self (id p) s) = Ok tracks) ->
  tracks <> [] ->
  discord_messages py_repr p tracks !! j = Some m ->
  (forall i m', i < j -> discord_messages py_repr p tracks !! i = Some m' ->
     post w (length (posted s1) + i) m' = Ok 200%Z
     \/ post w (length (posted s1) + i) m' = Ok 204%Z) ->
  post w (length (posted s1) + j) m = Ok c ->
  c <> 200%Z -> c <> 204%Z ->
  exists s',
    run py_repr w self initial = (Ok Failed, s')
    /\ signals s'
       = signals s1
         ++ [progress_of (length before) (length (playlists self))
               (lit "Exporting: " ++ pl_name p);
             error (lit "Failed to send to Discord: " ++ int_str c)]
    /\ posted s' = posted s1 ++ take (S j) (discord_messages py_repr p tracks)
    /\ exported_files s' = []
    /\ files s' = ∅.
Proof.
  intros Hfmt Hurl Hc Hpl Hbefore Htracks Hne Hj Hprev Hpost H200 H204.
  pose proof (preserves_for_playlists _ _ _ _ _ _ _ _ Hbefore)
    as (_ & _ & Hsame). destruct (Hsame Hfmt) as [Hx1 Hf1]. simpl in Hx1, Hf1.
  set (s1b := snd (emit (progress_of (length before) (length (playlists self))
                           (lit "Exporting: " ++ pl_name p))
                     (snd (is_cancelled w s1)))).
  destruct (get_playlist_tracks py_repr w self (id p) s1b) as [r s2] eqn:Eget.
  pose proof (Htracks s1b) as Hr. rewrite Eget in Hr. simpl in Hr. subst r.
  pose proof (preserves_get_playlist_tracks w self (id p) _ _ _ Eget)
    as (Hx2 & Hs2 & Hf2 & Hp2).
  assert (Hp1 : posted s2 = posted s1).
  { rewrite Hp2. unfold s1b. now rewrite (is_cancelled_never _ _ Hc). }
  destruct (send_messages_fails w (discord_messages py_repr p tracks) j m c s2)
    as (s3 & Hsend & Hposted & Hx3 & Hs3 & Hf3); try assumption.
  { intros i m' Hi Hm'. rewrite Hp1. now apply Hprev. }
  { now rewrite Hp1. }
  eexists. split.
  - apply run_failed. rewrite Hpl at 2. rewrite for_playlists_app, Hbefore.
    cbn [for_playlists]. erewrite bind_ok by (apply is_cancelled_never, Hc).
    apply bind_raise. unfold export_playlist.
    erewrite bind_ok by reflexivity. rewrite Nat.add_0_l.
    unfold s1b in Eget. rewrite (is_cancelled_never _ _ Hc) in Eget.
    erewrite bind_ok by exact Eget.
    destruct tracks as [|t tracks]; [congruence|]. rewrite Hfmt.
    unfold export_to_discord.
    destruct (webhook_url self) as [|u0 u]; [congruence|].
    apply bind_raise. exact Hsend.
  - simpl. rewrite Hs3, Hs2, Hposted, Hp1, Hx3, Hx2, Hf3, Hf2. unfold s1b.
    rewrite (is_cancelled_never _ _ Hc). simpl.
    rewrite <- app_assoc. repeat split; assumption || reflexivity.
Qed.

End Frames.

(** ** File names *)

Lemma uint_str_inj d d' : uint_str d = uint_str d' -> d = d'.
Proof.
  revert d'. induction d; intros [] H; simpl in H; try discriminate H;
    try reflexivity; injection H as H; f_equal; now apply IHd.
Qed.

Lemma uint_str_iter_D0 k d :
  uint_str (Nat.iter k Decimal.D0 d) = replicate k 48%N ++ uint_str d.
Proof. induction k as [|k IH]; simpl; [reflexivity | now rewrite IH]. Qed.

Lemma zpad_inj w n n' : zpad w n = zpad w n' -> n = n'.
Proof.
  unfold zpad, nat_str. rewrite <- !uint_str_iter_D0. intros H.
  apply uint_str_inj in H. apply (f_equal Decimal.unorm) in H.
  rewrite !unorm_iter_D0 in H. apply (f_equal Nat.of_uint) in H.
  rewrite !DecimalNat.Unsigned.of_uint_norm, !DecimalNat.Unsigned.of_to in H.
  exact H.
Qed.

Lemma zpad_length w bound :
  forallb (fun n => length (zpad w n) =? w) (seq 0 bound) = true ->
  forall n, n < bound -> length (zpad w n) = w.
Proof.
  intros H n Hn. rewrite forallb_forall in H.
  apply Nat.eqb_eq, H, in_seq. lia.
Qed.

Lemma zpad_length_2 n : n < 100 -> length (zpad 2 n) = 2.
Proof. apply zpad_length. vm_compute. reflexivity. Qed.

Lemma zpad_length_4 n : n < 100 * 100 -> length (zpad 4 n) = 4.
Proof. apply zpad_length. vm_compute. reflexivity. Qed.

Lemma nat_str_inj n n' : nat_str n = nat_str n' -> n = n'.
Proof.
  unfold nat_str. intros H. apply uint_str_inj in H.
  apply (f_equal Nat.of_uint) in H.
  now rewrite !DecimalNat.Unsigned.of_to in H.
Qed.

(** The digits of a number have no underscore among them. *)
Lemma uint_str_no_underscore d : ~ In 95%N (uint_str d).
Proof.
  induction d; simpl; [tauto | intros [H|H]; [discriminate H | tauto]..].
Qed.

(** A text is cut at its last underscore in one way only. *)
Lemma cut_at_first (x : char) (b1 : str) : forall b2 a1 a2,
  ~ In x b1 -> ~ In x b2 ->
  b1 ++ x :: a1 = b2 ++ x :: a2 -> b1 = b2 /\ a1 = a2.
Proof.
  induction b1 as [|c b1 IH]; intros [|c2 b2] a1 a2 H1 H2 H; simpl in *.
  - injection H as H. now split.
  - injection H as -> _. tauto.
  - injection H as -> _. tauto.
  - injection H as -> H. destruct (IH b2 a1 a2) as [-> ->]; tauto.
Qed.

Lemma cut_at_last (x : char) (a1 a2 b1 b2 : str) :
  ~ In x b1 -> ~ In x b2 ->
  a1 ++ x :: b1 = a2 ++ x :: b2 -> a1 = a2 /\ b1 = b2.
Proof.
  intros H1 H2 H. apply (f_equal (@rev char)) in H.
  rewrite !rev_app_distr in H. simpl in H. rewrite <- !app_assoc in H.
  simpl in H. apply cut_at_first in H; [|rewrite <- in_rev; assumption..].
  destruct H as [Hb Ha]. split; apply rev_inj; assumption.
Qed.

(** The timestamp, after the year. *)
Lemma strftime_compact_tail_length d :
  valid_datetime d = true ->
  length (zpad 2 (month d) ++ zpad 2 (day d) ++ lit "_"
          ++ zpad 2 (hour d) ++ zpad 2 (minute d) ++ zpad 2 (second d)) = 11.
Proof.
  unfold valid_datetime. rewrite !andb_true_iff, !Nat.leb_le, !Nat.ltb_lt.
  intros H. rewrite !length_app, !zpad_length_2 by lia. reflexivity.
Qed.


Lemma strftime_compact_tail_inj d1 d2 :
  valid_datetime d1 = true -> valid_datetime d2 = true ->
  zpad 2 (month d1) ++ zpad 2 (day d1) ++ lit "_"
  ++ zpad 2 (hour d1) ++ zpad 2 (minute d1) ++ zpad 2 (second d1)
  = zpad 2 (month d2) ++ zpad 2 (day d2) ++ lit "_"
    ++ zpad 2 (hour d2) ++ zpad 2 (minute d2) ++ zpad 2 (second d2) ->
  month d1 = month d2 /\ day d1 = day d2
  /\ hour d1 = hour d2 /\ minute d1 = minute d2 /\ second d1 = second d2.
Proof.
  unfold valid_datetime. rewrite !andb_true_iff, !Nat.leb_le, !Nat.ltb_lt.
  intros H1 H2 H.
  apply app_inj_1 in H; [|rewrite !zpad_length_2 by lia; reflexivity].
  destruct H as [Hm H]. apply zpad_inj in Hm.
  apply app_inj_1 in H; [|rewrite !zpad_length_2 by lia; reflexivity].
  destruct H as [Hd H]. apply zpad_inj in Hd.
  apply app_inv_head in H.
  apply app_inj_1 in H; [|rewrite !zpad_length_2 by lia; reflexivity].
  destruct H as [Hh H]. apply zpad_inj in Hh.
  apply app_inj_1 in H; [|rewrite !zpad_length_2 by lia; reflexivity].
  destruct H as [Hmi Hs]. apply zpad_inj in Hmi. apply zpad_inj in Hs.
  repeat split; assumption.
Qed.

(** Two timestamps are the same text exactly when they are of the same
    second. *)
Lemma strftime_compact_inj d1 d2 :
  valid_datetime d1 = true -> valid_datetime d2 = true ->
  strftime_compact d1 = strftime_compact d2 ->
  year d1 = year d2 /\ month d1 = month d2 /\ day d1 = day d2
  /\ hour d1 = hour d2 /\ minute d1 = minute d2 /\ second d1 = second d2.
Proof.
  intros H1 H2. unfold strftime_compact. intros H.
  apply app_inj_2 in H;
    [|now rewrite !strftime_compact_tail_length].
  destruct H as [Hy H]. apply nat_str_inj in Hy.
  split; [exact Hy | now apply strftime_compact_tail_inj].
Qed.

(** C7, as the code has it: the file names of two playlists are the same
    exactly when the names of the playlists sanitize to the same text and
    the two exports read the clock in the same second; nothing else
    enters the name.  Two playlists of one run whose names sanitize alike
    get distinct files only if the clock has moved to another second in
    between. *)
Theorem export_filename_same p1 p2 d1 d2 ext :
  valid_datetime d1 = true -> valid_datetime d2 = true ->
  export_filename p1 (strftime_compact d1) ext
  = export_filename p2 (strftime_compact d2) ext
  <-> sanitize_filename (pl_name p1) = sanitize_filename (pl_name p2)
      /\ year d1 = year d2 /\ month d1 = month d2 /\ day d1 = day d2
      /\ hour d1 = hour d2 /\ minute d1 = minute d2 /\ second d1 = second d2.
Proof.
  intros H1 H2. unfold export_filename. split.
  - intros H. rewrite !(app_assoc _ _ (lit "." ++ ext)) in H.
    apply app_inv_tail in H. unfold strftime_compact in H.
    rewrite !(app_assoc (lit "_")), !(app_assoc (sanitize_filename _)) in H.
    apply app_inj_2 in H; [|now rewrite !strftime_compact_tail_length].
    destruct H as [H Htail]. rewrite <- !app_assoc in H.
    apply cut_at_last in H; [|apply uint_str_no_underscore..].
    destruct H as [Hname Hy]. apply nat_str_inj in Hy.
    split; [exact Hname|]. split; [exact Hy|].
    now apply strftime_compact_tail_inj.
  - intros (Hname & Hy & Hm & Hd & Hh & Hmi & Hs). rewrite Hname.
    unfold strftime_compact. now rewrite Hy, Hm, Hd, Hh, Hmi, Hs.
Qed.

(** ** Exports that return *)

Section Exports.

Variable py_repr : pyval -> str.

Lemma datetime_now_ok w s :
  datetime_now w s
  = (Ok (now w (clock_reads s)),
     {| exported_files := exported_files s; signals := signals s;
        log := log s; files := files s; posted := posted s;
        polls := polls s; clock_reads := S (clock_reads s) |}).
Proof. reflexivity. Qed.

Lemma open_w_ok w file s :
  open_fails w file = None ->
  open_w w file s
  = (Ok tt,
     {| exported_files := exported_files s; signals := signals s;
        log := log s; files := <[file := Text []]> (files s);
        posted := posted s; polls := polls s;
        clock_reads := clock_reads s |}).
Proof. intros H. unfold open_w. now rewrite H. Qed.

Lemma file_write_ok w file c s :
  write_fails w file c = None -> encodable c = true ->
  file_write w file c s
  = (Ok tt,
     {| exported_files := exported_files s; signals := signals s;
        log := log s; files := <[file := c]> (files s);
        posted := posted s; polls := polls s;
        clock_reads := clock_reads s |}).
Proof. intros Hw He. unfold file_write. now rewrite Hw, He. Qed.

(** A write of text with a surrogate raises, and leaves the file. *)
Lemma file_write_surrogate w file c s :
  write_fails w file c = None -> encodable c = false ->
  file_write w file c s
  = (Raise (UnicodeEncodeError (encode_error_text w c)),
     {| exported_files := exported_files s; signals := signals s;
        log := log s; files := <[file := Truncated c]> (files s);
        posted := posted s; polls := polls s;
        clock_reads := clock_reads s |}).
Proof. intros Hw He. unfold file_write. now rewrite Hw, He. Qed.

(** A text without a surrogate begins with one. *)
Lemma encodable_prefix a b :
  encodable (Text (a ++ b)) = true -> encodable (Text a) = true.
Proof.
  unfold encodable, has_surrogate. rewrite existsb_app, !negb_true_iff.
  now intros [H _]%orb_false_iff.
Qed.

Ltac export_step :=
  first
    [ erewrite bind_ok by apply datetime_now_ok
    | erewrite bind_ok by (apply open_w_ok; eassumption)
    | erewrite bind_ok by (apply file_write_ok; eassumption)
    | erewrite bind_ok by reflexivity ];
  cbv zeta; cbn [exported_files signals log files posted polls clock_reads].

Lemma export_to_csv_ok w self playlist tracks s :
  open_fails w (export_path self playlist
                  (strftime_compact (now w (clock_reads s))) (lit "csv")) = None ->
  write_fails w (export_path self playlist
                   (strftime_compact (now w (clock_reads s))) (lit "csv"))
    (Csv csv_fieldnames (map to_dict tracks)) = None ->
  encodable (Csv csv_fieldnames (map to_dict tracks)) = true ->
  export_to_csv w self playlist tracks s
  = (Ok (export_path self playlist
           (strftime_compact (now w (clock_reads s))) (lit "csv")),
     exported_to CSV
       (export_path self playlist
          (strftime_compact (now w (clock_reads s))) (lit "csv"))
       (Csv csv_fieldnames (map to_dict tracks)) 1 s).
Proof.
  intros Hopen Hwrite Henc. unfold export_to_csv.
  do 4 export_step. unfold ret, exported_to.
  now rewrite insert_insert_eq.
Qed.

Lemma export_to_json_ok w self playlist tracks s :
  open_fails w (export_path self playlist
                  (strftime_compact (now w (clock_reads s))) (lit "json")) = None ->
  write_fails w (export_path self playlist
                   (strftime_compact (now w (clock_reads s))) (lit "json"))
    (Text (json_document playlist tracks (now w (S (clock_reads s))))) = None ->
  encodable (Text (json_document playlist tracks (now w (S (clock_reads s)))))
  = true ->
  export_to_json w self playlist tracks s
  = (Ok (export_path self playlist
           (strftime_compact (now w (clock_reads s))) (lit "json")),
     exported_to JSON
       (export_path self playlist
          (strftime_compact (now w (clock_reads s))) (lit "json"))
       (Text (json_document playlist tracks (now w (S (clock_reads s))))) 2 s).
Proof.
  intros Hopen Hwrite Henc. unfold export_to_json.
  do 5 export_step. unfold ret, exported_to.
  now rewrite insert_insert_eq.
Qed.

Lemma export_to_txt_ok w self playlist tracks s :
  open_fails w (export_path self playlist
                  (strftime_compact (now w (clock_reads s))) (lit "txt")) = None ->
  (forall c, write_fails w (export_path self playlist
                              (strftime_compact (now w (clock_reads s)))
                              (lit "txt")) c = None) ->
  encodable (Text (txt_document py_repr playlist tracks
                     (now w (S (clock_reads s))))) = true ->
  export_to_txt py_repr w self playlist tracks s
  = (Ok (export_path self playlist
           (strftime_compact (now w (clock_reads s))) (lit "txt")),
     exported_to TXT
       (export_path self playlist
          (strftime_compact (now w (clock_reads s))) (lit "txt"))
       (Text (txt_document py_repr playlist tracks (now w (S (clock_reads s)))))
       2 s).
Proof.
  intros Hopen Hwrite Henc. unfold export_to_txt.
  pose proof Henc as Hhead. unfold txt_document in Hhead.
  apply encodable_prefix in Hhead.
  pose proof (Hwrite (Text (txt_head playlist tracks))) as Hw1.
  pose proof (Hwrite (Text (txt_document py_repr playlist tracks
                              (now w (S (clock_reads s)))))) as Hw2.
  do 6 export_step. unfold ret, exported_to.
  now rewrite !insert_insert_eq.
Qed.

Lemma export_to_markdown_ok w self playlist tracks s :
  open_fails w (export_path self playlist
                  (strftime_compact (now w (clock_reads s))) (lit "md")) = None ->
  (forall c, write_fails w (export_path self playlist
                              (strftime_compact (now w (clock_reads s)))
                              (lit "md")) c = None) ->
  encodable (Text (markdown_document py_repr playlist tracks
                     (now w (S (clock_reads s))))) = true ->
  export_to_markdown py_repr w self playlist tracks s
  = (Ok (export_path self playlist
           (strftime_compact (now w (clock_reads s))) (lit "md")),
     exported_to MARKDOWN
       (export_path self playlist
          (strftime_compact (now w (clock_reads s))) (lit "md"))
       (Text (markdown_document py_repr playlist tracks
                (now w (S (clock_reads s)))))
       2 s).
Proof.
  intros Hopen Hwrite Henc. unfold export_to_markdown.
  pose proof Henc as Hhead. unfold markdown_document in Hhead.
  apply encodable_prefix in Hhead.
  pose proof (Hwrite (Text (markdown_head playlist tracks))) as Hw1.
  pose proof (Hwrite (Text (markdown_document py_repr playlist tracks
                              (now w (S (clock_reads s)))))) as Hw2.
  do 6 export_step. unfold ret, exported_to.
  now rewrite !insert_insert_eq.
Qed.

End Exports.

(** ** The structured document: reading back what was written *)

Section JsonRoundTrip.

Local Open Scope N_scope.

(** *** Strings *)

Lemma hex4_escape c :
  c < 32 ->
  hex4 48 48 (hex_digit (c / 16)) (hex_digit (c mod 16)) = Some c.
Proof.
  intros Hc.
  assert (H : forallb (fun n =>
              match hex4 48 48 (hex_digit (N.of_nat n / 16))
                      (hex_digit (N.of_nat n mod 16)) with
              | Some x => x =? N.of_nat n
              | None => false
              end) (seq 0 32%nat) = true) by (vm_compute; reflexivity).
  rewrite forallb_forall in H. specialize (H (N.to_nat c)).
  rewrite N2Nat.id in H.
  destruct (hex4 48 48 (hex_digit (c / 16)) (hex_digit (c mod 16))) as [x|].
  - f_equal. apply N.eqb_eq, H, in_seq. lia.
  - discriminate H. apply in_seq. lia.
Qed.

Lemma scan_string_escape c tail :
  scan_string (json_escape c ++ tail) = cons_char c (scan_string tail).
Proof.
  unfold json_escape, ch_quote, ch_backslash, ch_newline.
  destruct (N.eqb_spec c 34) as [->|H34]; [reflexivity|].
  destruct (N.eqb_spec c 92) as [->|H92]; [reflexivity|].
  destruct (N.eqb_spec c 10) as [->|H10]; [reflexivity|].
  destruct (N.eqb_spec c 13) as [->|H13]; [reflexivity|].
  destruct (N.eqb_spec c 9) as [->|H9]; [reflexivity|].
  destruct (N.eqb_spec c 8) as [->|H8]; [reflexivity|].
  destruct (N.eqb_spec c 12) as [->|H12]; [reflexivity|].
  destruct (N.ltb_spec c 32) as [Hlt|Hge].
  - cbn [app scan_string]. cbn [N.eqb Pos.eqb ch_quote ch_backslash].
    rewrite (hex4_escape c Hlt).
    assert (Hs : is_high_surrogate c = false).
    { unfold is_high_surrogate. apply andb_false_iff. left.
      apply N.leb_gt. lia. }
    rewrite Hs. destruct tail as [|b [|u' s4]]; reflexivity.
  - cbn [app scan_string]. unfold ch_quote, ch_backslash.
    rewrite (proj2 (N.eqb_neq c 34) H34), (proj2 (N.eqb_neq c 92) H92).
    rewrite (proj2 (N.ltb_ge c 32) Hge). reflexivity.
Qed.

Lemma scan_string_dumps s rest :
  scan_string (flat_map json_escape s ++ ch_quote :: rest) = Some (s, rest).
Proof.
  induction s as [|c s IH]; [reflexivity|].
  cbn [flat_map]. rewrite <- app_assoc, scan_string_escape, IH. reflexivity.
Qed.

(** *** Numbers *)

Lemma scan_digits_uint d rest :
  delimited rest -> scan_digits (uint_str d ++ rest) = (d, rest).
Proof.
  intros Hrest. induction d; cbn [uint_str app scan_digits];
    try (rewrite IHd; reflexivity).
  destruct rest as [|c rest]; [reflexivity|].
  destruct Hrest as [-> | ->]; reflexivity.
Qed.

Lemma after_digits (d : Decimal.uint) rest :
  delimited rest ->
  match rest with
  | [] => Some (d, rest)
  | c' :: _ =>
      if (c' =? 46) || (c' =? 101) || (c' =? 69) then None else Some (d, rest)
  end = Some (d, rest).
Proof. destruct rest as [|c rest]; [reflexivity|]. intros [-> | ->]; reflexivity. Qed.

Lemma unorm_fixed d :
  Decimal.unorm d = d ->
  d <> Decimal.Nil /\ forall d', d = Decimal.D0 d' -> d' = Decimal.Nil.
Proof.
  intros H. split.
  - rewrite <- H. apply unorm_nonnil.
  - intros d' ->. rewrite unorm_D0 in H. unfold Decimal.unorm in H.
    destruct (Decimal.nzhead d') eqn:E; try (injection H as <-; reflexivity);
      exfalso; apply (nzhead_nonzero d' d'); congruence.
Qed.

Ltac leading_digit :=
  unfold scan_natural; cbn [uint_str app];
  match goal with
  | |- context [digit_value ?c] =>
      let v := eval vm_compute in (digit_value c) in
      change (digit_value c) with v
  end;
  cbv beta iota;
  match goal with
  | |- context [N.eqb ?n 0] =>
      let v := eval vm_compute in (N.eqb n 0) in change (N.eqb n 0) with v
  end;
  cbv iota.

Lemma scan_natural_uint d rest :
  d <> Decimal.Nil -> (forall d', d = Decimal.D0 d' -> d' = Decimal.Nil) ->
  delimited rest ->
  scan_natural (uint_str d ++ rest) = Some (d, rest).
Proof.
  intros Hnil H0 Hrest.
  pose proof (scan_digits_uint d rest Hrest) as E.
  destruct d; try congruence; cbn [uint_str app] in E.
  - rewrite (H0 d eq_refl). leading_digit. now apply after_digits.
  - leading_digit. rewrite E. now apply after_digits.
  - leading_digit. rewrite E. now apply after_digits.
  - leading_digit. rewrite E. now apply after_digits.
  - leading_digit. rewrite E. now apply after_digits.
  - leading_digit. rewrite E. now apply after_digits.
  - leading_digit. rewrite E. now apply after_digits.
  - leading_digit. rewrite E. now apply after_digits.
  - leading_digit. rewrite E. now apply after_digits.
  - leading_digit. rewrite E. now apply after_digits.
Qed.

Lemma to_int_normalized z :
  match Z.to_int z with
  | Decimal.Pos d | Decimal.Neg d =>
      d <> Decimal.Nil /\ forall d', d = Decimal.D0 d' -> d' = Decimal.Nil
  end.
Proof.
  pose proof (DecimalZ.to_of (Z.to_int z)) as H.
  rewrite DecimalZ.of_to in H.
  destruct (Z.to_int z) as [d|d]; simpl in H.
  - injection H as H. now apply unorm_fixed.
  - destruct (Decimal.nzhead d) eqn:E; try discriminate H;
      injection H as H; subst d; (split; [discriminate|]);
      intros d' Hd'; exfalso; apply (nzhead_nonzero (Decimal.D0 d') d');
      rewrite <- Hd' at 1; now rewrite E.
Qed.

(** The first character of the text of an integer. *)
Lemma uint_str_head d :
  d <> Decimal.Nil -> exists c s, uint_str d = c :: s /\ digit_value c <> None.
Proof. destruct d; try congruence; intros _; eexists _, _; (split; [reflexivity | discriminate]). Qed.

Lemma scan_number_int z rest :
  delimited rest -> scan_number (int_str z ++ rest) = Some (PInt z, rest).
Proof.
  intros Hrest. unfold int_str. pose proof (to_int_normalized z) as Hn.
  pose proof (DecimalZ.of_to z) as Hz.
  destruct (Z.to_int z) as [d|d]; destruct Hn as [Hnil H0].
  - destruct (uint_str_head d Hnil) as (c & s & E & Hc).
    unfold scan_number. rewrite E. cbn [app].
    assert (H45 : (c =? 45) = false).
    { apply N.eqb_neq. intros ->. now apply Hc. }
    rewrite H45. change (c :: s ++ rest) with ((c :: s) ++ rest).
    rewrite <- E, scan_natural_uint by assumption. now rewrite Hz.
  - unfold scan_number. cbn [app]. rewrite N.eqb_refl.
    rewrite scan_natural_uint by assumption. now rewrite Hz.
Qed.

(** *** White space and the start of a value *)

Lemma skip_ws_indent depth s : skip_ws (newline_indent depth ++ s) = skip_ws s.
Proof.
  unfold newline_indent. cbn [app skip_ws].
  change (is_ws ch_newline) with true. cbv iota.
  induction (2 * depth)%nat as [|k IH]; [reflexivity|].
  cbn [replicate app skip_ws]. change (is_ws 32) with true. exact IH.
Qed.

Lemma skip_ws_starts_value s : starts_value s -> skip_ws s = s.
Proof.
  destruct s as [|c s]; [intros []|]. intros (Hws & _). cbn [skip_ws].
  now rewrite Hws.
Qed.

Lemma starts_value_app s rest : starts_value s -> starts_value (s ++ rest).
Proof. destruct s; [intros [] | trivial]. Qed.

Lemma json_dumps_starts depth v : starts_value (json_dumps depth v).
Proof.
  destruct v as [|[|]|z|s|[|x l]|[|kv d]]; try (repeat split; reflexivity).
  unfold json_dumps, int_str. pose proof (to_int_normalized z) as Hn.
  destruct (Z.to_int z) as [u|u]; [|repeat split; reflexivity].
  destruct Hn as [Hnil _]. destruct u; try congruence; repeat split; reflexivity.
Qed.

Lemma json_items_starts {A} (item : A -> str) depth l :
  l <> [] -> (forall a, starts_value (item a)) ->
  starts_value (json_items item depth l).
Proof.
  intros Hl Hitem. destruct l as [|a [|a' l]]; [congruence | apply Hitem |].
  cbn [json_items]. apply starts_value_app, Hitem.
Qed.

Lemma pyval_induction (P : pyval -> Prop) :
  P PNone -> (forall b, P (PBool b)) -> (forall z, P (PInt z)) ->
  (forall s, P (PStr s)) ->
  (forall l, Forall P l -> P (PList l)) ->
  (forall d, Forall (fun kv => P (snd kv)) d -> P (PDict d)) ->
  forall v, P v.
Proof.
  intros Hn Hb Hz Hs Hl Hd. fix IH 1. intros [|b|z|s|l|d].
  - exact Hn.
  - apply Hb.
  - apply Hz.
  - apply Hs.
  - apply Hl. induction l as [|x l IHl]; constructor; [apply IH | exact IHl].
  - apply Hd. induction d as [|[k x] d IHd]; constructor; [apply IH | exact IHd].
Qed.

(** *** Values *)

Lemma scan_once_number fuel c s :
  digit_value c <> None \/ c = 45 ->
  scan_once (S fuel) (c :: s) = scan_number (c :: s).
Proof.
  intros Hc.
  assert (H : c <> 34 /\ c <> 123 /\ c <> 91 /\ c <> 110 /\ c <> 116 /\ c <> 102).
  { destruct Hc as [Hc | ->]; [|repeat split; discriminate].
    unfold digit_value in Hc.
    destruct (N.leb_spec 48 c), (N.leb_spec c 57); simpl in Hc;
      try congruence. repeat split; lia. }
  destruct H as (H1 & H2 & H3 & H4 & H5 & H6).
  cbn [scan_once]. unfold ch_quote.
  rewrite (proj2 (N.eqb_neq c 34) H1), (proj2 (N.eqb_neq c 123) H2),
    (proj2 (N.eqb_neq c 91) H3).
  change (lit "null") with [110; 117; 108; 108].
  change (lit "true") with [116; 114; 117; 101].
  change (lit "false") with [102; 97; 108; 115; 101].
  cbn [is_prefix].
  rewrite (proj2 (N.eqb_neq 110 c)), (proj2 (N.eqb_neq 116 c)),
    (proj2 (N.eqb_neq 102 c)) by congruence.
  reflexivity.
Qed.

Lemma reads_back_int z : reads_back (PInt z).
Proof.
  intros depth fuel rest _ Hfuel Hrest. destruct fuel as [|fuel]; [simpl in Hfuel; lia|].
  cbn [json_dumps]. rewrite <- (scan_number_int z rest Hrest).
  unfold int_str. pose proof (to_int_normalized z) as Hn.
  destruct (Z.to_int z) as [d|d].
  - destruct Hn as [Hnil _]. destruct (uint_str_head d Hnil) as (c & s & E & Hc).
    rewrite E. cbn [app]. apply scan_once_number. now left.
  - cbn [app]. apply scan_once_number. now right.
Qed.

Lemma reads_back_str s : reads_back (PStr s).
Proof.
  intros depth fuel rest _ Hfuel _. destruct fuel as [|fuel]; [simpl in Hfuel; lia|].
  cbn [json_dumps]. unfold json_string. rewrite <- !app_assoc.
  cbn [app scan_once]. rewrite N.eqb_refl.
  now rewrite scan_string_dumps.
Qed.

Lemma delimited_indent depth s : delimited (newline_indent depth ++ s).
Proof. right. reflexivity. Qed.

Lemma json_items_cons {A} (item : A -> str) depth a a' l :
  json_items item depth (a :: a' :: l)
  = item a ++ [44] ++ newline_indent depth ++ json_items item depth (a' :: l).
Proof. reflexivity. Qed.

Lemma list_sum_cons a l : list_sum (a :: l) = (a + list_sum l)%nat.
Proof. reflexivity. Qed.

(** The elements of a list, after the opening bracket and the first
    indentation. *)
Lemma JSONArray_items depth rest l :
  Forall reads_back l -> l <> [] ->
  forall fuel values,
    forallb keys_unique l = true ->
    (list_sum (map (fun x => S (weight x)) l) <= fuel)%nat ->
    JSONArray fuel
      (json_items (json_dumps (S depth)) (S depth) l
       ++ newline_indent depth ++ [93] ++ rest) values
    = Some (PList (values ++ l), rest).
Proof.
  induction 1 as [|v l Hv Hl IH]; [congruence|].
  intros _ fuel values Hk Hfuel. cbn [forallb] in Hk.
  apply andb_true_iff in Hk. destruct Hk as [Hkv Hkl].
  cbn [map] in Hfuel. rewrite list_sum_cons in Hfuel.
  destruct fuel as [|fuel]; [lia|]. cbn [JSONArray].
  destruct l as [|v' l'].
  - cbn [json_items]. rewrite (Hv (S depth) fuel _ Hkv);
      [|lia|apply delimited_indent].
    rewrite skip_ws_indent. cbn [app skip_ws]. change (is_ws 93) with false.
    cbv iota. rewrite N.eqb_refl. reflexivity.
  - rewrite json_items_cons, <- !app_assoc.
    rewrite (Hv (S depth) fuel _ Hkv); [|lia|left; reflexivity].
    cbn [app skip_ws]. change (is_ws 44) with false. cbv iota.
    change (44 =? 93) with false. change (44 =? 44) with true. cbv iota.
    rewrite skip_ws_indent, skip_ws_starts_value.
    + rewrite IH; [now rewrite <- app_assoc | discriminate | exact Hkl |].
      lia.
    + apply starts_value_app, json_items_starts; [discriminate|].
      apply json_dumps_starts.
Qed.

Lemma scan_once_bracket fuel s :
  scan_once (S fuel) (91 :: s)
  = match skip_ws s with
    | [] => None
    | c1 :: s2 =>
        if c1 =? 93 then Some (PList [], s2) else JSONArray fuel (c1 :: s2) []
    end.
Proof. reflexivity. Qed.

Lemma scan_once_brace fuel s :
  scan_once (S fuel) (123 :: s)
  = match skip_ws s with
    | [] => None
    | c1 :: s2 =>
        if c1 =? 125 then Some (PDict [], s2) else JSONObject fuel (c1 :: s2) []
    end.
Proof. reflexivity. Qed.

Lemma scan_once_list_text fuel depth text :
  starts_value text ->
  scan_once (S fuel) ([91] ++ newline_indent depth ++ text)
  = JSONArray fuel text [].
Proof.
  intros Hs. change ([91] ++ newline_indent depth ++ text)
    with (91 :: (newline_indent depth ++ text)).
  rewrite scan_once_bracket, skip_ws_indent, (skip_ws_starts_value _ Hs).
  destruct text as [|c1 s2]; [destruct Hs|].
  destruct Hs as (_ & H93 & _). now rewrite H93.
Qed.

Lemma scan_once_dict_text fuel depth text :
  starts_value text ->
  scan_once (S fuel) ([123] ++ newline_indent depth ++ text)
  = JSONObject fuel text [].
Proof.
  intros Hs. change ([123] ++ newline_indent depth ++ text)
    with (123 :: (newline_indent depth ++ text)).
  rewrite scan_once_brace, skip_ws_indent, (skip_ws_starts_value _ Hs).
  destruct text as [|c1 s2]; [destruct Hs|].
  destruct Hs as (_ & _ & H125). now rewrite H125.
Qed.

Lemma reads_back_list l : Forall reads_back l -> reads_back (PList l).
Proof.
  intros Hl depth fuel rest Hk Hfuel Hrest.
  destruct fuel as [|fuel]; [simpl in Hfuel; lia|].
  destruct l as [|v l]; [reflexivity|].
  cbn [keys_unique] in Hk. cbn [weight] in Hfuel.
  change (json_dumps depth (PList (v :: l)))
    with ([91] ++ newline_indent (S depth)
          ++ json_items (json_dumps (S depth)) (S depth) (v :: l)
          ++ newline_indent depth ++ [93]).
  rewrite <- !app_assoc.
  etransitivity.
  - apply scan_once_list_text.
    apply starts_value_app, json_items_starts; [discriminate|].
    apply json_dumps_starts.
  - apply (JSONArray_items depth rest (v :: l) Hl); [discriminate | exact Hk | lia].
Qed.

Lemma dict_set_fresh key value pairs :
  ~ In key (map fst pairs) -> dict_set key value pairs = pairs ++ [(key, value)].
Proof.
  induction pairs as [|[k x] pairs IH]; intros Hk; [reflexivity|].
  cbn [dict_set]. cbn [map fst In] in Hk.
  rewrite bool_decide_eq_false_2 by tauto.
  cbn [app]. f_equal. apply IH. tauto.
Qed.

Lemma JSONObject_quote fuel s pairs :
  JSONObject (S fuel) (ch_quote :: s) pairs
  = match scan_string s with
    | None => None
    | Some (key, rest) =>
        match skip_ws rest with
        | [] => None
        | c :: rest1 =>
            if c =? 58 then
              match scan_once fuel (skip_ws rest1) with
              | None => None
              | Some (value, rest2) =>
                  match skip_ws rest2 with
                  | [] => None
                  | c' :: rest3 =>
                      if c' =? 125 then
                        Some (PDict (dict_set key value pairs), rest3)
                      else if c' =? 44 then
                        JSONObject fuel (skip_ws rest3) (dict_set key value pairs)
                      else None
                  end
              end
            else None
        end
    end.
Proof. reflexivity. Qed.

(** One member of a dict: the key, the colon, the value. *)
Lemma JSONObject_member fuel depth k v tail pairs :
  reads_back v -> keys_unique v = true -> (weight v <= fuel)%nat ->
  delimited tail ->
  JSONObject (S fuel)
    (json_string k ++ [58; 32] ++ json_dumps depth v ++ tail) pairs
  = match skip_ws tail with
    | [] => None
    | c' :: rest3 =>
        if c' =? 125 then Some (PDict (dict_set k v pairs), rest3)
        else if c' =? 44 then
          JSONObject fuel (skip_ws rest3) (dict_set k v pairs)
        else None
    end.
Proof.
  intros Hv Hk Hw Htail. unfold json_string. rewrite <- !app_assoc.
  change ([ch_quote] ++ flat_map json_escape k
          ++ [ch_quote] ++ [58; 32] ++ json_dumps depth v ++ tail)
    with (ch_quote :: (flat_map json_escape k
          ++ ch_quote :: 58 :: 32 :: (json_dumps depth v ++ tail))).
  rewrite JSONObject_quote, scan_string_dumps. cbv beta iota.
  change (skip_ws (58 :: 32 :: (json_dumps depth v ++ tail)))
    with (58 :: 32 :: (json_dumps depth v ++ tail)).
  cbv beta iota. change (58 =? 58) with true. cbv iota.
  change (skip_ws (32 :: (json_dumps depth v ++ tail)))
    with (skip_ws (json_dumps depth v ++ tail)).
  rewrite skip_ws_starts_value by apply starts_value_app, json_dumps_starts.
  now rewrite (Hv depth fuel tail Hk Hw Htail).
Qed.

Lemma member_starts depth kv : starts_value (member depth kv).
Proof. destruct kv as [k v]. repeat split; reflexivity. Qed.

Lemma JSONObject_items depth rest d :
  Forall (fun kv => reads_back (snd kv)) d -> d <> [] ->
  forall fuel pairs,
    NoDup (map fst (pairs ++ d)) ->
    forallb (fun kv : str * pyval => let (_, x) := kv in keys_unique x) d = true ->
    (list_sum (map (fun kv : str * pyval => let (_, x) := kv in S (weight x)) d)
     <= fuel)%nat ->
    JSONObject fuel
      (json_items (member (S depth)) (S depth) d
       ++ newline_indent depth ++ [125] ++ rest) pairs
    = Some (PDict (pairs ++ d), rest).
Proof.
  induction 1 as [|[k v] d Hv Hd IH]; [congruence|].
  intros _ fuel pairs Hnd Hk Hfuel. cbn [forallb] in Hk.
  apply andb_true_iff in Hk. destruct Hk as [Hkv Hkd].
  cbn [map] in Hfuel. rewrite list_sum_cons in Hfuel. cbn [snd] in Hv.
  destruct fuel as [|fuel]; [lia|].
  assert (Hfresh : ~ In k (map fst pairs)).
  { rewrite map_app in Hnd. apply NoDup_app in Hnd.
    destruct Hnd as (_ & Hdis & _). intros Hin.
    apply (Hdis k); [now apply list_elem_of_In | left]. }
  assert (Hnd' : NoDup (map fst ((pairs ++ [(k, v)]) ++ d))).
  { now rewrite <- app_assoc. }
  destruct d as [|kv' d'].
  - cbn [json_items member]. change (lit ": ") with [58; 32].
    rewrite <- !app_assoc.
    rewrite (JSONObject_member fuel (S depth) k v _ pairs Hv Hkv);
      [|lia|apply delimited_indent].
    rewrite skip_ws_indent. cbn [app skip_ws]. change (is_ws 125) with false.
    cbv iota. rewrite N.eqb_refl. now rewrite dict_set_fresh.
  - rewrite json_items_cons. cbn [member]. change (lit ": ") with [58; 32].
    rewrite <- !app_assoc.
    rewrite (JSONObject_member fuel (S depth) k v _ pairs Hv Hkv);
      [|lia|left; reflexivity].
    cbn [app skip_ws]. change (is_ws 44) with false. cbv iota.
    change (44 =? 125) with false. change (44 =? 44) with true. cbv iota.
    rewrite skip_ws_indent, skip_ws_starts_value.
    + rewrite dict_set_fresh by exact Hfresh.
      rewrite IH; [now rewrite <- app_assoc | discriminate | exact Hnd' | exact Hkd | lia].
    + apply starts_value_app, json_items_starts; [discriminate|].
      apply member_starts.
Qed.

Lemma reads_back_dict d :
  Forall (fun kv => reads_back (snd kv)) d -> reads_back (PDict d).
Proof.
  intros Hd depth fuel rest Hk Hfuel Hrest.
  destruct fuel as [|fuel]; [simpl in Hfuel; lia|].
  destruct d as [|kv d]; [reflexivity|].
  cbn [keys_unique] in Hk. apply andb_true_iff in Hk. destruct Hk as [Hnd Hk].
  apply bool_decide_eq_true in Hnd. cbn [weight] in Hfuel.
  change (json_dumps depth (PDict (kv :: d)))
    with ([123] ++ newline_indent (S depth)
          ++ json_items (member (S depth)) (S depth) (kv :: d)
          ++ newline_indent depth ++ [125]).
  rewrite <- !app_assoc.
  etransitivity.
  - apply scan_once_dict_text.
    apply starts_value_app, json_items_starts; [discriminate|].
    apply member_starts.
  - apply (JSONObject_items depth rest (kv :: d) Hd);
      [discriminate | exact Hnd | exact Hk | lia].
Qed.

Lemma scan_once_json_dumps v : reads_back v.
Proof.
  induction v using pyval_induction.
  - intros depth [|fuel] rest _ Hf _; [simpl in Hf; lia | reflexivity].
  - intros depth [|fuel] rest _ Hf _; [simpl in Hf; lia |].
    destruct b; reflexivity.
  - apply reads_back_int.
  - apply reads_back_str.
  - now apply reads_back_list.
  - now apply reads_back_dict.
Qed.

(** *** The fuel of [json_loads] *)

Lemma json_items_length {A} (item : A -> str) (g : A -> nat) depth l :
  Forall (fun a => (g a <= S (length (item a)))%nat) l ->
  (list_sum (map g l) <= S (length (json_items item depth l)))%nat.
Proof.
  induction 1 as [|a l Ha Hl IH]; [simpl; lia|].
  cbn [map]. rewrite list_sum_cons. destruct l as [|a' l'].
  - simpl. lia.
  - rewrite json_items_cons, !length_app. cbn [length]. lia.
Qed.

Lemma newline_indent_length k : length (newline_indent k) = S (2 * k).
Proof. unfold newline_indent. simpl length. now rewrite length_replicate. Qed.

Lemma weight_length v : forall depth, (weight v <= length (json_dumps depth v))%nat.
Proof.
  induction v as [| b | z | s | l IH | d IH] using pyval_induction; intros depth.
  - simpl. lia.
  - destruct b; simpl; lia.
  - cbn [weight json_dumps]. unfold int_str.
    pose proof (to_int_normalized z) as Hn.
    destruct (Z.to_int z) as [u|u]; [|simpl; lia].
    destruct Hn as [Hnil _]. destruct (uint_str_head u Hnil) as (c & s & -> & _).
    simpl. lia.
  - cbn [weight json_dumps]. unfold json_string. rewrite !length_app. simpl. lia.
  - destruct l as [|v l]; [simpl; lia|].
    change (json_dumps depth (PList (v :: l)))
      with ([91] ++ newline_indent (S depth)
            ++ json_items (json_dumps (S depth)) (S depth) (v :: l)
            ++ newline_indent depth ++ [93]).
    cbn [weight]. rewrite !length_app.
    pose proof (json_items_length (json_dumps (S depth))
                  (fun x => S (weight x)) (S depth) (v :: l)) as H.
    assert (Hall : Forall (fun a => (S (weight a)
                     <= S (length (json_dumps (S depth) a)))%nat) (v :: l)).
    { eapply Forall_impl; [exact IH|]. intros a Ha. specialize (Ha (S depth)). lia. }
    specialize (H Hall). rewrite !newline_indent_length. cbn [length]. lia.
  - destruct d as [|kv d]; [simpl; lia|].
    change (json_dumps depth (PDict (kv :: d)))
      with ([123] ++ newline_indent (S depth)
            ++ json_items (member (S depth)) (S depth) (kv :: d)
            ++ newline_indent depth ++ [125]).
    cbn [weight]. rewrite !length_app.
    pose proof (json_items_length (member (S depth))
                  (fun kv : str * pyval => let (_, x) := kv in S (weight x))
                  (S depth) (kv :: d)) as H.
    assert (Hall : Forall (fun a : str * pyval =>
               ((let (_, x) := a in S (weight x))
                <= S (length (member (S depth) a)))%nat) (kv :: d)).
    { eapply Forall_impl; [exact IH|]. intros [k x] Ha. cbn [snd] in Ha.
      unfold member. rewrite !length_app. specialize (Ha (S depth)). lia. }
    specialize (H Hall). rewrite !newline_indent_length. cbn [length]. lia.
Qed.

(** Reading back what [json.dump] wrote gives the value that was written. *)
Lemma json_loads_dumps v :
  keys_unique v = true -> json_loads (json_dumps 0 v) = Some v.
Proof.
  intros Hk. unfold json_loads.
  rewrite skip_ws_starts_value by apply json_dumps_starts.
  pose proof (scan_once_json_dumps v 0%nat
                (2 * length (json_dumps 0 v) + 2)%nat [] Hk) as H.
  rewrite app_nil_r in H. rewrite H; [reflexivity | | exact I].
  pose proof (weight_length v 0%nat). lia.
Qed.

End JsonRoundTrip.

Lemma keys_unique_to_dict t :
  track_keys_unique t = true -> keys_unique (to_dict t) = true.
Proof.
  unfold track_keys_unique. rewrite !andb_true_iff.
  intros (((Hn & Ha) & Hd) & Hu). unfold to_dict.
  cbn [keys_unique forallb]. rewrite Hn, Ha, Hd, Hu.
  vm_compute. reflexivity.
Qed.

Lemma keys_unique_json_data playlist tracks exported_at :
  forallb track_keys_unique tracks = true ->
  keys_unique (json_data playlist tracks exported_at) = true.
Proof.
  intros Ht. unfold json_data. cbn [keys_unique forallb].
  assert (Hl : forallb keys_unique (map to_dict tracks) = true).
  { rewrite forallb_forall in *. intros v Hv. apply in_map_iff in Hv.
    destruct Hv as (t & <- & Hin). now apply keys_unique_to_dict, Ht. }
  rewrite Hl. vm_compute. reflexivity.
Qed.

Lemma object_tuple_to_dict t : object_tuple (to_dict t) = Some (track_tuple t).
Proof. reflexivity. Qed.

(** The text of the structured document of a playlist and N Tracks reads
    back, with [json.loads], as an object whose [tracks] array has N
    objects carrying the (name, artist, album, duration_ms, url) tuples
    of the Tracks in the same order, and whose [playlist] summary has
    [track_count] N. *)
Lemma json_document_roundtrip playlist tracks exported_at :
  forallb track_keys_unique tracks = true ->
  exists doc summary objects,
    json_loads (json_document playlist tracks exported_at) = Some (PDict doc)
    /\ dict_get (lit "tracks") doc = Some (PList objects)
    /\ length objects = length tracks
    /\ map object_tuple objects = map (fun t => Some (track_tuple t)) tracks
    /\ dict_get (lit "playlist") doc = Some (PDict summary)
    /\ dict_get (lit "track_count") summary
       = Some (PInt (Z.of_nat (length tracks))).
Proof.
  intros Ht. unfold json_document.
  rewrite json_loads_dumps by now apply keys_unique_json_data.
  unfold json_data. eexists _, _, _.
  split; [reflexivity|]. split; [reflexivity|].
  split; [apply length_map|]. split; [|split; reflexivity].
  rewrite map_map. apply map_ext. intros t. apply object_tuple_to_dict.
Qed.


(** * The properties at concrete inputs *)

(** ** The filename sanitizer *)

Lemma sanitize_filename_spec_road_trip :
  sanitize_filename (lit " Road/Trip: 1?.") = lit "RoadTrip 1"
  /\ forall c, last (sanitize_filename (lit " Road/Trip: 1?.")) = Some c ->
               char_in c (lit ". ") = false.
Proof.
  split; [reflexivity|].
  apply (sanitize_filename_spec (lit " Road/Trip: 1?.")).
  vm_compute. lia.
Defined.

Example sanitize_road_trip :
  sanitize_filename (lit "Road/Trip: 1?") = lit "RoadTrip 1".
Proof. reflexivity. Qed.

Example sanitize_all_forbidden :
  sanitize_filename (lit "<>:/\|?*") = lit "playlist".
Proof. reflexivity. Qed.

Example sanitize_filename_long_name_text :
  sanitize_filename long_name = replicate 199 97%N ++ lit " ".
Proof. vm_compute. reflexivity. Qed.

(** ** Texts *)

Example int_str_examples :
  int_str 0%Z = lit "0" /\ int_str 1800%Z = lit "1800" /\ int_str (-42)%Z = lit "-42"
  /\ zpad 2 7 = lit "07" /\ zpad 4 2024 = lit "2024".
Proof. repeat split; reflexivity. Qed.

Example strftime_noon :
  strftime_compact noon = lit "20240517_120009"
  /\ strftime_readable noon = lit "2024-05-17 12:00:09"
  /\ isoformat noon = lit "2024-05-17T12:00:09.000250".
Proof. repeat split; reflexivity. Qed.

(** ** Normalization *)

Lemma process_item_defaults_nameless :
  exists s',
    process_item repr_unused (PDict nameless_item) [] initial
    = (Ok ([] ++ [documented_track nameless_record]), s')
    /\ populated (documented_track nameless_record) = true
    /\ (s' = initial
        \/ url (documented_track nameless_record)
           = PStr (lit "https://open.spotify.com")
           /\ s' = snd (logger WARNING (No_Spotify_URL_found_for_track
                          (name (documented_track nameless_record))) initial)).
Proof.
  apply (process_item_defaults repr_unused nameless_item nameless_record [] initial).
  - reflexivity.
  - discriminate.
  - reflexivity.
Defined.

(** C2, as stated, fails on a record that is present and empty: Python
    takes the empty mapping for false, line 785 skips it, and no Track is
    produced. *)
Lemma process_item_empty_record :
  ~ (exists t s',
       process_item repr_unused (PDict empty_record_item) [] initial
       = (Ok [t], s')).
Proof. intros (t & s' & H). vm_compute in H. discriminate H. Qed.

(** C9, as stated, fails on a record whose ID cannot be recovered: the
    record of [nameless_item] has no id and no external URL, and it is
    not skipped, its Track has the service root as url. *)
Lemma process_item_without_id :
  ~ (exists s',
       process_item repr_unused (PDict nameless_item) [] initial = (Ok [], s')).
Proof. intros (s' & H). vm_compute in H. discriminate H. Qed.

Example process_item_without_id_track :
  fst (process_item repr_unused (PDict nameless_item) [] initial)
  = Ok [ {| name := PStr (lit "Intro"); artist := lit "Unknown Artist";
            album := PStr (lit "Unknown Album"); duration_ms := PInt 0;
            url := PStr (lit "https://open.spotify.com") |} ].
Proof. reflexivity. Qed.

Example process_item_song :
  fst (process_item repr_unused (song "Open Road" "4uLU6hMCjMI7") [] initial)
  = Ok [song_track "Open Road" "4uLU6hMCjMI7"].
Proof. reflexivity. Qed.

(** ** Chunking *)

Lemma discord_messages_chunks_sixty :
  exists groups : list (list str),
    discord_messages repr_unused road_trip sixty_tracks
    = discord_header road_trip sixty_tracks :: map (@concat char) groups
    /\ concat groups = numbered_lines repr_unused 1 sixty_tracks
    /\ 1 < length groups
    /\ Forall (fun g => 0 < length (concat g) <= 1800) groups.
Proof.
  apply (discord_messages_chunks repr_unused road_trip sixty_tracks).
  - apply Forall_forall. intros l Hl. apply list_elem_of_In in Hl.
    assert (H : forallb (fun l => length l <=? 1800)
                  (numbered_lines repr_unused 1 sixty_tracks) = true)
      by (vm_compute; reflexivity).
    rewrite forallb_forall in H. apply Nat.leb_le, H, Hl.
  - vm_compute. lia.
Defined.

(** ** The structured document *)

Lemma json_document_roundtrip_road_trip :
  exists doc summary objects,
    json_loads (json_document road_trip
                  [song_track "Open Road" "4uLU6hMCjMI7"; long_track] noon)
    = Some (PDict doc)
    /\ dict_get (lit "tracks") doc = Some (PList objects)
    /\ length objects = 2
    /\ map object_tuple objects
       = map (fun t => Some (track_tuple t))
           [song_track "Open Road" "4uLU6hMCjMI7"; long_track]
    /\ dict_get (lit "playlist") doc = Some (PDict summary)
    /\ dict_get (lit "track_count") summary = Some (PInt 2).
Proof.
  apply (json_document_roundtrip road_trip
           [song_track "Open Road" "4uLU6hMCjMI7"; long_track] noon).
  reflexivity.
Defined.



(** ** File names *)

(** A year before 1000 is written with the digits it has. *)
Example strftime_compact_year_999 :
  strftime_compact noon_999 = lit "9990517_120009"
  /\ export_filename road_trip (strftime_compact noon_999) (lit "json")
     = lit "Road Trip_9990517_120009.json".
Proof. split; reflexivity. Qed.

Lemma export_filename_same_mix :
  export_filename mix_question (strftime_compact noon) (lit "csv")
  = export_filename mix_star (strftime_compact noon) (lit "csv").
Proof.
  apply (export_filename_same mix_question mix_star noon noon (lit "csv"));
    [reflexivity | reflexivity |].
  repeat split; reflexivity.
Defined.

(** ** Runs *)

(** C7, as stated, fails in one run: [mix_question] and [mix_star] are
    two playlists of one run, exported within the same second; both
    exports produce the same path, and the second file replaces the
    first. *)
Lemma run_same_name_collision :
  ~ (NoDup (playlists (worker CSV remote_one_page [mix_question; mix_star])) ->
     NoDup (exported_files
              (snd (run repr_unused calm
                      (worker CSV remote_one_page [mix_question; mix_star])
                      initial)))).
Proof.
  intros H.
  assert (Hp : NoDup (playlists (worker CSV remote_one_page [mix_question; mix_star]))).
  { simpl. apply NoDup_cons. split; [|apply NoDup_singleton].
    rewrite list_elem_of_singleton. discriminate. }
  specialize (H Hp).
  assert (E : exported_files
                (snd (run repr_unused calm
                        (worker CSV remote_one_page [mix_question; mix_star])
                        initial))
              = [ (lit "/home/ana/Downloads", lit "Mix_20240517_120009.csv");
                  (lit "/home/ana/Downloads", lit "Mix_20240517_120009.csv") ])
    by (vm_compute; reflexivity).
  rewrite E in H. apply NoDup_cons in H. destruct H as [H _].
  apply H. apply list_elem_of_singleton. reflexivity.
Qed.

Example run_same_name_one_file :
  size (files (snd (run repr_unused calm
                      (worker CSV remote_one_page [mix_question; mix_star])
                      initial))) = 1.
Proof. vm_compute. reflexivity. Qed.

Lemma run_page_fetch_failure_chill :
  exists s',
    run repr_unused calm (worker CSV remote [road_trip; chill; focus]) initial
    = (Ok Failed, s')
    /\ signals s'
       = [ progress_of 0 3 (lit "Exporting: Road Trip");
           progress_of 1 3 (lit "Exporting: Chill");
           error (lit "http status: 502") ]
    /\ exported_files s'
       = [ (lit "/home/ana/Downloads", lit "Road Trip_20240517_120009.csv") ]
    /\ size (files s') = 1
    /\ posted s' = [].
Proof.
  destruct (run_page_fetch_failure repr_unused calm
              (worker CSV remote [road_trip; chill; focus])
              [road_trip] chill [focus] bad_gateway
              (snd (for_playlists repr_unused calm
                      (worker CSV remote [road_trip; chill; focus]) 3 0
                      [road_trip] initial)))
    as (s' & Hrun & Hsig & Hx & Hf & Hp).
  - reflexivity.
  - vm_compute. reflexivity.
  - reflexivity.
  - apply fails_next.
  - reflexivity.
  - exists s'. split; [exact Hrun|].
    rewrite Hsig, Hx, Hf, Hp. repeat split; vm_compute; reflexivity.
Defined.

(** The replaced [get_playlist_tracks] of lines 576-651 on the same
    listing: the failure is logged and the track of the first page is
    returned. *)
Example get_playlist_tracks_replaced_chill :
  let r := get_playlist_tracks_replaced repr_unused calm
             (worker CSV remote [road_trip; chill; focus]) (id chill) initial in
  fst r = Ok [song_track "Slow" "2takcwOaAZWi"]
  /\ log (snd r) = [(ERROR, Failed_to_get_next_page bad_gateway)].
Proof. split; vm_compute; reflexivity. Qed.

Example get_playlist_tracks_chill :
  fst (get_playlist_tracks repr_unused calm
         (worker CSV remote [road_trip; chill; focus]) (id chill) initial)
  = Raise bad_gateway.
Proof. vm_compute. reflexivity. Qed.

Lemma run_cancelled_at_boundary_after_first :
  exists s',
    run repr_unused cancelled_after_first
      (worker CSV remote_one_page [road_trip; chill; focus]) initial
    = (Ok Cancelled, s')
    /\ exported_files s'
       = [ (lit "/home/ana/Downloads", lit "Road Trip_20240517_120009.csv") ]
    /\ size (files s') = 1
    /\ signals s' = [ progress_of 0 3 (lit "Exporting: Road Trip") ]
    /\ files_listed s'.
Proof.
  destruct (run_cancelled_at_boundary repr_unused cancelled_after_first
              (worker CSV remote_one_page [road_trip; chill; focus])
              [road_trip] chill [focus]
              (snd (for_playlists repr_unused cancelled_after_first
                      (worker CSV remote_one_page [road_trip; chill; focus])
                      3 0 [road_trip] initial))
              2)
    as (s' & Hrun & Hx & Hf & Hp & Hsig & Hprog & Hlisted & Hlog).
  - reflexivity.
  - vm_compute. reflexivity.
  - reflexivity.
  - vm_compute. lia.
  - exists s'. split; [exact Hrun|].
    rewrite Hx, Hf, Hsig. repeat split; try (vm_compute; reflexivity).
    + apply (proj1 (Hlisted f)).
    + apply (proj2 (Hlisted f)).
Defined.

Lemma run_discord_finished_empty_calm :
  exported_files
    (snd (run repr_unused calm
            (worker DISCORD remote_one_page [road_trip; focus]) initial)) = []
  /\ files
       (snd (run repr_unused calm
               (worker DISCORD remote_one_page [road_trip; focus]) initial)) = ∅
  /\ exists sigs,
       signals
         (snd (run repr_unused calm
                 (worker DISCORD remote_one_page [road_trip; focus]) initial))
       = sigs ++ [progress 100 (lit "Export completed"); finished []]
       /\ forallb is_progress_of sigs = true.
Proof.
  apply (run_discord_finished_empty repr_unused calm
           (worker DISCORD remote_one_page [road_trip; focus])).
  - reflexivity.
  - vm_compute. reflexivity.
Defined.

Lemma run_webhook_post_refused_first :
  exists s',
    run repr_unused refusing
      (worker DISCORD remote_one_page [road_trip; focus]) initial
    = (Ok Failed, s')
    /\ signals s'
       = [ progress_of 0 2 (lit "Exporting: Road Trip");
           error (lit "Failed to send to Discord: 500") ]
    /\ posted s'
       = [ discord_header road_trip [song_track "Open Road" "4uLU6hMCjMI7"] ]
    /\ exported_files s' = []
    /\ files s' = ∅.
Proof.
  destruct (run_webhook_post_refused repr_unused refusing
              (worker DISCORD remote_one_page [road_trip; focus])
              [] road_trip [focus] [song_track "Open Road" "4uLU6hMCjMI7"]
              initial 0
              (discord_header road_trip [song_track "Open Road" "4uLU6hMCjMI7"])
              500%Z)
    as (s' & Hrun & Hsig & Hp & Hx & Hf).
  - reflexivity.
  - discriminate.
  - reflexivity.
  - reflexivity.
  - reflexivity.
  - intros s. reflexivity.
  - discriminate.
  - reflexivity.
  - intros i m' Hi. lia.
  - reflexivity.
  - discriminate.
  - discriminate.
  - exists s'. split; [exact Hrun|].
    rewrite Hsig, Hp, Hx, Hf. repeat split; vm_compute; reflexivity.
Defined.

(** C8, as stated, fails on a run of two playlists whose first post is
    answered with status 500: the run ends there, and nothing of the
    second playlist, [focus], is posted. *)
Lemma run_webhook_refused_stops_siblings :
  ~ (In (error (lit "Failed to send to Discord: 500"))
       (signals (snd (run repr_unused refusing
                        (worker DISCORD remote_one_page [road_trip; focus])
                        initial)))
     /\ In (discord_header focus [song_track "Open Road" "4uLU6hMCjMI7"])
          (posted (snd (run repr_unused refusing
                          (worker DISCORD remote_one_page [road_trip; focus])
                          initial)))).
Proof.
  intros [_ H]. vm_compute in H. destruct H as [H | []]. discriminate H.
Qed.

(** * Further properties of the worker *)

(** ** Names the sanitizer leaves as they are *)

Lemma re_sub_class_none cls s :
  (forall c, In c s -> cls c = false) -> re_sub_class cls s = s.
Proof.
  unfold re_sub_class. induction s as [|c s IH]; intros H; simpl; [reflexivity|].
  rewrite (H c) by now left. simpl. f_equal. apply IH. intros c' Hc'. apply H. now right.
Qed.

Lemma lstrip_none chars s :
  (forall c, head s = Some c -> char_in c chars = false) -> lstrip chars s = s.
Proof.
  destruct s as [|c s]; intros H; simpl; [reflexivity|].
  now rewrite (H c eq_refl).
Qed.

Lemma head_rev {A} (l : list A) : head (rev l) = last l.
Proof. rewrite <- (rev_involutive l) at 2. symmetry. apply last_rev. Qed.

Lemma rstrip_none chars s :
  (forall c, last s = Some c -> char_in c chars = false) -> rstrip chars s = s.
Proof.
  intros H. unfold rstrip. rewrite lstrip_none; [apply rev_involutive|].
  intros c Hc. apply H. now rewrite <- head_rev.
Qed.

Lemma sanitize_filename_nonempty filename : sanitize_filename filename <> [].
Proof.
  unfold sanitize_filename.
  destruct (sanitize_stripped filename) as [|c t]; discriminate.
Qed.

Lemma sanitize_filename_length filename : length (sanitize_filename filename) <= 200.
Proof.
  unfold sanitize_filename.
  destruct (sanitize_stripped filename) as [|c t]; [vm_compute; lia|].
  rewrite length_take. lia.
Qed.

Lemma sanitize_filename_chars filename c :
  In c (sanitize_filename filename) ->
  forbidden_char c = false /\ control_char c = false.
Proof.
  unfold sanitize_filename.
  destruct (sanitize_stripped filename) as [|c0 t] eqn:E; intros Hc.
  - vm_compute in Hc.
    repeat (destruct Hc as [<-|Hc]; [split; reflexivity|]). destruct Hc.
  - apply In_take in Hc. rewrite <- E in Hc.
    apply sanitize_stripped_chars in Hc. tauto.
Qed.

Lemma sanitize_filename_head filename c :
  head (sanitize_filename filename) = Some c -> char_in c (lit ". ") = false.
Proof.
  unfold sanitize_filename.
  destruct (sanitize_stripped_spec filename) as (_ & _ & _ & _ & _ & Hhd & _).
  destruct (sanitize_stripped filename) as [|c0 t]; intros [= <-];
    [reflexivity | now apply Hhd].
Qed.

(** X1: the names [sanitize_filename] returns as they are are exactly the
    names that are not empty, have at most 200 characters, hold no
    forbidden and no control character, and neither start nor end with a
    period or a space. *)
Theorem sanitize_filename_unchanged (filename : str) :
  sanitize_filename filename = filename
  <-> filename <> [] /\ length filename <= 200
      /\ (forall c, In c filename ->
            forbidden_char c = false /\ control_char c = false)
      /\ (forall c, head filename = Some c -> char_in c (lit ". ") = false)
      /\ (forall c, last filename = Some c -> char_in c (lit ". ") = false).
Proof.
  split.
  - intros H.
    assert (Hchars : forall c, In c filename ->
              forbidden_char c = false /\ control_char c = false).
    { intros c Hc. rewrite <- H in Hc. now apply sanitize_filename_chars in Hc. }
    split; [rewrite <- H; apply sanitize_filename_nonempty|].
    split; [rewrite <- H; apply sanitize_filename_length|].
    split; [exact Hchars|].
    split; [intros c Hc; rewrite <- H in Hc; now apply sanitize_filename_head in Hc|].
    assert (Hs : sanitize_stripped filename = strip (lit ". ") filename).
    { unfold sanitize_stripped. rewrite !re_sub_class_none; [reflexivity | |].
      - intros c Hc. now apply Hchars.
      - intros c Hc. rewrite re_sub_class_none in Hc; [now apply Hchars|].
        intros c' Hc'. now apply Hchars. }
    destruct (strip_spec (lit ". ") filename) as (pre & post & E & _ & _ & _ & Hlast).
    unfold sanitize_filename in H. rewrite Hs in H.
    destruct (strip (lit ". ") filename) as [|c0 t] eqn:Et.
    + rewrite <- H. intros c [= <-]. reflexivity.
    + assert (Hlen : length filename <= length (c0 :: t)).
      { rewrite <- H at 1. rewrite length_take. lia. }
      rewrite E in Hlen. rewrite !length_app in Hlen.
      destruct pre; [|simpl in Hlen; lia]. destruct post; [|simpl in Hlen; lia].
      simpl in E. rewrite app_nil_r in E. rewrite E. exact Hlast.
  - intros (Hne & Hlen & Hchars & Hhd & Hlast).
    assert (Hs : sanitize_stripped filename = filename).
    { unfold sanitize_stripped. rewrite !re_sub_class_none.
      - unfold strip. rewrite (lstrip_none _ _ Hhd). now apply rstrip_none.
      - intros c Hc. now apply Hchars.
      - intros c Hc. rewrite re_sub_class_none in Hc; [now apply Hchars|].
        intros c' Hc'. now apply Hchars. }
    unfold sanitize_filename. rewrite Hs.
    destruct filename as [|c0 t]; [congruence|]. now apply take_ge.
Qed.

(** ** The names of the files *)








(** ** What every run does *)

Section Runs.

Variable py_repr : pyval -> str.

Global Instance writes_clean_paths_preorder self : PreOrder (writes_clean_paths self).
Proof.
  split.
  - intros s path H. now left.
  - intros s1 s2 s3 H12 H23 path H.
    destruct (H23 path H) as [H2 | Hc]; [now apply H12 | now right].
Qed.








(** The loop is left by the [return] of line 541 right after the record
    of the cancellation. *)
Lemma for_playlists_cancelled_log w self total todo : forall i s s1,
  for_playlists py_repr w self total i todo s = (Ok true, s1) ->
  last (log s1) = Some (INFO, Export_cancelled_by_user).
Proof.
  induction todo as [|playlist rest IH]; intros i s s1 H.
  - discriminate H.
  - cbn [for_playlists] in H. apply bind_inv in H.
    destruct H as (c & s2 & _ & H). destruct c.
    + injection H as <-. apply last_snoc.
    + apply bind_inv in H. destruct H as (u & s3 & _ & H). eapply IH, H.
Qed.

(** The three ends of [run] and what each leaves in the state. *)
Lemma run_ends w self s :
  match for_playlists py_repr w self (length (playlists self)) 0 (playlists self) s with
  | (Ok true, s1) => run py_repr w self s = (Ok Cancelled, s1)
  | (Ok false, s1) =>
      run py_repr w self s
      = (Ok Completed,
         {| exported_files := exported_files s1;
            signals := signals s1 ++ [progress 100 (lit "Export completed");
                                      finished (exported_files s1)];
            log := log s1; files := files s1; posted := posted s1;
            polls := polls s1; clock_reads := clock_reads s1 |})
  | (Raise e, s1) =>
      run py_repr w self s
      = (Ok Failed,
         {| exported_files := exported_files s1;
            signals := signals s1 ++ [error (exn_str e)];
            log := log s1 ++ [(ERROR, Export_error e)];
            files := files s1; posted := posted s1;
            polls := polls s1; clock_reads := clock_reads s1 |})
  end.
Proof.
  unfold run, try_except, bind.
  destruct (for_playlists py_repr w self (length (playlists self)) 0
              (playlists self) s) as [[[|]|e] s1]; try reflexivity.
  simpl. now rewrite <- app_assoc.
Qed.


(** X4: a run never raises, and it ends in exactly one of three ways: after
    the loop, with [progress(100)] and then [finished] carrying the
    attribute [exported_files]; by the [return] of line 541, with no
    signal after the [progress] signals of the playlists; or in the
    [except] clause, with one [error] signal carrying the text of the
    exception, which is also logged.  In each case the files in
    [exported_files] are on disk.  In the first two cases they are all
    the files the run has written; a run that ends in the [except]
    clause may leave a file that is not in [exported_files], the one
    whose writing raised. *)
Theorem run_ends_with_one_signal w self :
  exists ex s' sigs,
    run py_repr w self initial = (Ok ex, s')
    /\ forallb is_progress_of sigs = true
    /\ files_on_disk s'
    /\ match ex with
       | Completed =>
           signals s' = sigs ++ [progress 100 (lit "Export completed");
                                 finished (exported_files s')]
           /\ files_listed s'
       | Cancelled =>
           signals s' = sigs
           /\ last (log s') = Some (INFO, Export_cancelled_by_user)
           /\ files_listed s'
       | Failed =>
           exists e, signals s' = sigs ++ [error (exn_str e)]
                     /\ last (log s') = Some (ERROR, Export_error e)
       end.
Proof.
  pose proof (run_ends w self initial) as Hends.
  assert (Hinitial : files_on_disk initial).
  { intros f Hf. now apply files_listed_initial. }
  destruct (for_playlists py_repr w self (length (playlists self)) 0
              (playlists self) initial) as [[[|]|e] s1] eqn:Eloop;
    pose proof (preserves_for_playlists _ _ _ _ _ _ _ _ _ Eloop)
      as ((sigs & Hsigs & Hprog) & Hdisk & _);
    specialize (Hdisk Hinitial); simpl in Hsigs.
  - pose proof (listed_for_playlists _ _ _ _ _ _ _ _ _ Eloop files_listed_initial)
      as Hlisted.
    exists Cancelled, s1, sigs. split; [exact Hends|].
    split; [exact Hprog|]. split; [exact Hdisk|].
    split; [exact Hsigs|]. split; [|exact Hlisted].
    eapply for_playlists_cancelled_log, Eloop.
  - pose proof (listed_for_playlists _ _ _ _ _ _ _ _ _ Eloop files_listed_initial)
      as Hlisted.
    eexists Completed, _, sigs. split; [exact Hends|].
    split; [exact Hprog|]. split; [exact Hdisk|].
    split; [simpl; now rewrite Hsigs | exact Hlisted].
  - eexists Failed, _, sigs. split; [exact Hends|].
    split; [exact Hprog|]. split; [exact Hdisk|]. exists e. simpl.
    split; [now rewrite Hsigs | apply last_snoc].
Qed.

End Runs.

(** ** What the walker leaves as it is *)

Global Instance logs_only_preorder allowed : PreOrder (logs_only allowed).
Proof.
  split.
  - intros s. exists []. split; [now rewrite app_nil_r | reflexivity].
  - intros s1 s2 s3 (l1 & E1 & H1) (l2 & E2 & H2). exists (l1 ++ l2).
    split; [rewrite E2, E1; now rewrite app_assoc|].
    now rewrite forallb_app, H1, H2.
Qed.

Global Instance same_polls_preorder : PreOrder same_polls.
Proof. split; [intros s; reflexivity | intros s1 s2 s3; unfold same_polls; congruence]. Qed.

Global Instance same_clock_preorder : PreOrder same_clock.
Proof. split; [intros s; reflexivity | intros s1 s2 s3; unfold same_clock; congruence]. Qed.

Lemma logs_only_logger allowed l m :
  allowed m = true -> preserves (logs_only allowed) (logger l m).
Proof.
  intros H s r s' [= _ <-]. exists [(l, m)]. simpl. now rewrite H.
Qed.

Lemma logs_only_is_cancelled allowed w :
  preserves (logs_only allowed) (is_cancelled w).
Proof.
  intros s r s' [= _ <-]. exists []. split; [simpl; now rewrite app_nil_r | reflexivity].
Qed.

Section Walker.

Variable py_repr : pyval -> str.

(** A relation that the records of the walker and the reading of the
    flag keep is kept by the walker. *)
Section WalkerFrames.

Context (R : state -> state -> Prop) `{!PreOrder R}.

Hypothesis R_no_url : forall l n,
  preserves R (logger l (No_Spotify_URL_found_for_track n)).
Hypothesis R_skip : forall l m, skip_record m = true -> preserves R (logger l m).
Hypothesis R_is_cancelled : forall w, preserves R (is_cancelled w).

Ltac frame :=
  repeat first
    [ apply preserves_ret | apply preserves_raise | apply preserves_lift
    | apply R_no_url | apply R_skip; reflexivity
    | apply preserves_bind; [typeclasses eauto | | intros ?]
    | apply preserves_try_except; [typeclasses eauto | | intros ?]
    | match goal with
      | |- preserves _ (if ?b then _ else _) => destruct b
      | |- preserves _ (match ?x with _ => _ end) => destruct x
      end ]; try typeclasses eauto.

Lemma frame_normalize lvl track tracks :
  preserves R (normalize py_repr lvl track tracks).
Proof using R_no_url PreOrder0. unfold normalize. frame. Qed.

Lemma frame_process_item item tracks :
  preserves R (process_item py_repr item tracks).
Proof using R_no_url R_skip PreOrder0.
  unfold process_item.
  apply preserves_bind; [typeclasses eauto | apply preserves_lift; typeclasses eauto|].
  intros track. destruct (negb (truthy track)); [frame|].
  apply preserves_try_except; [typeclasses eauto | apply frame_normalize|].
  intros e. frame.
Qed.

Lemma frame_for_items w items : forall tracks,
  preserves R (for_items py_repr w items tracks).
Proof using R_no_url R_skip R_is_cancelled PreOrder0.
  induction items as [|item rest IH]; intros tracks; simpl.
  - apply preserves_ret; typeclasses eauto.
  - apply preserves_bind; [typeclasses eauto | apply R_is_cancelled |].
    intros [|]; [apply preserves_ret; typeclasses eauto|].
    apply preserves_bind;
      [typeclasses eauto | apply frame_process_item | intros; apply IH].
Qed.

Lemma frame_walk_pages w results : forall tracks,
  preserves R (walk_pages py_repr w results tracks).
Proof using R_no_url R_skip R_is_cancelled PreOrder0.
  induction results as [e | | items | items f IH] using fetch_induction;
    intros tracks; simpl.
  - apply preserves_raise; typeclasses eauto.
  - apply preserves_ret; typeclasses eauto.
  - apply preserves_bind; [typeclasses eauto | apply frame_for_items |].
    intros [[|] ?]; apply preserves_ret; typeclasses eauto.
  - apply preserves_bind; [typeclasses eauto | apply frame_for_items |].
    intros [[|] ?]; [apply preserves_ret; typeclasses eauto | apply IH].
Qed.

End WalkerFrames.

(** The walker logs records of its own only. *)
Lemma logs_only_walk_pages w results tracks :
  preserves (logs_only walker_record) (walk_pages py_repr w results tracks).
Proof.
  apply frame_walk_pages; [typeclasses eauto | | |].
  - intros l n. now apply logs_only_logger.
  - intros l m Hm. apply logs_only_logger. destruct m; try discriminate Hm; reflexivity.
  - intros w0. apply logs_only_is_cancelled.
Qed.

(** The body of the [try] logs at most that no URL was found. *)
Lemma normalize_logs_no_skip lvl track tracks :
  preserves (logs_only (fun m => walker_record m && negb (skip_record m)))
    (normalize py_repr lvl track tracks).
Proof.
  apply frame_normalize; [typeclasses eauto|].
  intros l n. now apply logs_only_logger.
Qed.

(** The walker does not read the clock, and the normalization of a
    record does not read the flag. *)
Lemma same_clock_walk_pages w results tracks :
  preserves same_clock (walk_pages py_repr w results tracks).
Proof.
  apply frame_walk_pages; [typeclasses eauto | | |];
    intros; intros s r s' [= _ <-]; reflexivity.
Qed.

Lemma same_polls_normalize lvl track tracks :
  preserves same_polls (normalize py_repr lvl track tracks).
Proof.
  apply frame_normalize; [typeclasses eauto|].
  intros; intros s r s' [= _ <-]; reflexivity.
Qed.

(** ** Pages *)

Lemma for_items_app w items1 items2 : forall tracks s,
  for_items py_repr w (items1 ++ items2) tracks s
  = match for_items py_repr w items1 tracks s with
    | (Ok (false, tracks1), s1) => for_items py_repr w items2 tracks1 s1
    | other => other
    end.
Proof.
  induction items1 as [|item rest IH]; intros tracks s; [reflexivity|].
  cbn [for_items app]. unfold bind at 1 3.
  destruct (is_cancelled w s) as [[[|]|e] s1]; try reflexivity.
  unfold bind.
  destruct (process_item py_repr item tracks s1) as [[tracks1|e] s2];
    [apply IH | reflexivity].
Qed.

(** When no page request raises, the walker does on the pages of a
    listing what it does on one page that holds all their items. *)
Lemma walk_pages_flat w results : forall tracks s,
  fetch_ok results = true ->
  walk_pages py_repr w results tracks s
  = walk_pages py_repr w (Fetch_page (pages_items results) None) tracks s.
Proof.
  induction results as [e | | items | items f IH] using fetch_induction;
    intros tracks s Hok.
  - discriminate Hok.
  - reflexivity.
  - reflexivity.
  - cbn [fetch_ok] in Hok. cbn [walk_pages pages_items]. unfold bind.
    rewrite for_items_app.
    destruct (for_items py_repr w items tracks s) as [[[[|] tracks1]|e] s1];
      try reflexivity.
    cbn [fst snd]. rewrite (IH tracks1 s1 Hok). reflexivity.
Qed.

(** X5: the page boundaries of a listing do not matter: two listings whose
    page requests do not raise and whose pages hold the same items in the
    same order give the same Tracks and leave the same state, however the
    items are split into pages. *)
Theorem get_playlist_tracks_pages w self self' playlist_id s :
  fetch_ok (sp self playlist_id) = true ->
  fetch_ok (sp self' playlist_id) = true ->
  pages_items (sp self playlist_id) = pages_items (sp self' playlist_id) ->
  get_playlist_tracks py_repr w self playlist_id s
  = get_playlist_tracks py_repr w self' playlist_id s.
Proof.
  intros Hok Hok' Hitems. unfold get_playlist_tracks.
  rewrite (walk_pages_flat w _ [] s Hok), (walk_pages_flat w _ [] s Hok').
  now rewrite Hitems.
Qed.

End Walker.

(** ** Every item of a listing is accounted for *)

Lemma count_records_app p l1 l2 :
  count_records p (l1 ++ l2) = count_records p l1 + count_records p l2.
Proof. unfold count_records. now rewrite List.filter_app, length_app. Qed.

Lemma count_records_none (allowed p : log_msg -> bool) l :
  (forall m, allowed m = true -> p m = false) ->
  forallb (fun r : level * log_msg => allowed (snd r)) l = true ->
  count_records p l = 0.
Proof.
  intros Hp. unfold count_records. induction l as [|r l IH]; simpl; [reflexivity|].
  intros H. apply andb_true_iff in H. destruct H as [Hr Hl].
  rewrite (Hp _ Hr). now apply IH.
Qed.

Section Accounts.

Variable py_repr : pyval -> str.

(** An item that is a mapping gives one Track or one record of a skipped
    item. *)
Lemma process_item_accounts fields tracks s :
  exists tracks' s' l,
    process_item py_repr (PDict fields) tracks s = (Ok tracks', s')
    /\ log s' = log s ++ l
    /\ length tracks' + count_records skip_record l = S (length tracks).
Proof.
  unfold process_item. cbn [py_get]. erewrite bind_ok by reflexivity.
  destruct (truthy (field (lit "track") PNone fields)); cbn [negb].
  - unfold try_except.
    destruct (normalize py_repr WARNING (field (lit "track") PNone fields) tracks s)
      as [[tracks1|e] s1] eqn:Hn.
    + destruct (normalize_logs_no_skip py_repr _ _ _ _ _ _ Hn) as (l & Hl & Hall).
      assert (Hnone : count_records skip_record l = 0).
      { apply (count_records_none
                 (fun m => walker_record m && negb (skip_record m))); [|exact Hall].
        intros m Hm. apply andb_true_iff in Hm. now apply negb_true_iff, Hm. }
      exists tracks1, s1, l. split; [reflexivity|]. split; [exact Hl|].
      rewrite Hnone.
      destruct (normalize_result py_repr WARNING
                  (field (lit "track") PNone fields) tracks s)
        as [(t & s2 & Hn2) | (e & s2 & Hn2)]; [|congruence].
      rewrite Hn2 in Hn. injection Hn as <- _. rewrite length_app. simpl. lia.
    + destruct (normalize_logs_no_skip py_repr _ _ _ _ _ _ Hn) as (l & Hl & Hall).
      assert (Hnone : count_records skip_record l = 0).
      { apply (count_records_none
                 (fun m => walker_record m && negb (skip_record m))); [|exact Hall].
        intros m Hm. apply andb_true_iff in Hm. now apply negb_true_iff, Hm. }
      destruct (is_KeyError e).
      * eexists tracks, _, (l ++ [_]). split; [reflexivity|]. simpl.
        split; [rewrite Hl; now rewrite <- app_assoc|].
        rewrite count_records_app, Hnone. unfold count_records. simpl. lia.
      * eexists tracks, _, (l ++ [_]). split; [reflexivity|]. simpl.
        split; [rewrite Hl; now rewrite <- app_assoc|].
        rewrite count_records_app, Hnone. unfold count_records. simpl. lia.
  - eexists tracks, _, [_]. split; [reflexivity|]. split; [reflexivity|].
    unfold count_records. simpl. lia.
Qed.

Lemma for_items_accounts w items : forall tracks s,
  cancel_at w = None ->
  forallb is_dict items = true ->
  exists tracks' s' l,
    for_items py_repr w items tracks s = (Ok (false, tracks'), s')
    /\ log s' = log s ++ l
    /\ length tracks' + count_records skip_record l
       = length tracks + length items.
Proof.
  induction items as [|item rest IH]; intros tracks s Hc Hd.
  - exists tracks, s, []. split; [reflexivity|].
    split; [now rewrite app_nil_r | unfold count_records; simpl; lia].
  - simpl in Hd. apply andb_true_iff in Hd. destruct Hd as [Hitem Hrest].
    destruct item as [| | | | |fields]; try discriminate Hitem.
    cbn [for_items]. erewrite bind_ok by (apply is_cancelled_never, Hc).
    destruct (process_item_accounts fields tracks
                {| exported_files := exported_files s; signals := signals s;
                   log := log s; files := files s; posted := posted s;
                   polls := S (polls s); clock_reads := clock_reads s |})
      as (tracks1 & s1 & l1 & Hp & Hl1 & Hn1).
    erewrite bind_ok by exact Hp.
    destruct (IH tracks1 s1 Hc Hrest) as (tracks2 & s2 & l2 & Hf & Hl2 & Hn2).
    exists tracks2, s2, (l1 ++ l2). split; [exact Hf|].
    split; [rewrite Hl2, Hl1; simpl; now rewrite app_assoc|].
    rewrite count_records_app. simpl length. lia.
Qed.

Lemma walk_pages_accounts w results tracks s :
  cancel_at w = None ->
  fetch_ok results = true ->
  forallb is_dict (pages_items results) = true ->
  exists tracks' s' l,
    walk_pages py_repr w results tracks s = (Ok tracks', s')
    /\ log s' = log s ++ l
    /\ length tracks' + count_records skip_record l
       = length tracks + length (pages_items results).
Proof.
  intros Hc Hok Hd. rewrite (walk_pages_flat py_repr w _ tracks s Hok).
  destruct (for_items_accounts w _ tracks s Hc Hd) as (tracks' & s' & l & Hf & Hl & Hn).
  exists tracks', s', l. split; [|split; [exact Hl | exact Hn]].
  cbn [walk_pages]. erewrite bind_ok by exact Hf. reflexivity.
Qed.

(** X6: every item of a listing is accounted for: when the run is not
    cancelled, no page request raises and the items are mappings, the
    walker returns, and the Tracks it returns and the records of skipped
    items it has logged are together as many as the items of all the
    pages. *)
Theorem get_playlist_tracks_accounts w self playlist_id s :
  cancel_at w = None ->
  fetch_ok (sp self playlist_id) = true ->
  forallb is_dict (pages_items (sp self playlist_id)) = true ->
  exists tracks s' l,
    get_playlist_tracks py_repr w self playlist_id s = (Ok tracks, s')
    /\ log s' = log s ++ l
    /\ length tracks + count_records skip_record l
       = length (pages_items (sp self playlist_id)).
Proof.
  intros Hc Hok Hd. now apply (walk_pages_accounts w _ [] s).
Qed.

End Accounts.

Section Outcomes.

Variable py_repr : pyval -> str.

(** ** A run in which nothing fails *)

(** The branch of lines 556-567 for a file format, when the file opens
    and takes what is written: one file is written, listed and logged. *)
Lemma export_file_written w self playlist tracks s :
  (forall path, open_fails w path = None) ->
  (forall path c, write_fails w path c = None) ->
  (forall k, encodable (export_document py_repr (export_format self)
                          playlist tracks (now w k)) = true) ->
  export_format self <> DISCORD ->
  exists s' path c,
    match export_format self with
    | DISCORD => export_to_discord py_repr w self playlist tracks
    | CSV => filepath <- export_to_csv w self playlist tracks ;;
             exported_files_append filepath
    | JSON => filepath <- export_to_json w self playlist tracks ;;
              exported_files_append filepath
    | TXT => filepath <- export_to_txt py_repr w self playlist tracks ;;
             exported_files_append filepath
    | MARKDOWN => filepath <- export_to_markdown py_repr w self playlist tracks ;;
                  exported_files_append filepath
    end s = (Ok tt, s')
    /\ exported_files s' = exported_files s ++ [path]
    /\ log s' = log s ++ [(INFO, Exported_to_file (export_format self) path)]
    /\ signals s' = signals s
    /\ files s' = <[path := c]> (files s)
    /\ posted s' = posted s /\ polls s' = polls s.
Proof.
  intros Hopen Hwrite Henc Hfmt.
  destruct (export_format self); [congruence| | | |]; cbn [export_document] in Henc.
  - erewrite bind_ok
      by (apply export_to_csv_ok; [apply Hopen | apply Hwrite | apply (Henc 0)]).
    eexists _, _, _. split; [reflexivity|]. repeat split.
  - erewrite bind_ok
      by (apply export_to_json_ok; [apply Hopen | apply Hwrite | apply Henc]).
    eexists _, _, _. split; [reflexivity|]. repeat split.
  - erewrite bind_ok
      by (apply export_to_txt_ok;
          [apply Hopen | intros c; apply Hwrite | apply Henc]).
    eexists _, _, _. split; [reflexivity|]. repeat split.
  - erewrite bind_ok
      by (apply export_to_markdown_ok;
          [apply Hopen | intros c; apply Hwrite | apply Henc]).
    eexists _, _, _. split; [reflexivity|]. repeat split.
Qed.

Lemma export_playlist_accounts w self total i playlist s :
  cancel_at w = None ->
  (forall path, open_fails w path = None) ->
  (forall path c, write_fails w path c = None) ->
  export_format self <> DISCORD ->
  fetch_ok (sp self (id playlist)) = true ->
  forallb is_dict (pages_items (sp self (id playlist))) = true ->
  (forall s0 tracks s1 k,
     get_playlist_tracks py_repr w self (id playlist) s0 = (Ok tracks, s1) ->
     encodable (export_document py_repr (export_format self)
                  playlist tracks (now w k)) = true) ->
  exists s',
    export_playlist py_repr w self total i playlist s = (Ok tt, s')
    /\ signals s'
       = signals s ++ [progress_of i total (lit "Exporting: " ++ pl_name playlist)]
    /\ count_records no_tracks_record (log s') + length (exported_files s')
       = S (count_records no_tracks_record (log s) + length (exported_files s)).
Proof.
  intros Hc Hopen Hwrite Hfmt Hok Hd Henc. unfold export_playlist.
  erewrite bind_ok by reflexivity.
  match goal with |- context [bind _ _ ?s0] => set (s1 := s0) end.
  destruct (walk_pages_accounts py_repr w _ [] s1 Hc Hok Hd)
    as (tracks & s2 & l & Hw & _ & _).
  destruct (logs_only_walk_pages py_repr w _ _ _ _ _ Hw) as (l2 & Hl2 & Hall).
  destruct (preserves_walk_pages py_repr w _ _ _ _ _ Hw) as (Hx & Hs & _ & _).
  assert (Hnone : count_records no_tracks_record l2 = 0).
  { apply (count_records_none walker_record); [|exact Hall].
    intros []; simpl; congruence. }
  pose proof (fun k => Henc s1 tracks s2 k Hw) as Henc'.
  unfold get_playlist_tracks. erewrite bind_ok by exact Hw.
  destruct tracks as [|t tracks].
  - eexists. split; [reflexivity|]. simpl. rewrite Hs, Hx, Hl2.
    split; [reflexivity|]. rewrite !count_records_app, Hnone.
    unfold count_records at 2. simpl. lia.
  - destruct (export_file_written w self playlist (t :: tracks) s2
                Hopen Hwrite Henc' Hfmt)
      as (s3 & path & c & Hrun & Hx3 & Hl3 & Hs3 & _).
    exists s3. split; [exact Hrun|]. rewrite Hs3, Hs, Hx3, Hx, Hl3, Hl2.
    split; [reflexivity|]. rewrite !count_records_app, Hnone, length_app.
    unfold count_records at 2. simpl. lia.
Qed.

Lemma for_playlists_accounts w self total todo : forall i s,
  cancel_at w = None ->
  (forall path, open_fails w path = None) ->
  (forall path c, write_fails w path c = None) ->
  export_format self <> DISCORD ->
  (forall p, In p todo ->
     fetch_ok (sp self (id p)) = true
     /\ forallb is_dict (pages_items (sp self (id p))) = true) ->
  (forall p s0 tracks s1 k, In p todo ->
     get_playlist_tracks py_repr w self (id p) s0 = (Ok tracks, s1) ->
     encodable (export_document py_repr (export_format self)
                  p tracks (now w k)) = true) ->
  exists s',
    for_playlists py_repr w self total i todo s = (Ok false, s')
    /\ signals s' = signals s ++ progress_signals total i todo
    /\ count_records no_tracks_record (log s') + length (exported_files s')
       = count_records no_tracks_record (log s) + length (exported_files s)
         + length todo.
Proof.
  induction todo as [|p rest IH]; intros i s Hc Hopen Hwrite Hfmt Hall Henc.
  - exists s. split; [reflexivity|]. simpl. split; [now rewrite app_nil_r | lia].
  - cbn [for_playlists]. erewrite bind_ok by (apply is_cancelled_never, Hc).
    destruct (Hall p ltac:(now left)) as [Hok Hd].
    match goal with |- context [bind _ _ ?s0] => set (s1 := s0) end.
    destruct (export_playlist_accounts w self total i p s1
                Hc Hopen Hwrite Hfmt Hok Hd)
      as (s2 & Hrun & Hs2 & Hn2).
    { intros s0 tracks s3 k. apply Henc. now left. }
    erewrite bind_ok by exact Hrun.
    destruct (IH (S i) s2 Hc Hopen Hwrite Hfmt) as (s3 & Hloop & Hs3 & Hn3).
    { intros q Hq. apply Hall. now right. }
    { intros q s0 tracks s3 k Hq. apply Henc. now right. }
    exists s3. split; [exact Hloop|]. rewrite Hs3, Hs2, Hn3, Hn2.
    split; [simpl; now rewrite <- app_assoc | simpl; lia].
Qed.

(** X7: when the run is not cancelled, no page request raises, the items are
    mappings, every file opens and takes what is written, and no document
    made of the Tracks of a playlist has a surrogate, a run of a file
    format completes: it emits one [progress] signal for each playlist in
    order, then [progress(100)] and [finished] with the exported files,
    and each playlist has given either one exported file or one record
    that no tracks were found. *)
Theorem run_accounts_for_every_playlist w self :
  cancel_at w = None ->
  (forall path, open_fails w path = None) ->
  (forall path c, write_fails w path c = None) ->
  export_format self <> DISCORD ->
  (forall p, In p (playlists self) ->
     fetch_ok (sp self (id p)) = true
     /\ forallb is_dict (pages_items (sp self (id p))) = true) ->
  (forall p s tracks s' k, In p (playlists self) ->
     get_playlist_tracks py_repr w self (id p) s = (Ok tracks, s') ->
     encodable (export_document py_repr (export_format self)
                  p tracks (now w k)) = true) ->
  exists s',
    run py_repr w self initial = (Ok Completed, s')
    /\ signals s'
       = progress_signals (length (playlists self)) 0 (playlists self)
         ++ [progress 100 (lit "Export completed"); finished (exported_files s')]
    /\ count_records no_tracks_record (log s') + length (exported_files s')
       = length (playlists self).
Proof.
  intros Hc Hopen Hwrite Hfmt Hall Henc.
  destruct (for_playlists_accounts w self (length (playlists self))
              (playlists self) 0 initial Hc Hopen Hwrite Hfmt Hall Henc)
    as (s1 & Hloop & Hs1 & Hn1).
  pose proof (run_ends py_repr w self initial) as Hends. rewrite Hloop in Hends.
  eexists. split; [exact Hends|]. simpl. rewrite Hs1, Hn1. split; reflexivity.
Qed.

End Outcomes.

Section Cancellation.

Variable py_repr : pyval -> str.

(** ** Cancellation inside a playlist *)

Lemma is_cancelled_seen w k s :
  cancel_at w = Some k -> k <= polls s ->
  is_cancelled w s = (Ok true, snd (is_cancelled w s)).
Proof.
  intros Hc Hk. unfold is_cancelled. rewrite Hc.
  now rewrite bool_decide_eq_true_2 by exact Hk.
Qed.

Lemma is_cancelled_not_yet w k s :
  cancel_at w = Some k -> polls s < k ->
  is_cancelled w s = (Ok false, snd (is_cancelled w s)).
Proof.
  intros Hc Hk. unfold is_cancelled. rewrite Hc.
  now rewrite bool_decide_eq_false_2 by lia.
Qed.

Lemma last_snoc2 {A} (l : list A) (a b : A) : last (l ++ [a; b]) = Some b.
Proof. change (l ++ [a; b]) with (l ++ [a] ++ [b]). rewrite app_assoc. apply last_snoc. Qed.

(** X8: when [cancel()] comes while the items of the first page are read,
    the walker returns at the next item with the Tracks it has: the
    remaining items are not read and no further page is requested, and
    the result is a list of Tracks like any other. *)
Theorem get_playlist_tracks_cancelled w self playlist_id k
    items1 item items2 next s tracks1 s1 :
  cancel_at w = Some k ->
  sp self playlist_id = Fetch_page (items1 ++ item :: items2) next ->
  for_items py_repr w items1 [] s = (Ok (false, tracks1), s1) ->
  k <= polls s1 ->
  get_playlist_tracks py_repr w self playlist_id s
  = (Ok tracks1,
     {| exported_files := exported_files s1; signals := signals s1;
        log := log s1; files := files s1; posted := posted s1;
        polls := S (polls s1); clock_reads := clock_reads s1 |}).
Proof.
  intros Hc Hsp Hitems Hk. unfold get_playlist_tracks. rewrite Hsp.
  cbn [walk_pages]. unfold bind at 1. rewrite for_items_app, Hitems.
  cbn [for_items]. erewrite bind_ok by (eapply is_cancelled_seen; eassumption).
  reflexivity.
Qed.

(** X9: a cancellation that comes after the flag was read for the last
    playlist does not cancel the run: the run ends after the loop with
    [finished], or in the [except] clause with [error], and never by the
    [return] of line 541. *)
Theorem run_cancelled_too_late w self before p s1 k :
  playlists self = before ++ [p] ->
  for_playlists py_repr w self (length (playlists self)) 0 before initial
  = (Ok false, s1) ->
  cancel_at w = Some k -> polls s1 < k ->
  exists ex s',
    run py_repr w self initial = (Ok ex, s')
    /\ (ex = Completed
        /\ last (signals s') = Some (finished (exported_files s'))
        \/ ex = Failed
           /\ exists e, last (signals s') = Some (error (exn_str e))).
Proof.
  intros Hpl Hbefore Hc Hk.
  assert (Hloop :
    for_playlists py_repr w self (length (playlists self)) 0 (playlists self) initial
    = match export_playlist py_repr w self (length (playlists self))
              (0 + length before) p (snd (is_cancelled w s1)) with
      | (Ok _, s2) => (Ok false, s2)
      | (Raise e, s2) => (Raise e, s2)
      end).
  { rewrite Hpl at 2. rewrite for_playlists_app, Hbefore.
    cbn [for_playlists].
    erewrite bind_ok by (eapply is_cancelled_not_yet; eassumption).
    unfold bind. destruct (export_playlist _ _ _ _ _ _ _) as [[[]|e] s2]; reflexivity. }
  pose proof (run_ends py_repr w self initial) as Hends.
  rewrite Hloop in Hends.
  destruct (export_playlist py_repr w self (length (playlists self))
              (0 + length before) p (snd (is_cancelled w s1))) as [[[]|e] s2].
  - eexists _, _. split; [exact Hends|]. left. split; [reflexivity|].
    simpl. apply last_snoc2.
  - eexists _, _. split; [exact Hends|]. right. split; [reflexivity|].
    exists e. simpl. apply last_snoc.
Qed.

End Cancellation.

Section Failures.

Variable py_repr : pyval -> str.

(** ** An export that raises *)

(** An exception raised while a playlist is exported ends the run. *)
Lemma run_fails_in_playlist w self before p rest s1 e s2 :
  cancel_at w = None ->
  playlists self = before ++ p :: rest ->
  for_playlists py_repr w self (length (playlists self)) 0 before initial
  = (Ok false, s1) ->
  export_playlist py_repr w self (length (playlists self)) (length before) p
    (snd (is_cancelled w s1)) = (Raise e, s2) ->
  run py_repr w self initial
  = (Ok Failed,
     {| exported_files := exported_files s2;
        signals := signals s2 ++ [error (exn_str e)];
        log := log s2 ++ [(ERROR, Export_error e)];
        files := files s2; posted := posted s2;
        polls := polls s2; clock_reads := clock_reads s2 |}).
Proof.
  intros Hc Hpl Hbefore Hraise.
  apply run_failed. rewrite Hpl at 2. rewrite for_playlists_app, Hbefore.
  cbn [for_playlists]. erewrite bind_ok by (apply is_cancelled_never, Hc).
  apply bind_raise. rewrite Nat.add_0_l.
  rewrite (is_cancelled_never _ _ Hc) in Hraise. exact Hraise.
Qed.

(** The state in which a playlist is exported once its Tracks are there. *)
Lemma export_playlist_tracks w self total i p tracks s :
  (forall s0, fst (get_playlist_tracks py_repr w self (id p) s0) = Ok tracks) ->
  exists s2,
    get_playlist_tracks py_repr w self (id p)
      (snd (emit (progress_of i total (lit "Exporting: " ++ pl_name p)) s))
    = (Ok tracks, s2)
    /\ exported_files s2 = exported_files s
    /\ signals s2 = signals s ++ [progress_of i total (lit "Exporting: " ++ pl_name p)]
    /\ files s2 = files s /\ posted s2 = posted s
    /\ clock_reads s2 = clock_reads s.
Proof.
  intros Htracks.
  set (s1 := snd (emit (progress_of i total (lit "Exporting: " ++ pl_name p)) s)).
  destruct (get_playlist_tracks py_repr w self (id p) s1) as [r s2] eqn:Eget.
  pose proof (Htracks s1) as Hr. rewrite Eget in Hr. simpl in Hr. subst r.
  pose proof (preserves_get_playlist_tracks py_repr w self (id p) _ _ _ Eget)
    as (Hx & Hs & Hf & Hp).
  pose proof (same_clock_walk_pages py_repr w _ _ _ _ _ Eget) as Hk.
  exists s2. split; [reflexivity|]. unfold same_clock in Hk.
  rewrite Hx, Hs, Hf, Hp, Hk. repeat split.
Qed.

(** X10: when the file of a playlist cannot be opened, the exception ends the
    run: [error] carries its text, [finished] is not emitted, nothing is
    written or listed for this playlist, and the playlists after it are
    not exported. *)
Theorem run_open_fails w self before p rest tracks s1 e :
  export_format self <> DISCORD ->
  cancel_at w = None ->
  playlists self = before ++ p :: rest ->
  for_playlists py_repr w self (length (playlists self)) 0 before initial
  = (Ok false, s1) ->
  (forall s, fst (get_playlist_tracks py_repr w self (id p) s) = Ok tracks) ->
  tracks <> [] ->
  open_fails w (export_path self p (strftime_compact (now w (clock_reads s1)))
                  (format_value (export_format self))) = Some e ->
  exists s',
    run py_repr w self initial = (Ok Failed, s')
    /\ signals s'
       = signals s1
         ++ [progress_of (length before) (length (playlists self))
               (lit "Exporting: " ++ pl_name p);
             error (exn_str e)]
    /\ exported_files s' = exported_files s1
    /\ files s' = files s1.
Proof.
  intros Hfmt Hc Hpl Hbefore Htracks Hne Hopen.
  destruct (export_playlist_tracks w self (length (playlists self)) (length before)
              p tracks (snd (is_cancelled w s1)) Htracks)
    as (s2 & Hget & Hx & Hs & Hf & _ & Hk).
  assert (Hraise : exists s3,
    export_playlist py_repr w self (length (playlists self)) (length before) p
      (snd (is_cancelled w s1)) = (Raise e, s3)
    /\ exported_files s3 = exported_files s2 /\ signals s3 = signals s2
    /\ files s3 = files s2).
  { unfold export_playlist. erewrite bind_ok by reflexivity.
    erewrite bind_ok by exact Hget.
    destruct tracks as [|t tracks]; [congruence|].
    simpl in Hk. rewrite <- Hk in Hopen.
    destruct (export_format self); [congruence| | | |];
      unfold export_to_csv, export_to_json, export_to_txt, export_to_markdown,
        bind, datetime_now, open_w;
      unfold export_path, format_value in Hopen |- *;
      simpl in Hopen |- *; rewrite Hopen;
      eexists; (split; [reflexivity|]); repeat split. }
  destruct Hraise as (s3 & Hraise & Hx3 & Hs3 & Hf3).
  eexists. split; [eapply run_fails_in_playlist; eassumption|].
  simpl. rewrite Hx3, Hs3, Hf3, Hx, Hs, Hf. simpl.
  rewrite <- app_assoc. repeat split.
Qed.

(** X11: a run of the webhook format without a webhook URL ends at the first
    playlist that has Tracks, with the [ValueError] of line 926: nothing
    is posted and the playlists after it are not looked at. *)
Theorem run_discord_without_webhook w self before p rest tracks s1 :
  export_format self = DISCORD ->
  webhook_url self = [] ->
  cancel_at w = None ->
  playlists self = before ++ p :: rest ->
  for_playlists py_repr w self (length (playlists self)) 0 before initial
  = (Ok false, s1) ->
  (forall s, fst (get_playlist_tracks py_repr w self (id p) s) = Ok tracks) ->
  tracks <> [] ->
  exists s',
    run py_repr w self initial = (Ok Failed, s')
    /\ signals s'
       = signals s1
         ++ [progress_of (length before) (length (playlists self))
               (lit "Exporting: " ++ pl_name p);
             error (lit "Discord webhook URL is required")]
    /\ posted s' = posted s1
    /\ exported_files s' = [] /\ files s' = ∅.
Proof.
  intros Hfmt Hurl Hc Hpl Hbefore Htracks Hne.
  pose proof (preserves_for_playlists _ _ _ _ _ _ _ _ _ Hbefore)
    as (_ & _ & Hsame). destruct (Hsame Hfmt) as [Hx1 Hf1]. simpl in Hx1, Hf1.
  destruct (export_playlist_tracks w self (length (playlists self)) (length before)
              p tracks (snd (is_cancelled w s1)) Htracks)
    as (s2 & Hget & Hx & Hs & Hf & Hp & _).
  eexists. split.
  - eapply run_fails_in_playlist; try eassumption.
    unfold export_playlist. erewrite bind_ok by reflexivity.
    erewrite bind_ok by exact Hget.
    destruct tracks as [|t tracks]; [congruence|].
    rewrite Hfmt. unfold export_to_discord. rewrite Hurl. reflexivity.
  - simpl. rewrite Hx, Hs, Hf, Hp. simpl. rewrite <- app_assoc.
    repeat split; assumption.
Qed.

End Failures.

Section NotMapping.

Variable py_repr : pyval -> str.

(** X12: an item of a page that is not a mapping ends the whole run: the
    handlers of lines 822-827 are around the reading of the track record,
    not around [item.get], so the [AttributeError] leaves the walker and
    is caught in [run].  (A mapping whose track record is [null] is
    skipped instead.) *)
Theorem run_item_not_mapping w self before p rest s1 items1 item items2 next :
  cancel_at w = None ->
  playlists self = before ++ p :: rest ->
  for_playlists py_repr w self (length (playlists self)) 0 before initial
  = (Ok false, s1) ->
  sp self (id p) = Fetch_page (items1 ++ item :: items2) next ->
  forallb is_dict items1 = true ->
  is_dict item = false ->
  exists s',
    run py_repr w self initial = (Ok Failed, s')
    /\ signals s'
       = signals s1
         ++ [progress_of (length before) (length (playlists self))
               (lit "Exporting: " ++ pl_name p);
             error (exn_str (no_attribute item (lit "get")))]
    /\ exported_files s' = exported_files s1
    /\ files s' = files s1
    /\ posted s' = posted s1.
Proof.
  intros Hc Hpl Hbefore Hsp Hd Hitem.
  set (s2 := snd (emit (progress_of (length before) (length (playlists self))
                          (lit "Exporting: " ++ pl_name p))
                    (snd (is_cancelled w s1)))).
  destruct (for_items_returns py_repr w items1 [] s2 Hc Hd) as (tracks1 & s3 & Hf).
  assert (Hw : exists s4,
    get_playlist_tracks py_repr w self (id p) s2
    = (Raise (no_attribute item (lit "get")), s4)).
  { unfold get_playlist_tracks. rewrite Hsp. cbn [walk_pages].
    unfold bind at 1. rewrite for_items_app, Hf. cbn [for_items].
    erewrite bind_ok by (apply is_cancelled_never, Hc).
    unfold process_item.
    destruct item; try discriminate Hitem; eexists; reflexivity. }
  destruct Hw as (s4 & Hw).
  pose proof (preserves_get_playlist_tracks py_repr w self (id p) _ _ _ Hw)
    as (Hx & Hs & Hfi & Hp).
  eexists. split.
  - eapply run_fails_in_playlist; try eassumption.
    unfold export_playlist. erewrite bind_ok by reflexivity.
    apply bind_raise. exact Hw.
  - simpl. rewrite Hx, Hs, Hfi, Hp. unfold s2.
    rewrite (is_cancelled_never _ _ Hc). simpl.
    rewrite <- app_assoc. repeat split.
Qed.

End NotMapping.

Section Relay.

Variable py_repr : pyval -> str.

(** ** The webhook relay: posting *)

(** While the lines fit into the budget together with what is in the
    buffer, the loop of lines 936-943 flushes nothing. *)
Lemma chunk_lines_fits tracks : forall i messages current_message,
  length current_message + length (concat (numbered_lines py_repr i tracks)) <= 1800 ->
  chunk_lines py_repr i tracks messages current_message
  = (messages, current_message ++ concat (numbered_lines py_repr i tracks)).
Proof.
  induction tracks as [|t rest IH]; intros i messages cur Hlen; simpl.
  - now rewrite app_nil_r.
  - simpl in Hlen. rewrite length_app in Hlen.
    rewrite (proj2 (Nat.ltb_ge _ _)) by lia.
    rewrite IH by (rewrite length_app; lia). now rewrite <- app_assoc.
Qed.

(** X13: a track list whose lines have at most 1800 characters together goes
    out as two messages, the header and the whole list; without Tracks
    the header is the only message. *)
Theorem discord_messages_short playlist tracks :
  length (concat (numbered_lines py_repr 1 tracks)) <= 1800 ->
  discord_messages py_repr playlist tracks
  = discord_header playlist tracks
    :: match tracks with
       | [] => []
       | _ :: _ => [concat (numbered_lines py_repr 1 tracks)]
       end.
Proof.
  intros Hlen. unfold discord_messages.
  rewrite chunk_lines_fits by (simpl; lia). cbn [app].
  destruct tracks as [|t rest]; [reflexivity|].
  destruct (concat (numbered_lines py_repr 1 (t :: rest))) as [|c m] eqn:E;
    [|reflexivity].
  exfalso. apply (f_equal (@length char)) in E. simpl in E.
  rewrite length_app in E. pose proof (track_line_nonempty py_repr 1 t). simpl in E. lia.
Qed.

(** X14: when the line of the first Track alone is over the budget, the loop
    flushes the buffer while it is still empty: the second message of the
    relay is the empty text. *)
Theorem discord_messages_empty_message playlist t rest :
  1800 < length (track_line py_repr 1 t) ->
  exists more,
    discord_messages py_repr playlist (t :: rest)
    = discord_header playlist (t :: rest) :: [] :: more.
Proof.
  intros Hlong. unfold discord_messages. cbn [chunk_lines].
  rewrite (proj2 (Nat.ltb_lt _ _)) by exact Hlong.
  match goal with
  | |- context [chunk_lines _ ?i _ ?messages ?line] =>
      destruct (chunk_lines_groups py_repr rest i messages [line])
        as (groups & g' & Hrun & _)
  end.
  cbn [concat] in Hrun. rewrite app_nil_r in Hrun. rewrite Hrun.
  destruct (concat g'); eexists; reflexivity.
Qed.

(** When every post is accepted, the posting loop posts all the messages
    in order and logs nothing. *)
Lemma send_messages_accepted w messages : forall s,
  cancel_at w = None ->
  (forall i m, messages !! i = Some m ->
     post w (length (posted s) + i) m = Ok 200%Z
     \/ post w (length (posted s) + i) m = Ok 204%Z) ->
  exists s',
    send_messages w messages s = (Ok false, s')
    /\ posted s' = posted s ++ messages
    /\ log s' = log s
    /\ same_files s s'.
Proof.
  induction messages as [|msg rest IH]; intros s Hc Hpost.
  - exists s. split; [reflexivity|]. split; [now rewrite app_nil_r|].
    split; reflexivity.
  - cbn [send_messages]. erewrite bind_ok by (apply is_cancelled_never, Hc).
    unfold bind at 1. unfold requests_post at 1. cbn [posted].
    assert (Hfirst : post w (length (posted s)) msg = Ok 200%Z
                     \/ post w (length (posted s)) msg = Ok 204%Z).
    { rewrite <- (Nat.add_0_r (length (posted s))). now apply Hpost. }
    set (s2 := {| exported_files := exported_files s; signals := signals s;
                  log := log s; files := files s;
                  posted := posted s ++ [msg]; polls := S (polls s);
                  clock_reads := clock_reads s |}).
    destruct (IH s2 Hc) as (s' & Hrun & Hposted & Hlog & Hx & Hs & Hf).
    { intros i m Hm. unfold s2. cbn [posted]. rewrite length_app. simpl.
      replace (length (posted s) + 1 + i) with (length (posted s) + S i) by lia.
      now apply Hpost. }
    exists s'. split; [|split; [|split]].
    + destruct Hfirst as [-> | ->]; exact Hrun.
    + rewrite Hposted. unfold s2. cbn [posted]. now rewrite <- app_assoc.
    + rewrite Hlog. reflexivity.
    + repeat split; assumption.
Qed.

(** X15: when the run is not cancelled and the webhook accepts every post,
    [export_to_discord] posts the header and then the numbered track
    list, every line of it once and in order, whole lines to a message;
    it logs the export and touches no file. *)
Theorem export_to_discord_posts_all w self playlist tracks s :
  webhook_url self <> [] ->
  cancel_at w = None ->
  (forall i m, discord_messages py_repr playlist tracks !! i = Some m ->
     post w (length (posted s) + i) m = Ok 200%Z
     \/ post w (length (posted s) + i) m = Ok 204%Z) ->
  exists s' (groups : list (list str)),
    export_to_discord py_repr w self playlist tracks s = (Ok tt, s')
    /\ posted s'
       = posted s ++ discord_header playlist tracks :: map (@concat char) groups
    /\ concat groups = numbered_lines py_repr 1 tracks
    /\ log s' = log s ++ [(INFO, Exported_to_Discord (pl_name playlist))]
    /\ exported_files s' = exported_files s /\ files s' = files s.
Proof.
  intros Hurl Hc Hpost.
  destruct (send_messages_accepted w _ s Hc Hpost)
    as (s1 & Hsend & Hposted & Hlog & Hx & _ & Hf).
  destruct (discord_messages_reconstruct py_repr playlist tracks)
    as (groups & Hmsgs & Hcat).
  eexists _, groups. split.
  - unfold export_to_discord. destruct (webhook_url self); [congruence|].
    erewrite bind_ok by exact Hsend. reflexivity.
  - simpl. rewrite Hposted, Hmsgs, Hlog, Hx, Hf. repeat split. exact Hcat.
Qed.

End Relay.

(** ** What the files hold *)

(** X16: when the file opens and takes what is written, and the document
    has no surrogate, [export_to_json] returns the path of the file and
    the text it has written there reads back, with [json.loads], as the
    dict [data] of lines 861-870: the summary with the name, the owner,
    the description and the number of Tracks, the Tracks in order, and
    [exported_at].  The timestamp of the file name is the first reading
    of the clock and [exported_at] the second. *)
Theorem export_to_json_reads_back w self playlist tracks s :
  open_fails w (export_path self playlist
                  (strftime_compact (now w (clock_reads s))) (lit "json")) = None ->
  write_fails w (export_path self playlist
                   (strftime_compact (now w (clock_reads s))) (lit "json"))
    (Text (json_document playlist tracks (now w (S (clock_reads s))))) = None ->
  has_surrogate (json_document playlist tracks (now w (S (clock_reads s))))
  = false ->
  forallb track_keys_unique tracks = true ->
  exists s' text,
    export_to_json w self playlist tracks s
    = (Ok (export_path self playlist
             (strftime_compact (now w (clock_reads s))) (lit "json")), s')
    /\ files s' !! export_path self playlist
                    (strftime_compact (now w (clock_reads s))) (lit "json")
       = Some (Text text)
    /\ json_loads text
       = Some (json_data playlist tracks (now w (S (clock_reads s)))).
Proof.
  intros Hopen Hwrite Hsur Hk.
  rewrite export_to_json_ok;
    [| exact Hopen | exact Hwrite | unfold encodable; now rewrite Hsur].
  eexists _, _. split; [reflexivity|]. cbn [exported_to files].
  split; [apply lookup_insert_eq|].
  apply json_loads_dumps. now apply keys_unique_json_data.
Qed.

(** X17: when the file opens and takes what is written, and no field of a
    Track that is a [str] has a surrogate, [export_to_csv] returns the
    path of the file; the rows it has handed to the [DictWriter] are the
    Tracks in order, and each row has exactly the field names of the
    header, in the order of the header: the writer meets no unknown
    field and misses none. *)
Theorem export_to_csv_rows w self playlist tracks s :
  open_fails w (export_path self playlist
                  (strftime_compact (now w (clock_reads s))) (lit "csv")) = None ->
  write_fails w (export_path self playlist
                   (strftime_compact (now w (clock_reads s))) (lit "csv"))
    (Csv csv_fieldnames (map to_dict tracks)) = None ->
  encodable (Csv csv_fieldnames (map to_dict tracks)) = true ->
  exists s' rows,
    export_to_csv w self playlist tracks s
    = (Ok (export_path self playlist
             (strftime_compact (now w (clock_reads s))) (lit "csv")), s')
    /\ files s' !! export_path self playlist
                    (strftime_compact (now w (clock_reads s))) (lit "csv")
       = Some (Csv csv_fieldnames rows)
    /\ map object_tuple rows = map (fun t => Some (track_tuple t)) tracks
    /\ Forall (fun row => exists d, row = PDict d /\ map fst d = csv_fieldnames) rows.
Proof.
  intros Hopen Hwrite Henc.
  rewrite export_to_csv_ok by assumption.
  eexists _, _. split; [reflexivity|]. cbn [exported_to files].
  split; [apply lookup_insert_eq|]. split.
  - rewrite map_map. apply map_ext. intros t. apply object_tuple_to_dict.
  - apply List.Forall_forall. intros row Hrow. apply in_map_iff in Hrow.
    destruct Hrow as (t & <- & _). eexists. split; reflexivity.
Qed.

Section Replaced.

Variable py_repr : pyval -> str.

(** ** The two definitions of [get_playlist_tracks] *)

(** What the body of the [try] returns or raises depends neither on the
    state nor on the level of its log record. *)
Lemma normalize_pure lvl1 lvl2 track tracks s1 s2 :
  fst (normalize py_repr lvl1 track tracks s1)
  = fst (normalize py_repr lvl2 track tracks s2).
Proof.
  unfold normalize, bind, lift, ret, logger.
  repeat match goal with
         | |- context [match ?x with _ => _ end] =>
             match x with
             | context [s1] => fail 1
             | context [s2] => fail 1
             | _ => destruct x
             end
         end; reflexivity.
Qed.

Lemma end_alike_bind {A B A' B'} (proj : A -> B) (proj' : A' -> B')
    (m1 : M A) (m2 : M B) (k1 : A -> M A') (k2 : B -> M B') s1 s2 :
  end_alike proj (m1 s1) (m2 s2) ->
  (forall a t1 t2, polls t1 = polls t2 ->
     end_alike proj' (k1 a t1) (k2 (proj a) t2)) ->
  end_alike proj' (bind m1 k1 s1) (bind m2 k2 s2).
Proof.
  unfold end_alike at 1. unfold bind. intros [Hr Hp] Hk.
  destruct (m1 s1) as [[a|e] t1], (m2 s2) as [[b|e'] t2]; simpl in Hr, Hp;
    try contradiction.
  - subst b. now apply Hk.
  - subst e'. split; [reflexivity | exact Hp].
Qed.

Lemma for_items_agree w items : forall tracks skipped_count s1 s2,
  polls s1 = polls s2 ->
  end_alike fst (for_items_replaced py_repr w items tracks skipped_count s1)
    (for_items py_repr w items tracks s2).
Proof.
  induction items as [|item rest IH]; intros tracks skipped_count s1 s2 Hp.
  - split; [reflexivity | exact Hp].
  - cbn [for_items for_items_replaced].
    apply (end_alike_bind (fun x => x)).
    { unfold end_alike, is_cancelled. simpl. rewrite Hp. split; reflexivity. }
    intros c t1 t2 Ht. cbv beta. destruct c; [split; [reflexivity | exact Ht]|].
    unfold process_item. rewrite bind_assoc.
    apply (end_alike_bind (fun x => x)).
    { split; [unfold lift; simpl; now destruct (py_get _ _ _) | exact Ht]. }
    intros track u1 u2 Hu. cbv beta.
    destruct (negb (truthy track)).
    + rewrite bind_assoc. unfold bind at 2. unfold logger at 1. unfold ret at 1.
      apply IH. exact Hu.
    + apply (end_alike_bind fst); [|intros r v1 v2 Hv; now apply IH].
      unfold try_except.
      pose proof (normalize_pure DEBUG WARNING track tracks u1 u2) as Hpure.
      unfold bind at 1.
      destruct (normalize py_repr DEBUG track tracks u1) as [[x1|e1] v1] eqn:E1,
               (normalize py_repr WARNING track tracks u2) as [[x2|e2] v2] eqn:E2;
        simpl in Hpure; try discriminate Hpure.
      * injection Hpure as <-.
        pose proof (same_polls_normalize py_repr _ _ _ _ _ _ E1) as P1.
        pose proof (same_polls_normalize py_repr _ _ _ _ _ _ E2) as P2.
        unfold same_polls in P1, P2. split; [reflexivity | simpl; congruence].
      * injection Hpure as <-.
        pose proof (same_polls_normalize py_repr _ _ _ _ _ _ E1) as P1.
        pose proof (same_polls_normalize py_repr _ _ _ _ _ _ E2) as P2.
        unfold same_polls in P1, P2.
        destruct (is_KeyError e1); (split; [reflexivity | simpl; congruence]).
Qed.

Lemma walk_pages_agree w results : forall on_raise tracks skipped_count s1 s2,
  fetch_ok results = true ->
  polls s1 = polls s2 ->
  end_alike (fun r : bool * list Track * nat => snd (fst r))
    (walk_pages_replaced py_repr w results on_raise tracks skipped_count s1)
    (walk_pages py_repr w results tracks s2).
Proof.
  induction results as [e | | items | items f IH] using fetch_induction;
    intros on_raise tracks skipped_count s1 s2 Hok Hp.
  - discriminate Hok.
  - split; [reflexivity | exact Hp].
  - cbn [walk_pages walk_pages_replaced].
    apply (end_alike_bind fst); [now apply for_items_agree|].
    intros [[c t] n] t1 t2 Ht. simpl.
    destruct c; (split; [reflexivity | exact Ht]).
  - cbn [walk_pages walk_pages_replaced].
    apply (end_alike_bind fst); [now apply for_items_agree|].
    intros [[c t] n] t1 t2 Ht. simpl.
    destruct c; [split; [reflexivity | exact Ht]|].
    now apply IH.
Qed.

(** X18: the definition of [get_playlist_tracks] that the later one replaces
    (lines 576-651) differs from it only where a page request raises and
    in what it logs: on a listing whose page requests do not raise, the
    two return the same Tracks or raise the same exception, and read the
    cancellation flag as often. *)
Theorem get_playlist_tracks_replaced_agrees w self playlist_id s :
  fetch_ok (sp self playlist_id) = true ->
  fst (get_playlist_tracks_replaced py_repr w self playlist_id s)
  = fst (get_playlist_tracks py_repr w self playlist_id s)
  /\ polls (snd (get_playlist_tracks_replaced py_repr w self playlist_id s))
     = polls (snd (get_playlist_tracks py_repr w self playlist_id s)).
Proof.
  intros Hok.
  pose proof (walk_pages_agree w (sp self playlist_id)
                Failed_to_fetch_playlist_tracks [] 0 s s Hok eq_refl) as [Hr Hp].
  unfold get_playlist_tracks_replaced, get_playlist_tracks, bind.
  destruct (walk_pages_replaced py_repr w (sp self playlist_id)
              Failed_to_fetch_playlist_tracks [] 0 s) as [[[[c t] n]|e] s1],
           (walk_pages py_repr w (sp self playlist_id) [] s) as [[t'|e'] s2];
    simpl in Hr, Hp; try contradiction.
  - subst t'. destruct c; [split; [reflexivity | exact Hp]|].
    destruct (bool_decide (0 < n)); split; try reflexivity; exact Hp.
  - subst e'. split; [reflexivity | exact Hp].
Qed.

End Replaced.

(** * Properties of the window *)

Section WindowProperties.

Variable py_repr : pyval -> str.
Variable py_lower : str -> str.

(** ** Loading the playlists *)

Lemma add_playlists_nil win : add_playlists py_repr [] win = win.
Proof. destruct win. unfold add_playlists. simpl. now rewrite !app_nil_r. Qed.

Lemma add_playlists_cons p l win :
  add_playlists py_repr l (add_playlist py_repr p win)
  = add_playlists py_repr (p :: l) win.
Proof. unfold add_playlists, add_playlist. simpl. now rewrite <- !app_assoc. Qed.

Lemma add_playlists_app l1 l2 win :
  add_playlists py_repr l2 (add_playlists py_repr l1 win)
  = add_playlists py_repr (l1 ++ l2) win.
Proof.
  unfold add_playlists. simpl. now rewrite map_app, <- !app_assoc.
Qed.

(** The loop over the items appends playlists and their items, and
    changes nothing else. *)
Lemma load_items_loaded items : forall win,
  exists l, snd (load_items py_repr items win) = add_playlists py_repr l win.
Proof.
  induction items as [|item rest IH]; intros win.
  - exists []. symmetry. apply add_playlists_nil.
  - cbn [load_items]. destruct (playlist_of_item item) as [p|e].
    + destruct (IH (add_playlist py_repr p win)) as (l & Hs).
      exists (p :: l). now rewrite Hs, add_playlists_cons.
    + exists []. symmetry. apply add_playlists_nil.
Qed.

Lemma load_pages_loaded results : forall win,
  exists l, snd (load_pages py_repr results win) = add_playlists py_repr l win.
Proof.
  induction results as [e | | items | items f IH] using fetch_induction; intros win;
    cbn [load_pages].
  - exists []. symmetry. apply add_playlists_nil.
  - exists []. symmetry. apply add_playlists_nil.
  - destruct (load_items_loaded items win) as (l & Hs).
    exists l. now destruct (load_items py_repr items win) as [[[]|e] win'].
  - destruct (load_items_loaded items win) as (l & Hs).
    destruct (load_items py_repr items win) as [[[]|e] win']; simpl in Hs.
    + destruct (IH win') as (l2 & Hs2). exists (l ++ l2).
      now rewrite Hs2, Hs, add_playlists_app.
    + now exists l.
Qed.

Lemma load_playlists_aligned_lemma current_user_playlists win :
  playlist_list (load_playlists py_repr current_user_playlists win)
  = map (list_item_of py_repr)
      (window_playlists (load_playlists py_repr current_user_playlists win)).
Proof.
  unfold load_playlists.
  match goal with
  | |- context [load_pages py_repr _ ?w0] =>
      destruct (load_pages_loaded current_user_playlists w0) as (l & Hs);
      destruct (load_pages py_repr current_user_playlists w0) as [[[]|e] win']
  end; simpl in Hs; subst win'; reflexivity.
Qed.

(** X19: after [load_playlists], however it ends, the list widget has one
    item for each playlist of [self.playlists], in the same order: the
    item with index [i] is the one built from the playlist with index
    [i], and no item is hidden.  The indexing of [filter_playlists] and
    of [start_export] rests on this. *)
Theorem load_playlists_aligned current_user_playlists win :
  length (playlist_list (load_playlists py_repr current_user_playlists win))
  = length (window_playlists (load_playlists py_repr current_user_playlists win))
  /\ playlist_list (load_playlists py_repr current_user_playlists win)
     = map (list_item_of py_repr)
         (window_playlists (load_playlists py_repr current_user_playlists win))
  /\ Forall (fun item => item_hidden item = false)
       (playlist_list (load_playlists py_repr current_user_playlists win)).
Proof.
  pose proof (load_playlists_aligned_lemma current_user_playlists win) as H.
  split; [rewrite H; apply length_map|]. split; [exact H|].
  rewrite H. apply List.Forall_forall. intros item Hitem.
  apply in_map_iff in Hitem. now destruct Hitem as (p & <- & _).
Qed.

Lemma comprehension_app {A B} (f : A -> result B) l1 l2 r1 r2 :
  comprehension f l1 = Ok r1 -> comprehension f l2 = Ok r2 ->
  comprehension f (l1 ++ l2) = Ok (r1 ++ r2).
Proof.
  revert r1. induction l1 as [|a l1 IH]; intros r1 H1 H2; simpl in *.
  - injection H1 as <-. exact H2.
  - destruct (f a) as [b|e]; [|discriminate].
    destruct (comprehension f l1) as [bs|e]; [|discriminate].
    injection H1 as <-. now rewrite (IH bs eq_refl H2).
Qed.

Lemma load_items_ok items l : forall win,
  comprehension playlist_of_item items = Ok l ->
  load_items py_repr items win = (Ok tt, add_playlists py_repr l win).
Proof.
  revert l. induction items as [|item rest IH]; intros l win H; simpl in *.
  - injection H as <-. now rewrite add_playlists_nil.
  - destruct (playlist_of_item item) as [p|e]; [|discriminate].
    destruct (comprehension playlist_of_item rest) as [ps|e]; [|discriminate].
    injection H as <-. rewrite (IH ps _ eq_refl). now rewrite add_playlists_cons.
Qed.

Lemma load_items_app items1 items2 win :
  load_items py_repr (items1 ++ items2) win
  = match load_items py_repr items1 win with
    | (Ok _, win') => load_items py_repr items2 win'
    | other => other
    end.
Proof.
  revert win. induction items1 as [|item rest IH]; intros win; simpl; [reflexivity|].
  destruct (playlist_of_item item); [apply IH | reflexivity].
Qed.

(** When no page request raises, the pages are loaded like one page that
    holds all their items. *)
Lemma load_pages_flat results : forall win,
  fetch_ok results = true ->
  load_pages py_repr results win = load_items py_repr (pages_items results) win.
Proof.
  induction results as [e | | items | items f IH] using fetch_induction;
    intros win Hok; cbn [load_pages pages_items].
  - discriminate Hok.
  - reflexivity.
  - now destruct (load_items py_repr items win) as [[[]|e] win'].
  - rewrite load_items_app.
    destruct (load_items py_repr items win) as [[[]|e] win']; [|reflexivity].
    now apply IH.
Qed.

(** X20: when no page request raises and every item has the fields that line
    1615 reads, [load_playlists] loads the playlists of all the pages in
    order, sets the count label to their number and shows no dialog. *)
Theorem load_playlists_complete current_user_playlists win l :
  fetch_ok current_user_playlists = true ->
  comprehension playlist_of_item (pages_items current_user_playlists) = Ok l ->
  window_playlists (load_playlists py_repr current_user_playlists win) = l
  /\ playlist_count_label (load_playlists py_repr current_user_playlists win)
     = n_playlists (length l)
  /\ status_bar (load_playlists py_repr current_user_playlists win)
     = status_bar win
       ++ [lit "Loading playlists..."; lit "Loaded " ++ nat_str (length l) ++ lit " playlists"]
  /\ dialogs (load_playlists py_repr current_user_playlists win) = dialogs win.
Proof.
  intros Hok Hl. unfold load_playlists.
  rewrite (load_pages_flat _ _ Hok), (load_items_ok _ _ _ Hl). simpl.
  rewrite <- app_assoc. repeat split.
Qed.

(** X21: when an item lacks a field that line 1615 reads, [load_playlists]
    stops at it: the playlists of the items before it stay loaded, the
    items after it are not looked at, the exception is shown in a dialog,
    and the count label is not updated, so that it still shows the number
    of playlists of before the call. *)
Theorem load_playlists_stops current_user_playlists win items1 item items2 l e :
  fetch_ok current_user_playlists = true ->
  pages_items current_user_playlists = items1 ++ item :: items2 ->
  comprehension playlist_of_item items1 = Ok l ->
  playlist_of_item item = Raise e ->
  window_playlists (load_playlists py_repr current_user_playlists win) = l
  /\ playlist_count_label (load_playlists py_repr current_user_playlists win)
     = playlist_count_label win
  /\ dialogs (load_playlists py_repr current_user_playlists win)
     = dialogs win
       ++ [critical_box (lit "Error")
             (lit "Failed to load playlists:" ++ [ch_newline; ch_newline] ++ exn_str e)]
  /\ last (status_bar (load_playlists py_repr current_user_playlists win))
     = Some (lit "Failed to load playlists").
Proof.
  intros Hok Hitems Hl He. unfold load_playlists.
  rewrite (load_pages_flat _ _ Hok), Hitems, load_items_app, (load_items_ok _ _ _ Hl).
  cbn [load_items]. rewrite He. simpl. repeat split. apply last_snoc.
Qed.

End WindowProperties.

Section WindowFilter.

Variable py_repr : pyval -> str.
Variable py_lower : str -> str.

(** ** Filtering the list *)

Lemma is_substring_nil s : is_substring [] s = true.
Proof. destruct s; reflexivity. Qed.

(** X22: with an empty search text every item is shown: when the list widget
    has no more items than there are playlists and the names of the
    playlists are strings, [filter_playlists] does not raise and leaves no
    item hidden, whatever the owners and the descriptions are. *)
Theorem filter_playlists_empty_search search_input win :
  py_lower search_input = [] ->
  length (playlist_list win) <= length (window_playlists win) ->
  Forall (fun p => is_string (loaded_name p) = true) (window_playlists win) ->
  fst (filter_playlists py_lower search_input win) = None
  /\ playlist_list (snd (filter_playlists py_lower search_input win))
     = map (setHidden false) (playlist_list win)
  /\ window_playlists (snd (filter_playlists py_lower search_input win))
     = window_playlists win.
Proof.
  intros Hs Hlen Hnames. unfold filter_playlists. rewrite Hs.
  assert (H : filter_items py_lower [] (playlist_list win) (window_playlists win)
              = (None, map (setHidden false) (playlist_list win))).
  { revert Hlen Hnames. generalize (window_playlists win).
    induction (playlist_list win) as [|item items IH]; intros ps Hlen Hnames;
      [reflexivity|].
    destruct ps as [|p ps]; [simpl in Hlen; lia|].
    inversion Hnames as [|? ? Hp Hps]; subst.
    cbn [filter_items]. unfold visible.
    destruct (loaded_name p); try discriminate Hp. cbn [lower_of].
    rewrite is_substring_nil, IH; [reflexivity | simpl in Hlen; lia | exact Hps]. }
  rewrite H. repeat split.
Qed.


End WindowFilter.

(** ** Starting an export *)

Lemma lstrip_space_head s c :
  head (lstrip_space s) = Some c -> py_isspace c = false.
Proof.
  induction s as [|a s IH]; simpl; [discriminate|].
  destruct (py_isspace a) eqn:E; [exact IH | now intros [= <-]].
Qed.

Lemma lstrip_space_suffix s : exists pre, s = pre ++ lstrip_space s.
Proof.
  induction s as [|a s (pre & IH)]; simpl; [now exists []|].
  destruct (py_isspace a); [|now exists []].
  exists (a :: pre). simpl. now f_equal.
Qed.

Lemma last_app_r {A} (l1 l2 : list A) (x : A) :
  last l2 = Some x -> last (l1 ++ l2) = Some x.
Proof.
  intros H. destruct l2 as [|b l2] using rev_ind; [discriminate|].
  rewrite last_snoc in H. injection H as ->.
  rewrite app_assoc. apply last_snoc.
Qed.

(** [s.strip()] neither starts nor ends with white space. *)
Lemma py_strip_ends s :
  (forall c, head (py_strip s) = Some c -> py_isspace c = false)
  /\ (forall c, last (py_strip s) = Some c -> py_isspace c = false).
Proof.
  unfold py_strip. split; intros c Hc.
  - rewrite head_rev in Hc.
    destruct (lstrip_space_suffix (rev (lstrip_space s))) as (pre & Hpre).
    apply (last_app_r pre) in Hc. rewrite <- Hpre, last_rev in Hc.
    now apply lstrip_space_head in Hc.
  - rewrite last_rev in Hc. now apply lstrip_space_head in Hc.
Qed.

Lemma playlists_at_lookup playlists rows : forall l,
  playlists_at playlists rows = Some l ->
  Forall2 (fun row p => playlists !! row = Some p) rows l.
Proof.
  induction rows as [|row rows IH]; intros l H; simpl in H.
  - injection H as <-. constructor.
  - destruct (playlists !! row) as [p|] eqn:Ep; [|discriminate].
    destruct (playlists_at playlists rows) as [l'|]; [|discriminate].
    injection H as <-. constructor; [exact Ep | now apply IH].
Qed.

(** X24: a worker is started only for a selection that is not empty, an
    export location that exists and a question answered with Yes.  It
    gets the playlists at the selected rows, in the order of the
    selection, and the location as its output directory.  For the webhook
    format its webhook URL is the text of the field without the white
    space around it and is not empty, which is what line 925 of the
    worker tests; for the file formats it is the empty text. *)
Theorem start_export_started win export_format selected_rows location_input
    location_exists webhook_input yes question arguments :
  start_export win export_format selected_rows location_input location_exists
    webhook_input yes = Start_started question arguments ->
  selected_rows <> [] /\ location_input <> [] /\ location_exists = true
  /\ yes = true
  /\ arg_export_format arguments = export_format
  /\ arg_output_dir arguments = location_input
  /\ Forall2 (fun row p => window_playlists win !! row = Some p)
       selected_rows (arg_playlists arguments)
  /\ (export_format = DISCORD ->
      arg_webhook_url arguments = py_strip webhook_input
      /\ arg_webhook_url arguments <> []
      /\ (forall c, head (arg_webhook_url arguments) = Some c -> py_isspace c = false)
      /\ (forall c, last (arg_webhook_url arguments) = Some c -> py_isspace c = false))
  /\ (export_format <> DISCORD -> arg_webhook_url arguments = []).
Proof.
  unfold start_export. intros H.
  destruct selected_rows as [|row rows]; [discriminate H|].
  destruct location_input as [|c0 loc]; [discriminate H|].
  destruct location_exists; [|discriminate H]. cbn [negb] in H.
  destruct (playlists_at (window_playlists win) (row :: rows)) as [l|] eqn:El.
  2:{ destruct export_format; try discriminate H;
      destruct (py_strip webhook_input); discriminate H. }
  apply playlists_at_lookup in El.
  destruct (py_sum 0 (map loaded_track_count l)) as [total|e].
  2:{ destruct export_format; try discriminate H;
      destruct (py_strip webhook_input); discriminate H. }
  destruct export_format;
    try (destruct yes; [|discriminate H]; injection H as _ <-; cbn;
         repeat split; try congruence; exact El).
  destruct (py_strip webhook_input) as [|u0 u] eqn:Eu; [discriminate H|].
  destruct yes; [|discriminate H]. injection H as _ <-. cbn.
  pose proof (py_strip_ends webhook_input) as [Hhd Hlast]. rewrite Eu in Hhd, Hlast.
  repeat split; try congruence; assumption.
Qed.

Section WindowIndexes.

Variable py_repr : pyval -> str.
Variable py_lower : str -> str.

Lemma filter_items_in_range search_text items : forall playlists msg,
  length items <= length playlists ->
  fst (filter_items py_lower search_text items playlists) <> Some (IndexError msg).
Proof.
  induction items as [|item items IH]; intros playlists msg Hlen; [discriminate|].
  destruct playlists as [|p ps]; [simpl in Hlen; lia|].
  cbn [filter_items]. destruct (visible py_lower search_text p); [|discriminate].
  specialize (IH ps msg ltac:(simpl in Hlen; lia)).
  now destruct (filter_items py_lower search_text items ps).
Qed.

Lemma playlists_at_in_range playlists rows :
  Forall (fun row => row < length playlists) rows ->
  exists l, playlists_at playlists rows = Some l.
Proof.
  induction 1 as [|row rows Hrow _ (l & IH)]; [now exists []|].
  apply lookup_lt_is_Some in Hrow. destruct Hrow as [p Hp].
  exists (p :: l). simpl. now rewrite Hp, IH.
Qed.

(** X25: the rows of the list widget are indexes of [self.playlists]: after
    [load_playlists], [filter_playlists] does not raise [IndexError], and
    neither does [start_export] for whatever rows of the list are
    selected. *)
Theorem load_playlists_rows_in_range current_user_playlists win0
    search_input export_format selected_rows location_input location_exists
    webhook_input yes msg :
  Forall (fun row =>
            row < length (playlist_list
                            (load_playlists py_repr current_user_playlists win0)))
    selected_rows ->
  fst (filter_playlists py_lower search_input
         (load_playlists py_repr current_user_playlists win0))
  <> Some (IndexError msg)
  /\ start_export (load_playlists py_repr current_user_playlists win0)
       export_format selected_rows location_input location_exists
       webhook_input yes
     <> Start_raised (IndexError msg).
Proof.
  intros Hrows.
  pose proof (load_playlists_aligned_lemma py_repr current_user_playlists win0) as Hal.
  set (win := load_playlists py_repr current_user_playlists win0) in *.
  assert (Hlen : length (playlist_list win) = length (window_playlists win)).
  { rewrite Hal. apply length_map. }
  split.
  - unfold filter_playlists.
    pose proof (filter_items_in_range (py_lower search_input) (playlist_list win)
                  (window_playlists win) msg ltac:(lia)) as H.
    now destruct (filter_items py_lower (py_lower search_input) (playlist_list win)
                    (window_playlists win)).
  - rewrite Hlen in Hrows.
    destruct (playlists_at_in_range _ _ Hrows) as (l & Hl).
    unfold start_export. rewrite Hl.
    destruct selected_rows; [discriminate|].
    destruct location_input; [discriminate|].
    destruct location_exists; [|discriminate]. cbn [negb].
    destruct export_format; try destruct (py_strip webhook_input);
      try discriminate;
      destruct (py_sum 0 (map loaded_track_count l)); try discriminate;
      destruct yes; discriminate.
Qed.

End WindowIndexes.

(** * The further properties at concrete inputs *)

(** ** The worker *)

Example sanitize_filename_unchanged_road_trip :
  sanitize_filename (lit "Road Trip") = lit "Road Trip"
  /\ sanitize_filename (lit "Road Trip ") <> lit "Road Trip ".
Proof. split; [reflexivity | vm_compute; discriminate]. Qed.



Lemma get_playlist_tracks_pages_two :
  fetch_ok (remote_two_pages (id road_trip)) = true
  /\ get_playlist_tracks repr_unused calm (worker CSV remote_two_pages [road_trip])
       (id road_trip) initial
     = get_playlist_tracks repr_unused calm (worker CSV remote_same_page [road_trip])
         (id road_trip) initial.
Proof.
  split; [reflexivity|].
  apply (get_playlist_tracks_pages repr_unused calm
           (worker CSV remote_two_pages [road_trip])
           (worker CSV remote_same_page [road_trip])); reflexivity.
Defined.

Lemma get_playlist_tracks_accounts_mixed :
  exists tracks s' l,
    get_playlist_tracks repr_unused calm (worker CSV remote_mixed [road_trip])
      (id road_trip) initial = (Ok tracks, s')
    /\ log s' = log initial ++ l
    /\ length tracks + count_records skip_record l = 3.
Proof.
  apply (get_playlist_tracks_accounts repr_unused calm
           (worker CSV remote_mixed [road_trip]) (id road_trip) initial);
    reflexivity.
Defined.

Example get_playlist_tracks_mixed :
  let r := get_playlist_tracks repr_unused calm (worker CSV remote_mixed [road_trip])
             (id road_trip) initial in
  (match fst r with Ok tracks => length tracks | Raise _ => 0 end) = 2
  /\ log (snd r)
     = [ (WARNING, Skipping_item_with_no_track_data);
         (WARNING, No_Spotify_URL_found_for_track (PStr (lit "Intro"))) ].
Proof. split; vm_compute; reflexivity. Qed.

Lemma run_accounts_for_every_playlist_two :
  exists s',
    run repr_unused calm (worker CSV remote_focus_empty [road_trip; focus]) initial
    = (Ok Completed, s')
    /\ signals s'
       = [ progress_of 0 2 (lit "Exporting: Road Trip");
           progress_of 1 2 (lit "Exporting: Focus");
           progress 100 (lit "Export completed");
           finished (exported_files s') ]
    /\ count_records no_tracks_record (log s') + length (exported_files s') = 2.
Proof.
  apply (run_accounts_for_every_playlist repr_unused calm
           (worker CSV remote_focus_empty [road_trip; focus])).
  - reflexivity.
  - reflexivity.
  - reflexivity.
  - discriminate.
  - intros p [<- | [<- | []]]; split; reflexivity.
  - intros p s tracks s' k [<- | [<- | []]] H; vm_compute in H;
      injection H as <- _; vm_compute; reflexivity.
Defined.

Lemma get_playlist_tracks_cancelled_second_item :
  get_playlist_tracks repr_unused cancelled_after_one_read
    (worker CSV remote_same_page [road_trip]) (id road_trip) initial
  = (Ok [song_track "Open Road" "4uLU6hMCjMI7"],
     {| exported_files := []; signals := []; log := []; files := ∅; posted := [];
        polls := 2; clock_reads := 0 |}).
Proof.
  apply (get_playlist_tracks_cancelled repr_unused cancelled_after_one_read
           (worker CSV remote_same_page [road_trip]) (id road_trip) 1
           [song "Open Road" "4uLU6hMCjMI7"] (song "Slow" "2takcwOaAZWi") [] None
           initial [song_track "Open Road" "4uLU6hMCjMI7"]
           {| exported_files := []; signals := []; log := []; files := ∅;
              posted := []; polls := 1; clock_reads := 0 |}).
  - reflexivity.
  - reflexivity.
  - reflexivity.
  - simpl. lia.
Defined.

Lemma run_cancelled_too_late_last :
  exists ex s',
    run repr_unused cancelled_after_three_reads
      (worker CSV remote_one_page [road_trip; focus]) initial = (Ok ex, s')
    /\ (ex = Completed
        /\ last (signals s') = Some (finished (exported_files s'))
        \/ ex = Failed
           /\ exists e, last (signals s') = Some (error (exn_str e))).
Proof.
  apply (run_cancelled_too_late repr_unused cancelled_after_three_reads
           (worker CSV remote_one_page [road_trip; focus]) [road_trip] focus
           (snd (for_playlists repr_unused cancelled_after_three_reads
                   (worker CSV remote_one_page [road_trip; focus]) 2 0
                   [road_trip] initial)) 3).
  - reflexivity.
  - vm_compute. reflexivity.
  - reflexivity.
  - vm_compute. lia.
Defined.

(** The same run: the cancellation comes while the only item of the last
    playlist is read, the playlist is reported as empty and the run
    completes. *)
Example run_cancelled_in_last_playlist :
  let r := run repr_unused cancelled_after_three_reads
             (worker CSV remote_one_page [road_trip; focus]) initial in
  fst r = Ok Completed
  /\ exported_files (snd r)
     = [ (lit "/home/ana/Downloads", lit "Road Trip_20240517_120009.csv") ]
  /\ last (log (snd r)) = Some (WARNING, No_tracks_found_in_playlist (lit "Focus")).
Proof. repeat split; vm_compute; reflexivity. Qed.

Lemma run_open_fails_read_only :
  exists s',
    run repr_unused read_only (worker CSV remote_one_page [road_trip; focus]) initial
    = (Ok Failed, s')
    /\ signals s'
       = [ progress_of 0 2 (lit "Exporting: Road Trip");
           error (lit "[Errno 13] Permission denied") ]
    /\ exported_files s' = []
    /\ files s' = ∅.
Proof.
  destruct (run_open_fails repr_unused read_only
              (worker CSV remote_one_page [road_trip; focus])
              [] road_trip [focus] [song_track "Open Road" "4uLU6hMCjMI7"]
              initial permission_denied)
    as (s' & Hrun & Hsig & Hx & Hf).
  - discriminate.
  - reflexivity.
  - reflexivity.
  - reflexivity.
  - intros s. reflexivity.
  - discriminate.
  - reflexivity.
  - exists s'. split; [exact Hrun|]. rewrite Hsig, Hx, Hf. repeat split.
Defined.

Lemma run_discord_without_webhook_first :
  exists s',
    run repr_unused calm
      (worker_without_webhook remote_one_page [road_trip; focus]) initial
    = (Ok Failed, s')
    /\ signals s'
       = [ progress_of 0 2 (lit "Exporting: Road Trip");
           error (lit "Discord webhook URL is required") ]
    /\ posted s' = []
    /\ exported_files s' = [] /\ files s' = ∅.
Proof.
  destruct (run_discord_without_webhook repr_unused calm
              (worker_without_webhook remote_one_page [road_trip; focus])
              [] road_trip [focus] [song_track "Open Road" "4uLU6hMCjMI7"] initial)
    as (s' & Hrun & Hsig & Hp & Hx & Hf).
  - reflexivity.
  - reflexivity.
  - reflexivity.
  - reflexivity.
  - reflexivity.
  - intros s. reflexivity.
  - discriminate.
  - exists s'. split; [exact Hrun|]. rewrite Hsig, Hp, Hx, Hf. repeat split.
Defined.

Lemma discord_messages_short_one_track :
  length (concat (numbered_lines repr_unused 1
                    [song_track "Open Road" "4uLU6hMCjMI7"])) <= 1800
  /\ discord_messages repr_unused road_trip [song_track "Open Road" "4uLU6hMCjMI7"]
     = [ discord_header road_trip [song_track "Open Road" "4uLU6hMCjMI7"];
         lit "1. **Open Road** - Ana, Ben" ++ [ch_newline] ].
Proof.
  assert (H : length (concat (numbered_lines repr_unused 1
                    [song_track "Open Road" "4uLU6hMCjMI7"])) <= 1800).
  { vm_compute. lia. }
  split; [exact H|].
  rewrite (discord_messages_short repr_unused road_trip _ H). reflexivity.
Defined.

Lemma discord_messages_empty_message_long_track :
  1800 < length (track_line repr_unused 1 long_track)
  /\ exists more,
       discord_messages repr_unused road_trip [long_track]
       = discord_header road_trip [long_track] :: [] :: more.
Proof.
  assert (H : 1800 < length (track_line repr_unused 1 long_track)).
  { vm_compute. lia. }
  split; [exact H|].
  exact (discord_messages_empty_message repr_unused road_trip long_track [] H).
Defined.

Lemma export_to_discord_posts_all_sixty :
  exists s' (groups : list (list str)),
    export_to_discord repr_unused calm (worker DISCORD remote_one_page [road_trip])
      road_trip sixty_tracks initial = (Ok tt, s')
    /\ posted s'
       = posted initial
         ++ discord_header road_trip sixty_tracks :: map (@concat char) groups
    /\ concat groups = numbered_lines repr_unused 1 sixty_tracks
    /\ log s' = log initial ++ [(INFO, Exported_to_Discord (pl_name road_trip))]
    /\ exported_files s' = exported_files initial /\ files s' = files initial.
Proof.
  apply (export_to_discord_posts_all repr_unused calm
           (worker DISCORD remote_one_page [road_trip]) road_trip sixty_tracks initial).
  - discriminate.
  - reflexivity.
  - intros i m _. now right.
Defined.

Lemma export_to_json_reads_back_road_trip :
  exists s' text,
    export_to_json calm (worker JSON remote_one_page [road_trip]) road_trip
      [song_track "Open Road" "4uLU6hMCjMI7"] initial
    = (Ok (lit "/home/ana/Downloads", lit "Road Trip_20240517_120009.json"), s')
    /\ files s' !! (lit "/home/ana/Downloads", lit "Road Trip_20240517_120009.json")
       = Some (Text text)
    /\ json_loads text
       = Some (json_data road_trip [song_track "Open Road" "4uLU6hMCjMI7"] noon).
Proof.
  apply (export_to_json_reads_back calm (worker JSON remote_one_page [road_trip])
           road_trip [song_track "Open Road" "4uLU6hMCjMI7"] initial);
    reflexivity.
Defined.

Lemma export_to_csv_rows_road_trip :
  exists s' rows,
    export_to_csv calm (worker CSV remote_one_page [road_trip]) road_trip
      [song_track "Open Road" "4uLU6hMCjMI7"] initial
    = (Ok (lit "/home/ana/Downloads", lit "Road Trip_20240517_120009.csv"), s')
    /\ files s' !! (lit "/home/ana/Downloads", lit "Road Trip_20240517_120009.csv")
       = Some (Csv csv_fieldnames rows)
    /\ map object_tuple rows
       = map (fun t => Some (track_tuple t)) [song_track "Open Road" "4uLU6hMCjMI7"]
    /\ Forall (fun row => exists d, row = PDict d /\ map fst d = csv_fieldnames) rows.
Proof.
  apply (export_to_csv_rows calm (worker CSV remote_one_page [road_trip])
           road_trip [song_track "Open Road" "4uLU6hMCjMI7"] initial);
    reflexivity.
Defined.

Lemma get_playlist_tracks_replaced_agrees_two_pages :
  fst (get_playlist_tracks_replaced repr_unused calm
         (worker CSV remote_two_pages [road_trip]) (id road_trip) initial)
  = fst (get_playlist_tracks repr_unused calm
           (worker CSV remote_two_pages [road_trip]) (id road_trip) initial)
  /\ polls (snd (get_playlist_tracks_replaced repr_unused calm
                   (worker CSV remote_two_pages [road_trip]) (id road_trip) initial))
     = polls (snd (get_playlist_tracks repr_unused calm
                     (worker CSV remote_two_pages [road_trip]) (id road_trip) initial)).
Proof.
  apply (get_playlist_tracks_replaced_agrees repr_unused calm
           (worker CSV remote_two_pages [road_trip]) (id road_trip) initial).
  reflexivity.
Defined.

Lemma run_item_not_mapping_null :
  exists s',
    run repr_unused calm (worker CSV remote_null_item [road_trip; focus]) initial
    = (Ok Failed, s')
    /\ signals s'
       = [ progress_of 0 2 (lit "Exporting: Road Trip");
           error (lit "'NoneType' object has no attribute 'get'") ]
    /\ exported_files s' = []
    /\ files s' = ∅
    /\ posted s' = [].
Proof.
  destruct (run_item_not_mapping repr_unused calm
              (worker CSV remote_null_item [road_trip; focus])
              [] road_trip [focus] initial
              [song "Open Road" "4uLU6hMCjMI7"] PNone [] None)
    as (s' & Hrun & Hsig & Hx & Hf & Hp); try reflexivity.
  exists s'. split; [exact Hrun|]. rewrite Hsig, Hx, Hf, Hp. repeat split.
Defined.

(** ** The window *)

Lemma load_playlists_complete_two :
  window_playlists (load_playlists repr_unused user_playlists stale_window)
  = [loaded_road_trip; loaded_chill]
  /\ playlist_count_label (load_playlists repr_unused user_playlists stale_window)
     = lit "2 playlists"
  /\ status_bar (load_playlists repr_unused user_playlists stale_window)
     = [lit "Loading playlists..."; lit "Loaded 2 playlists"]
  /\ dialogs (load_playlists repr_unused user_playlists stale_window) = [].
Proof.
  apply (load_playlists_complete repr_unused user_playlists stale_window
           [loaded_road_trip; loaded_chill]); reflexivity.
Defined.

Example load_playlists_items :
  map item_text (playlist_list (load_playlists repr_unused user_playlists stale_window))
  = [ lit "Road Trip " ++ [8226%N] ++ lit " 5 tracks";
      lit "Chill " ++ [8226%N] ++ lit " 2 tracks" ]
  /\ map item_tool_tip
       (playlist_list (load_playlists repr_unused user_playlists stale_window))
     = [ lit "Owner: ana" ++ [ch_newline] ++ lit "Tracks: 5" ++ [ch_newline]
         ++ lit "Description: No description";
         lit "Owner: ben" ++ [ch_newline] ++ lit "Tracks: 2" ++ [ch_newline]
         ++ lit "Description: No description" ].
Proof. split; vm_compute; reflexivity. Qed.

Lemma load_playlists_stops_untitled :
  window_playlists (load_playlists repr_unused user_playlists_untitled stale_window)
  = [loaded_road_trip]
  /\ playlist_count_label
       (load_playlists repr_unused user_playlists_untitled stale_window)
     = lit "7 playlists"
  /\ dialogs (load_playlists repr_unused user_playlists_untitled stale_window)
     = [critical_box (lit "Error")
          (lit "Failed to load playlists:" ++ [ch_newline; ch_newline] ++ lit "'id'")]
  /\ last (status_bar (load_playlists repr_unused user_playlists_untitled stale_window))
     = Some (lit "Failed to load playlists").
Proof.
  apply (load_playlists_stops repr_unused user_playlists_untitled stale_window
           [listed "37i9dQZF1DX0" "Road Trip" "ana" 5 (PStr [])]
           (PDict [ (lit "name", PStr (lit "Untitled")) ])
           [listed "5FJXhjdILmRA" "Chill" "ben" 2 PNone]
           [loaded_road_trip] (KeyError (lit "'id'"))); reflexivity.
Defined.

Lemma filter_playlists_empty_search_loaded :
  fst (filter_playlists ascii_lower []
         (load_playlists repr_unused user_playlists stale_window)) = None
  /\ playlist_list
       (snd (filter_playlists ascii_lower []
               (load_playlists repr_unused user_playlists stale_window)))
     = map (setHidden false)
         (playlist_list (load_playlists repr_unused user_playlists stale_window))
  /\ window_playlists
       (snd (filter_playlists ascii_lower []
               (load_playlists repr_unused user_playlists stale_window)))
     = window_playlists (load_playlists repr_unused user_playlists stale_window).
Proof.
  apply (filter_playlists_empty_search ascii_lower []
           (load_playlists repr_unused user_playlists stale_window)).
  - reflexivity.
  - vm_compute. lia.
  - repeat constructor.
Defined.


Lemma start_export_started_discord :
  start_export (load_playlists repr_unused user_playlists stale_window) DISCORD
    [1; 0] (lit "/home/ana/Downloads") true
    (lit "  https://discord.com/api/webhooks/1/abc" ++ [ch_newline]) true
  = Start_started (lit "Export 2 playlists (7 total tracks) to Discord?")
      {| arg_export_format := DISCORD;
         arg_playlists := [loaded_chill; loaded_road_trip];
         arg_output_dir := lit "/home/ana/Downloads";
         arg_webhook_url := lit "https://discord.com/api/webhooks/1/abc" |}
  /\ lit "https://discord.com/api/webhooks/1/abc"
     = py_strip (lit "  https://discord.com/api/webhooks/1/abc" ++ [ch_newline]).
Proof.
  assert (H : start_export (load_playlists repr_unused user_playlists stale_window)
                DISCORD [1; 0] (lit "/home/ana/Downloads") true
                (lit "  https://discord.com/api/webhooks/1/abc" ++ [ch_newline]) true
              = Start_started (lit "Export 2 playlists (7 total tracks) to Discord?")
                  {| arg_export_format := DISCORD;
                     arg_playlists := [loaded_chill; loaded_road_trip];
                     arg_output_dir := lit "/home/ana/Downloads";
                     arg_webhook_url := lit "https://discord.com/api/webhooks/1/abc" |}).
  { vm_compute. reflexivity. }
  split; [exact H|].
  destruct (start_export_started _ _ _ _ _ _ _ _ _ H)
    as (_ & _ & _ & _ & _ & _ & _ & Hd & _).
  destruct (Hd eq_refl) as (Hurl & _). exact Hurl.
Defined.

Lemma load_playlists_rows_in_range_two :
  fst (filter_playlists ascii_lower (lit "Jazz")
         (load_playlists repr_unused user_playlists stale_window))
  <> Some (IndexError (lit "list index out of range"))
  /\ start_export (load_playlists repr_unused user_playlists stale_window)
       CSV [1; 0] (lit "/home/ana/Downloads") true [] true
     <> Start_raised (IndexError (lit "list index out of range")).
Proof.
  apply (load_playlists_rows_in_range repr_unused ascii_lower user_playlists
           stale_window (lit "Jazz") CSV [1; 0] (lit "/home/ana/Downloads") true []
           true (lit "list index out of range")).
  repeat constructor; vm_compute; lia.
Defined.
